(** * spark-cli: dependency resolver, link reconciliation and sync engine

    A shallow embedding of the Go sources of the workspace CLI
    (package [git], package [npm], and the [run] and [sync] commands of
    package [cmd]) together with the properties of its specification.

    Go strings are byte strings and are modelled by [string]; Go [int] is
    modelled by [Z]; the workspace's [map[string]RepoDef] by a [gmap];
    external processes and the file system by an event signature that a
    handler interprets over a world of its own. *)

From Stdlib Require Import ZArith Ascii String List Bool Lia.
From stdpp Require Import base tactics option list gmap strings sorting pretty.

Set Warnings "-clear-no-such-hyp".

Local Open Scope Z_scope.
Local Open Scope stdpp_scope.

(* ===================================================================== *)
(** ** Go standard library functions used by the sources                  *)
(* ===================================================================== *)

Module GoStrings.

(** The line feed that ends the lines the commands print. *)
Definition nl : string := String "010" EmptyString.

(** [strings.Contains(s, sub)] for a one-byte [sub]; the sources only call
    it with [":"] and ["/"]. *)
Fixpoint ContainsByte (c : ascii) (s : string) : bool :=
  match s with
  | EmptyString => false
  | String a r => if decide (a = c) then true else ContainsByte c r
  end.

(** [strings.HasPrefix]. *)
Definition HasPrefix (s p : string) : bool := String.prefix p s.

(** [strings.HasSuffix]: [len(s) >= len(suffix) &&
    s[len(s)-len(suffix):] == suffix]. *)
Definition HasSuffix (s suffix : string) : bool :=
  (String.length suffix <=? String.length s)%nat &&
  bool_decide
    (String.substring (String.length s - String.length suffix)
       (String.length suffix) s = suffix).

(** [strings.TrimSuffix]. *)
Definition TrimSuffix (s suffix : string) : string :=
  if HasSuffix s suffix
  then String.substring 0 (String.length s - String.length suffix) s
  else s.

(** [strings.Split(s, sep)] for a one-byte [sep]: the pieces between the
    separators, one more than there are separators. *)
Fixpoint Split (sep : ascii) (s : string) : list string :=
  match s with
  | EmptyString => [EmptyString]
  | String a r =>
      if decide (a = sep) then EmptyString :: Split sep r
      else match Split sep r with
           | hd :: tl => String a hd :: tl
           | [] => [String a EmptyString]
           end
  end.

(** [strings.Join(elems, sep)]. *)
Fixpoint Join (elems : list string) (sep : string) : string :=
  match elems with
  | [] => ""
  | [e] => e
  | e :: rest => e +:+ sep +:+ Join rest sep
  end.

(** [path[i+1:]] for the last index [i] of [sep] in [path], and [path]
    itself when there is none: the loop of [filepath.Base]. *)
Fixpoint afterLast (sep : ascii) (path : string) : string :=
  match path with
  | EmptyString => EmptyString
  | String a r =>
      if ContainsByte sep r then afterLast sep r
      else if decide (a = sep) then r else String a r
  end.

(** The first loop of [filepath.Base]: strip trailing separators. *)
Fixpoint stripTrailing (sep : ascii) (path : string) : string :=
  match path with
  | EmptyString => EmptyString
  | String a r =>
      match stripTrailing sep r with
      | EmptyString => if decide (a = sep) then EmptyString else String a EmptyString
      | r' => String a r'
      end
  end.

(** [filepath.Base] on a Unix system (separator ['/'], no volume names). *)
Definition Base (path : string) : string :=
  if decide (path = "") then "."
  else
    let path := stripTrailing "/" path in
    let path := afterLast "/" path in
    if decide (path = "") then "/" else path.

End GoStrings.

(* ===================================================================== *)
(** ** package git: pure helpers                                          *)
(* ===================================================================== *)

Module git.
Import GoStrings.

(** BuildRemoteURL constructs a git SSH URL from org/repo. *)
Definition BuildRemoteURL (orgRepo : string) : string :=
  if HasPrefix orgRepo "git@" || HasPrefix orgRepo "https://" then orgRepo
  else "git@github.com:" +:+ orgRepo +:+ ".git".

(** RepoNameFromRemote extracts the repo name from a remote URL or an
    org/repo string. *)
Definition RepoNameFromRemote (remote : string) : string :=
  if negb (ContainsByte ":" remote) && ContainsByte "/" remote then
    let parts := Split "/" remote in
    List.last parts ""
  else
    let base := Base remote in
    TrimSuffix base ".git".

End git.

Module workspace.

(** Modelled from the spec: the declarations of package workspace are not
    among the sources.  A RepoDef has a path relative to the workspace
    root, an optional default branch override and the ordered declared
    dependency names; a Workspace maps repo names to RepoDefs and carries
    the workspace-wide default branch.  Only the fields that the modelled
    commands read are kept. *)
Record RepoDef := {
  Path : string;
  repo_DefaultBranch : string;
  Dependencies : list string;
}.

Record Workspace := {
  Repos : gmap string RepoDef;
  DefaultBranch : string;
}.

(** The zero value that indexing [Repos] with a missing key returns. *)
Definition zeroRepoDef : RepoDef :=
  {| Path := ""; repo_DefaultBranch := ""; Dependencies := [] |}.

End workspace.

Module Resolver.
Import workspace.

Record depMapping := { api : string; pkg : string }.

Definition modelToAPI : gmap string depMapping :=
  {[ "AppModel" := {| api := "AppAPI"; pkg := "@spark-rewards/sra-sdk" |};
     "BusinessModel" := {| api := "BusinessAPI"; pkg := "@spark-rewards/srw-sdk" |} ]}.

Definition apiToModel : gmap string string :=
  {[ "AppAPI" := "AppModel"; "BusinessAPI" := "BusinessModel" ]}.

Fixpoint containsRun (slice : list string) (item : string) : bool :=
  match slice with
  | [] => false
  | s :: rest => if decide (s = item) then true else containsRun rest item
  end.

(** The state of the walk: the [seen] map, used as a set, and the [deps]
    slice; both are captured by the closure [collect] and mutated. *)
Record walk := { seen : gset string; deps : list string }.

(** A [for ... range] loop whose body may run out of fuel. *)
Fixpoint forEach {A S : Type} (body : S → A → option S) (l : list A) (st : S)
  : option S :=
  match l with
  | [] => Some st
  | x :: rest => st' ← body st x; forEach body rest st'
  end.

(** The body of the closure [collect] of getDepsForRun; [self] stands for
    the recursive calls. *)
Definition collectBody (ws : Workspace) (self : string → walk → option walk)
    (n : string) (st : walk) : option walk :=
  if decide (n ∈ seen st) then Some st
  else
    let st := {| seen := {[n]} ∪ seen st; deps := deps st |} in
    st ← match apiToModel !! n with
         | Some modelName =>
             match Repos ws !! modelName with
             | Some _ =>
                 st ← self modelName st;
                 Some {| seen := seen st; deps := deps st ++ [modelName] |}
             | None => Some st
             end
         | None => Some st
         end;
    match Repos ws !! n with
    | Some repo =>
        forEach
          (λ st dep,
             match Repos ws !! dep with
             | Some _ =>
                 st ← self dep st;
                 if containsRun (deps st) dep then Some st
                 else Some {| seen := seen st; deps := deps st ++ [dep] |}
             | None => Some st
             end)
          (Dependencies repo) st
    | None => Some st
    end.

(** The closure [collect].  Go's recursion is unbounded; here its depth is
    bounded by [fuel], and [None] means that the bound was hit. *)
Fixpoint collect (ws : Workspace) (fuel : nat) (n : string) (st : walk)
  : option walk :=
  match fuel with
  | O => None
  | S fuel => collectBody ws (collect ws fuel) n st
  end.

(** getDepsForRun with an explicit recursion bound.  The final
    [seen[name] = false] of the source writes a map that is never read
    again and is left out. *)
Definition getDepsForRun_fuel (fuel : nat) (ws : Workspace) (name : string)
  : option (list string) :=
  st ← collect ws fuel name {| seen := ∅; deps := [] |};
  Some (List.filter (λ d, negb (bool_decide (d = name))) (deps st)).

(** Every call of [collect] that gets past the [seen] check marks a new
    name, and only the target and keys of the workspace are ever entered,
    so a depth of two more than the number of repos is never reached. *)
Definition getDepsForRun (ws : Workspace) (name : string) : list string :=
  default [] (getDepsForRun_fuel (S (S (size (Repos ws)))) ws name).

End Resolver.

(** Concrete workspaces on which the resolver is evaluated. *)
Module ResolverInputs.
Import workspace.

Definition repoWith (ds : list string) : RepoDef :=
  {| Path := ""; repo_DefaultBranch := ""; Dependencies := ds |}.

(** A site that declares both the model and its API, in that order. *)
Definition wsSite : Workspace :=
  {| Repos := {[ "Site" := repoWith ["AppModel"; "AppAPI"];
                 "AppModel" := repoWith [];
                 "AppAPI" := repoWith [] ]};
     DefaultBranch := "" |}.

(** A declared cycle AppModel -> Codegen -> AppModel below AppAPI. *)
Definition wsCycle : Workspace :=
  {| Repos := {[ "AppAPI" := repoWith [];
                 "AppModel" := repoWith ["Codegen"];
                 "Codegen" := repoWith ["AppModel"] ]};
     DefaultBranch := "" |}.

(** A plain cycle A -> B -> A without implicit edges. *)
Definition wsLoop : Workspace :=
  {| Repos := {[ "A" := repoWith ["B"]; "B" := repoWith ["A"] ]};
     DefaultBranch := "" |}.

(** X declares [Y, Z] and Y declares [Z]. *)
Definition wsXYZ : Workspace :=
  {| Repos := {[ "X" := repoWith ["Y"; "Z"];
                 "Y" := repoWith ["Z"];
                 "Z" := repoWith [] ]};
     DefaultBranch := "" |}.

(** The model and its API, with no declared edge. *)
Definition wsModelAPI : Workspace :=
  {| Repos := {[ "AppModel" := repoWith []; "AppAPI" := repoWith [] ]};
     DefaultBranch := "" |}.

End ResolverInputs.

(** Notions used to state the properties of the resolver. *)
Module ResolverSpec.
Import workspace Resolver.

(** The names that the walk from [name] may still enter: the target and
    the keys of the repo map, less those already seen. *)
Definition unseen (ws : Workspace) (name : string) (st : walk) : nat :=
  size (({[name]} ∪ dom (Repos ws)) ∖ seen st).

(** Every collected name is a key of the repo map. *)
Definition known (ws : Workspace) (st : walk) : Prop :=
  Forall (λ d, is_Some (Repos ws !! d)) (deps st).

(** No implicit counterpart of [n] is present in the workspace. *)
Definition noImplicit (ws : Workspace) (n : string) : Prop :=
  ∀ m, apiToModel !! n = Some m → Repos ws !! m = None.

End ResolverSpec.

(* ===================================================================== *)
(** ** Effects: external processes and the file system                    *)
(* ===================================================================== *)

Module Effects.

(** A Go [error] is represented by its message. *)
Definition error := string.

(** What [cmd.Output()] returns: the standard output, or an error. *)
Inductive output :=
| Out (stdout : string)
| OutErr (err : error).

(** The part of [os.FileInfo] that the sources read. *)
Record FileInfo := {
  Size : Z;
  ModTimeUnixNano : Z;
  IsSymlink : bool;
}.

(** What [os.Stat] and [os.Lstat] return; [os.IsNotExist] tells the two
    errors apart. *)
Inductive statResult :=
| StatOk (info : FileInfo)
| StatNotExist
| StatErr (err : error).

(** One constructor per external interaction; the index is the type of
    the answer. *)
Inductive event : Type → Type :=
(* processes started by package git *)
| GitStatus (dir : string) : event output
| GitStatusColor (dir : string) : event output
| GitPull (dir : string) : event (option error)
| GitFetch (dir remote : string) : event (option error)
| GitRebase (dir upstream : string) : event (option error)
| GitRebaseAbort (dir : string) : event (option error)
| GitSymbolicRef (dir : string) : event output
| GitRevParseVerify (dir ref : string) : event (option error)
(* functions of package git that the sync command calls and whose bodies
   are not part of the sources *)
| CallGetCurrentBranch (dir : string) : event string
| CallAheadBehind (dir branch upstream : string) : event (Z * Z)
| CallListLocalBranches (dir : string) : event (list string)
| CallCheckoutQuiet (dir branch : string) : event (option error)
(* the file system *)
| OsStat (path : string) : event statResult
| OsLstat (path : string) : event statResult
(* npm and the login shell *)
| NpmLink (dir : string) : event (option error)
| NpmLinkPackage (dir pkg : string) : event (option error)
| CallBuildSyncEnv (wsPath : string) : event (list (string * string))
| RunSyncCmd (dir command : string) (wsEnv : list (string * string))
    : event (option error)
| CallFindSparkPackages (dir : string) : event (list string)
| CallLinkCDKDependencies (wsPath : string) : event unit
(* standard output *)
| Print (text : string) : event unit.

(** Programs: trees of events, finite because every loop of the sources
    ranges over a slice. *)
Inductive Prog (A : Type) : Type :=
| Ret (a : A)
| Vis {X : Type} (e : event X) (k : X → Prog A).
Arguments Ret {A} a.
Arguments Vis {A X} e k.

Fixpoint bind {A B : Type} (p : Prog A) (f : A → Prog B) : Prog B :=
  match p with
  | Ret a => f a
  | Vis e k => Vis e (λ x, bind (k x) f)
  end.

Definition trigger {X : Type} (e : event X) : Prog X := Vis e Ret.

#[global] Instance Prog_ret : MRet Prog := @Ret.
#[global] Instance Prog_bind : MBind Prog := λ A B f p, bind p f.

(** An answered event, as recorded in a trace. *)
Inductive entry : Type :=
| Entry {X : Type} (e : event X) (x : X).

(** The environment: it answers every event and moves to a new world. *)
Definition handler (W : Type) : Type := ∀ X, event X → W → X * W.

(** Running a program against an environment gives its result, the final
    world and the trace of answered events, oldest first. *)
Fixpoint run {W A : Type} (h : handler W) (p : Prog A) (w : W)
  : A * W * list entry :=
  match p with
  | Ret a => (a, w, [])
  | Vis e k =>
      let '(x, w1) := h _ e w in
      let '(a, w2, t) := run h (k x) w1 in
      (a, w2, Entry e x :: t)
  end.

Definition result_of {A W} (r : A * W * list entry) : A := r.1.1.
Definition world_of {A W} (r : A * W * list entry) : W := r.1.2.
Definition trace_of {A W} (r : A * W * list entry) : list entry := r.2.

(** *** Observations on traces *)

(** The rebases started, with their upstream and outcome. *)
Definition rebaseOf (en : entry) : option (string * string * option error) :=
  match en with
  | Entry e x =>
      match e in event X return X → _ with
      | GitRebase dir upstream => λ r, Some (dir, upstream, r)
      | _ => λ _, None
      end x
  end.

(** The checkouts attempted, with their branch and outcome. *)
Definition checkoutOf (en : entry) : option (string * string * option error) :=
  match en with
  | Entry e x =>
      match e in event X return X → _ with
      | CallCheckoutQuiet dir branch => λ r, Some (dir, branch, r)
      | _ => λ _, None
      end x
  end.

(** The ahead/behind counts computed. *)
Definition aheadBehindOf (en : entry) : option (Z * Z) :=
  match en with
  | Entry e x =>
      match e in event X return X → _ with
      | CallAheadBehind _ _ _ => λ r, Some r
      | _ => λ _, None
      end x
  end.

(** The answers of [git status --short]. *)
Definition statusOf (en : entry) : option output :=
  match en with
  | Entry e x =>
      match e in event X return X → _ with
      | GitStatus _ => λ r, Some r
      | _ => λ _, None
      end x
  end.

(** The [os.Stat] answers for one path. *)
Definition statOf (path : string) (en : entry) : option statResult :=
  match en with
  | Entry e x =>
      match e in event X return X → _ with
      | OsStat p => λ r, if decide (p = path) then Some r else None
      | _ => λ _, None
      end x
  end.

(** The commands run through the login shell. *)
Definition shellOf (en : entry) : option (string * string) :=
  match en with
  | Entry e x =>
      match e with
      | RunSyncCmd dir command _ => Some (dir, command)
      | _ => None
      end
  end.

(** The npm link operations performed. *)
Definition isLinkOp (en : entry) : bool :=
  match en with
  | Entry e x =>
      match e with
      | NpmLink _ | NpmLinkPackage _ _ => true
      | _ => false
      end
  end.

(** Events that rewrite history or move the working tree to another
    branch. *)
Definition changesBranches (en : entry) : bool :=
  match en with
  | Entry e x =>
      match e with
      | GitRebase _ _ | GitRebaseAbort _ | CallCheckoutQuiet _ _ | GitPull _ => true
      | _ => false
      end
  end.

End Effects.

(** Functions of the Go standard library that the sources call and that are
    kept abstract: [strings.TrimSpace] and [filepath.Join]. *)
Class GoLib := {
  TrimSpace : string → string;
  filepath_Join : list string → string;
}.

(* ===================================================================== *)
(** ** package git: commands                                              *)
(* ===================================================================== *)

Module gitcmd.
Import GoStrings Effects.

Section WithLib.
Context `{GoLib}.

(** Status runs git status in the given directory and returns the
    output. *)
Definition Status (repoDir : string) : Prog (string * option error) :=
  out ← trigger (GitStatus repoDir);
  match out with
  | OutErr err => mret ("", Some err)
  | Out o => mret (TrimSpace o, None)
  end.

(** StatusShortColor returns git status --short with ANSI colors;
    [strings.TrimRight(out, "\n")] strips the trailing newlines. *)
Definition StatusShortColor (repoDir : string) : Prog (string * option error) :=
  out ← trigger (GitStatusColor repoDir);
  match out with
  | OutErr err => mret ("", Some err)
  | Out o => mret (stripTrailing "010" o, None)
  end.

(** IsDirty checks if the working directory has uncommitted changes. *)
Definition IsDirty (repoDir : string) : Prog bool :=
  '(status, err) ← Status repoDir;
  match err with
  | Some _ => mret false
  | None => mret (negb (bool_decide (status = "")))
  end.

Definition Pull (repoDir : string) : Prog (option error) :=
  trigger (GitPull repoDir).

Definition FetchQuiet (repoDir remote : string) : Prog (option error) :=
  let remote := if decide (remote = "") then "origin" else remote in
  trigger (GitFetch repoDir remote).

Definition RebaseQuiet (repoDir upstream : string) : Prog (option error) :=
  trigger (GitRebase repoDir upstream).

Definition RebaseAbortQuiet (repoDir : string) : Prog (option error) :=
  trigger (GitRebaseAbort repoDir).

(** The probing loop of GetDefaultBranch over [main] and [prod]. *)
Fixpoint probeBranches (repoDir : string) (branches : list string) : Prog string :=
  match branches with
  | [] => mret "main"
  | branch :: rest =>
      err ← trigger (GitRevParseVerify repoDir ("origin/" +:+ branch));
      match err with
      | None => mret branch
      | Some _ => probeBranches repoDir rest
      end
  end.

(** GetDefaultBranch attempts to determine the default branch (main or
    prod). *)
Definition GetDefaultBranch (repoDir : string) : Prog string :=
  out ← trigger (GitSymbolicRef repoDir);
  match out with
  | Out o =>
      let ref := TrimSpace o in
      let parts := Split "/" ref in
      if (0 <? length parts)%nat then mret (List.last parts "")
      else probeBranches repoDir ["main"; "prod"]
  | OutErr _ => probeBranches repoDir ["main"; "prod"]
  end.

(** Modelled from the spec: GetCurrentBranch, AheadBehind,
    ListLocalBranches and CheckoutQuiet are called by the sync command
    but their bodies are not among the sources of package git.  They
    are the RepoOps operations current-branch, ahead-behind(branch,
    upstream), list-local-branches and checkout(branch): each is one
    interaction with the repository whose answer the environment
    chooses. *)
Definition GetCurrentBranch (repoDir : string) : Prog string :=
  trigger (CallGetCurrentBranch repoDir).

Definition AheadBehind (repoDir branch upstream : string) : Prog (Z * Z) :=
  trigger (CallAheadBehind repoDir branch upstream).

Definition ListLocalBranches (repoDir : string) : Prog (list string) :=
  trigger (CallListLocalBranches repoDir).

Definition CheckoutQuiet (repoDir branch : string) : Prog (option error) :=
  trigger (CallCheckoutQuiet repoDir branch).

End WithLib.
End gitcmd.

(* ===================================================================== *)
(** ** package npm                                                        *)
(* ===================================================================== *)

Module npm.
Import Effects.

Definition SmithyBuildBase : string := "smithy/build/smithyprojections/smithy/source".
Definition SmithyBuildPath : string := SmithyBuildBase +:+ "/typescript-ssdk-codegen".

Section WithLib.
Context `{GoLib}.

(** Link runs `npm link` in the given directory to register a package
    globally.  (The run command calls it with the directory alone; the
    extra environment of the later signature is not modelled.) *)
Definition Link (dir : string) : Prog (option error) := trigger (NpmLink dir).

(** LinkPackage runs `npm link <pkg>` in the given directory to consume
    a linked package. *)
Definition LinkPackage (dir pkg : string) : Prog (option error) :=
  trigger (NpmLinkPackage dir pkg).

(** IsBuilt checks if a Smithy model directory has built artifacts. *)
Definition IsBuilt (modelDir : string) : Prog bool :=
  let buildDir := filepath_Join [modelDir; SmithyBuildPath] in
  let packageJSON := filepath_Join [buildDir; "package.json"] in
  let distTypes := filepath_Join [buildDir; "dist-types"] in
  st ← trigger (OsStat packageJSON);
  match st with
  | StatOk _ =>
      st ← trigger (OsStat distTypes);
      match st with
      | StatOk _ => mret true
      | _ => mret false
      end
  | _ => mret false
  end.

(** BuildOutputDir returns the path to the default Smithy SDK build
    output. *)
Definition BuildOutputDir (modelDir : string) : string :=
  filepath_Join [modelDir; SmithyBuildPath].

(** IsLinked checks if a package is currently npm-linked in the given
    directory. *)
Definition IsLinked (dir pkg : string) : Prog bool :=
  let nodeModulesPath := filepath_Join [dir; "node_modules"; pkg] in
  st ← trigger (OsLstat nodeModulesPath);
  match st with
  | StatOk info => mret (IsSymlink info)
  | _ => mret false
  end.

End WithLib.
End npm.

(* ===================================================================== *)
(** ** package cmd: the run command                                       *)
(* ===================================================================== *)

Module runcmd.
Import workspace Resolver GoStrings Effects.

Section WithLib.
Context `{GoLib}.

(** The zero value that Go's map index returns for a missing key. *)
Definition zeroDepMapping : depMapping := {| api := ""; pkg := "" |}.

Definition autoLinkDeps (wsPath : string) (ws : Workspace) (name : string)
  : Prog (option error) :=
  match apiToModel !! name with
  | None => mret None
  | Some modelName =>
      match Repos ws !! modelName with
      | None => mret None
      | Some modelRepo =>
          let modelDir := filepath_Join [wsPath; Path modelRepo] in
          let apiDir :=
            filepath_Join [wsPath; Path (default zeroRepoDef (Repos ws !! name))] in
          let mapping := default zeroDepMapping (modelToAPI !! modelName) in
          built ← npm.IsBuilt modelDir;
          if negb built then
            _ ← trigger (Print ("Using published " +:+ pkg mapping
                                 +:+ " (local not built)" +:+ nl));
            mret None
          else
            linked ← npm.IsLinked apiDir (pkg mapping);
            if (linked : bool) then
              _ ← trigger (Print ("Using local " +:+ modelName
                                   +:+ " (already linked)" +:+ nl));
              mret None
            else
              _ ← trigger (Print ("Linking local " +:+ modelName +:+ " -> "
                                   +:+ name +:+ "..." +:+ nl));
              let buildDir := npm.BuildOutputDir modelDir in
              err ← npm.Link buildDir;
              match err with
              | Some err =>
                  mret (Some ("npm link in " +:+ modelName +:+ " failed: " +:+ err))
              | None =>
                  err ← npm.LinkPackage apiDir (pkg mapping);
                  match err with
                  | Some err =>
                      mret (Some ("npm link " +:+ pkg mapping +:+ " failed: " +:+ err))
                  | None =>
                      _ ← trigger (Print ("Linked: " +:+ name +:+ " now uses local "
                                           +:+ modelName +:+ nl));
                      mret None
                  end
              end
      end
  end.

End WithLib.
End runcmd.

(* ===================================================================== *)
(** ** package cmd: the sync command                                      *)
(* ===================================================================== *)

Module synccmd.
Import workspace GoStrings Effects.

(** The package-level flag variables of the sync command. *)
Record flags := {
  syncBranch : string;
  syncNoRebase : bool;
  syncInstall : bool;
  syncUpdate : bool;
}.

(** repoSyncResult holds the result of syncing a single repo. *)
Record repoSyncResult := {
  name : string;
  branch : string;
  status : string;
  message : string;
  ahead : Z;
  behind : Z;
  dirty : bool;
  dirtyStatus : string;
  lockfileChanged : bool;
}.

(** cdkLambdaMappings defines which Lambda repo each CDK repo needs
    symlinked inside it. *)
Definition cdkLambdaMappings : list (string * string) :=
  [ ("InternalServiceCDK", "InternalAPILambda");
    ("AppServiceCDK", "AppAPILambda");
    ("BusinessServiceCDK", "BusinessAPILambda") ].

Definition IsNotExist (st : statResult) : bool :=
  match st with StatNotExist => true | _ => false end.

(** The message composed at the end of syncRepoFull. *)
Definition finalMessage (rebasedOthers failedOthers : list string) : string :=
  let message :=
    if (0 <? length rebasedOthers)%nat
    then "+" +:+ pretty (Z.of_nat (length rebasedOthers)) +:+ " branches rebased"
    else "" in
  if (0 <? length failedOthers)%nat then
    let message := if decide (message ≠ "") then message +:+ ", " else message in
    message +:+ pretty (Z.of_nat (length failedOthers))
      +:+ " branch rebase(s) failed: " +:+ Join failedOthers ", "
  else message.

Section WithLib.
Context `{GoLib}.

Definition getTargetBranch (fl : flags) (ws : Workspace)
    (repo : option RepoDef) (repoDir : string) : Prog string :=
  if decide (syncBranch fl ≠ "") then mret (syncBranch fl)
  else
    let fromWorkspace :=
      if decide (DefaultBranch ws ≠ "") then mret (DefaultBranch ws)
      else gitcmd.GetDefaultBranch repoDir in
    match repo with
    | Some repo =>
        if decide (repo_DefaultBranch repo ≠ "")
        then mret (repo_DefaultBranch repo)
        else fromWorkspace
    | None => fromWorkspace
    end.

(** Use size+modtime as a cheap hash. *)
Definition fileHash (path : string) : Prog string :=
  st ← trigger (OsStat path);
  match st with
  | StatOk info =>
      mret (pretty (Size info) +:+ "-" +:+ pretty (ModTimeUnixNano info))
  | _ => mret ""
  end.

(** The loop of syncRepoFull over the other local branches: checkout,
    rebase, and on a failed rebase abort and go on. *)
Fixpoint rebaseOthers (repoDir upstream currentBranch targetBranch : string)
    (branches rebasedOthers failedOthers : list string)
  : Prog (list string * list string) :=
  match branches with
  | [] => mret (rebasedOthers, failedOthers)
  | branch :: rest =>
      if bool_decide (branch = currentBranch) || bool_decide (branch = targetBranch)
      then rebaseOthers repoDir upstream currentBranch targetBranch
             rest rebasedOthers failedOthers
      else
        err ← gitcmd.CheckoutQuiet repoDir branch;
        match err with
        | Some _ =>
            rebaseOthers repoDir upstream currentBranch targetBranch
              rest rebasedOthers failedOthers
        | None =>
            err ← gitcmd.RebaseQuiet repoDir upstream;
            match err with
            | Some _ =>
                _ ← gitcmd.RebaseAbortQuiet repoDir;
                rebaseOthers repoDir upstream currentBranch targetBranch
                  rest rebasedOthers (failedOthers ++ [branch])
            | None =>
                rebaseOthers repoDir upstream currentBranch targetBranch
                  rest (rebasedOthers ++ [branch]) failedOthers
            end
        end
  end.

(** The three ways in which syncRepoFull ends, in the order of the
    source: the dirty working tree, [--no-rebase], and the rebase of
    all local branches. *)
Definition skipDirty (name repoDir currentBranch : string) (ahead0 behind0 : Z)
  : Prog repoSyncResult :=
  '(status, err) ← gitcmd.StatusShortColor repoDir;
  status ← (if bool_decide (err ≠ None) || bool_decide (status = "")
            then '(status, _) ← gitcmd.Status repoDir; mret status
            else mret status);
  mret {| name := name; branch := currentBranch; status := "skipped";
          message := "dirty working tree"; ahead := ahead0; behind := behind0;
          dirty := true; dirtyStatus := status; lockfileChanged := false |}.

Definition pullOnly (name repoDir currentBranch : string) (ahead0 behind0 : Z)
  : Prog repoSyncResult :=
  err ← gitcmd.Pull repoDir;
  match err with
  | Some err =>
      mret {| name := name; branch := currentBranch; status := "failed";
              message := err; ahead := ahead0; behind := behind0;
              dirty := false; dirtyStatus := ""; lockfileChanged := false |}
  | None =>
      mret {| name := name; branch := currentBranch; status := "synced";
              message := ""; ahead := ahead0; behind := behind0;
              dirty := false; dirtyStatus := ""; lockfileChanged := false |}
  end.

Definition rebaseBranches (name repoDir currentBranch targetBranch upstream : string)
    (ahead0 behind0 : Z) : Prog repoSyncResult :=
  (* Record package-lock hash before rebase *)
  lockBefore ← fileHash (filepath_Join [repoDir; "package-lock.json"]);
  (* Get all local branches *)
  branches ← gitcmd.ListLocalBranches repoDir;
  (* Rebase current branch first *)
  err ← gitcmd.RebaseQuiet repoDir upstream;
  match err with
  | Some _ =>
      _ ← gitcmd.RebaseAbortQuiet repoDir;
      mret {| name := name; branch := currentBranch; status := "failed";
              message := "rebase " +:+ currentBranch +:+ " onto " +:+ upstream
                         +:+ " failed";
              ahead := ahead0; behind := behind0;
              dirty := false; dirtyStatus := ""; lockfileChanged := false |}
  | None =>
      (* Rebase other local branches onto main *)
      '(rebasedOthers, failedOthers) ←
        rebaseOthers repoDir upstream currentBranch targetBranch branches [] [];
      (* Return to original branch *)
      _ ← gitcmd.CheckoutQuiet repoDir currentBranch;
      (* Check if package-lock changed *)
      lockAfter ← fileHash (filepath_Join [repoDir; "package-lock.json"]);
      (* Recompute ahead/behind after rebase *)
      '(ahead1, behind1) ← gitcmd.AheadBehind repoDir currentBranch upstream;
      mret {| name := name; branch := currentBranch; status := "synced";
              message := finalMessage rebasedOthers failedOthers;
              ahead := ahead1; behind := behind1;
              dirty := false; dirtyStatus := "";
              lockfileChanged := negb (bool_decide (lockBefore = lockAfter)) |}
  end.

(** syncRepoFull fetches, rebases all local branches onto main, and
    returns status. *)
Definition syncRepoFull (fl : flags) (wsPath : string) (ws : Workspace)
    (name : string) (repo : RepoDef) (repoDir : string) : Prog repoSyncResult :=
  currentBranch ← gitcmd.GetCurrentBranch repoDir;
  targetBranch ← getTargetBranch fl ws (Some repo) repoDir;
  let upstream := "origin/" +:+ targetBranch in
  (* Get ahead/behind for current branch vs origin/main *)
  '(ahead0, behind0) ← gitcmd.AheadBehind repoDir currentBranch upstream;
  (* Check dirty *)
  isDirty ← gitcmd.IsDirty repoDir;
  if (isDirty : bool) then skipDirty name repoDir currentBranch ahead0 behind0
  else if syncNoRebase fl then pullOnly name repoDir currentBranch ahead0 behind0
  else rebaseBranches name repoDir currentBranch targetBranch upstream ahead0 behind0.

Definition installRepo (wsPath : string) (ws : Workspace) (name repoDir : string)
  : Prog unit :=
  st ← trigger (OsStat (filepath_Join [repoDir; "package.json"]));
  if IsNotExist st then mret ()
  else
    wsEnv ← trigger (CallBuildSyncEnv wsPath);
    _ ← trigger (RunSyncCmd repoDir "npm install" wsEnv);
    mret ().

(** The sync of one named repo.  The status line that printResult writes
    is not modelled. *)
Definition syncRepo (fl : flags) (wsPath : string) (ws : Workspace) (name : string)
  : Prog (option error) :=
  match Repos ws !! name with
  | None =>
      mret (Some ("repo '" +:+ name +:+ "' not found â€” run 'spark-cli list' to see repos"))
  | Some repo =>
      let repoDir := filepath_Join [wsPath; Path repo] in
      st ← trigger (OsStat repoDir);
      if IsNotExist st then
        mret (Some ("repo directory missing â€” run 'spark-cli use " +:+ name +:+ "'"))
      else
        result ← syncRepoFull fl wsPath ws name repo repoDir;
        _ ← (if syncInstall fl && lockfileChanged result
             then installRepo wsPath ws name repoDir else mret ());
        (* If we just synced a CDK repo, ensure its Lambda symlink is in place *)
        _ ← (if existsb (λ m, bool_decide (name = m.1)) cdkLambdaMappings
             then trigger (CallLinkCDKDependencies wsPath) else mret ());
        mret None
  end.

(** The fetches that wg.Wait() still waits for once the schedule has run
    out: they complete in the order in which they were started. *)
Fixpoint joinFetches (pending : list string) : Prog unit :=
  match pending with
  | [] => mret ()
  | dir :: rest =>
      _ ← gitcmd.FetchQuiet dir "origin";
      joinFetches rest
  end.

(** The rest of the loop of phase 1 once the schedule has run out: it
    goes through the names that are left before any fetch completes,
    and gives the fetches that are running then. *)
Fixpoint startFetches (wsPath : string) (ws : Workspace)
    (allNames pending : list string) : Prog (list string) :=
  match allNames with
  | [] => mret pending
  | name :: rest =>
      let repo := default zeroRepoDef (Repos ws !! name) in
      let repoDir := filepath_Join [wsPath; Path repo] in
      st ← trigger (OsStat repoDir);
      if IsNotExist st then startFetches wsPath ws rest pending
      else startFetches wsPath ws rest (pending ++ [repoDir])
  end.

(** Phase 1 of syncAllRepos: parallel fetch all repos.  The loop looks
    at the directories in the order of the names and starts a goroutine
    for each one that exists; a goroutine runs one [git fetch origin]
    and drops its error, and wg.Wait() returns when all of them are
    done.  The source fixes no order between a fetch that is running
    and the later steps of the loop, nor among the fetches.  A fetch is
    one event, recorded when it completes, and [sched] is the schedule
    of the run: [0] lets the loop take its next step, and [S k] lets
    the fetch at position [k] of those still running complete; a
    choice that is not possible is passed over.  [pending] holds the
    directories of the fetches that are running. *)
Fixpoint fetchAll (wsPath : string) (ws : Workspace) (sched : list nat)
    (allNames pending : list string) : Prog unit :=
  match sched with
  | [] =>
      pending ← startFetches wsPath ws allNames pending;
      joinFetches pending
  | O :: sched =>
      match allNames with
      | [] => fetchAll wsPath ws sched [] pending
      | name :: rest =>
          let repo := default zeroRepoDef (Repos ws !! name) in
          let repoDir := filepath_Join [wsPath; Path repo] in
          st ← trigger (OsStat repoDir);
          if IsNotExist st then fetchAll wsPath ws sched rest pending
          else fetchAll wsPath ws sched rest (pending ++ [repoDir])
      end
  | S k :: sched =>
      match pending !! k with
      | None => fetchAll wsPath ws sched allNames pending
      | Some dir =>
          _ ← gitcmd.FetchQuiet dir "origin";
          fetchAll wsPath ws sched allNames (delete k pending)
      end
  end.

(** Phase 2: rebase all branches sequentially. *)
Fixpoint rebaseAll (fl : flags) (wsPath : string) (ws : Workspace)
    (allNames : list string) (results : list repoSyncResult)
  : Prog (list repoSyncResult) :=
  match allNames with
  | [] => mret results
  | name :: rest =>
      let repo := default zeroRepoDef (Repos ws !! name) in
      let repoDir := filepath_Join [wsPath; Path repo] in
      st ← trigger (OsStat repoDir);
      if IsNotExist st then
        rebaseAll fl wsPath ws rest
          (results ++ [ {| name := name; branch := ""; status := "skipped";
                           message := "not cloned"; ahead := 0; behind := 0;
                           dirty := false; dirtyStatus := "";
                           lockfileChanged := false |} ])
      else
        result ← syncRepoFull fl wsPath ws name repo repoDir;
        rebaseAll fl wsPath ws rest (results ++ [result])
  end.

(** Phase 4: npm install where package-lock changed. *)
Fixpoint installChanged (wsPath : string) (ws : Workspace)
    (wsEnv : list (string * string)) (results : list repoSyncResult)
  : Prog unit :=
  match results with
  | [] => mret ()
  | r :: rest =>
      if negb (lockfileChanged r) then installChanged wsPath ws wsEnv rest
      else
        let repo := default zeroRepoDef (Repos ws !! name r) in
        let repoDir := filepath_Join [wsPath; Path repo] in
        st ← trigger (OsStat (filepath_Join [repoDir; "package.json"]));
        if IsNotExist st then installChanged wsPath ws wsEnv rest
        else
          _ ← trigger (RunSyncCmd repoDir "npm install" wsEnv);
          installChanged wsPath ws wsEnv rest
  end.

(** The inner loop of the update phase: each package to latest. *)
Fixpoint updatePackages (repoDir : string) (wsEnv : list (string * string))
    (pkgs : list string) : Prog unit :=
  match pkgs with
  | [] => mret ()
  | pkg :: rest =>
      _ ← trigger (RunSyncCmd repoDir ("npm install " +:+ pkg +:+ "@latest --save") wsEnv);
      updatePackages repoDir wsEnv rest
  end.

(** The update phase, run under [--update]. *)
Fixpoint updateAll (wsPath : string) (ws : Workspace)
    (wsEnv : list (string * string)) (allNames : list string) : Prog unit :=
  match allNames with
  | [] => mret ()
  | name :: rest =>
      let repo := default zeroRepoDef (Repos ws !! name) in
      let repoDir := filepath_Join [wsPath; Path repo] in
      st ← trigger (OsStat (filepath_Join [repoDir; "package.json"]));
      if IsNotExist st then updateAll wsPath ws wsEnv rest
      else
        pkgs ← trigger (CallFindSparkPackages repoDir);
        _ ← updatePackages repoDir wsEnv pkgs;
        updateAll wsPath ws wsEnv rest
  end.

(** The sync of every repo, in the sorted order of the names, under the
    schedule [sched] of the fetches of phase 1.  The status table of
    phase 3 is not modelled. *)
Definition syncAllRepos (fl : flags) (wsPath : string) (ws : Workspace)
    (sched : list nat) : Prog (option error) :=
  if decide (size (Repos ws) = 0%nat) then mret None
  else
    let allNames := merge_sort String.le (map fst (map_to_list (Repos ws))) in
    _ ← fetchAll wsPath ws sched allNames [];
    results ← rebaseAll fl wsPath ws allNames [];
    _ ← (if syncInstall fl then
           wsEnv ← trigger (CallBuildSyncEnv wsPath);
           installChanged wsPath ws wsEnv results
         else mret ());
    _ ← (if syncUpdate fl then
           wsEnv ← trigger (CallBuildSyncEnv wsPath);
           updateAll wsPath ws wsEnv allNames
         else mret ());
    _ ← trigger (CallLinkCDKDependencies wsPath);
    mret None.

End WithLib.
End synccmd.

(* ===================================================================== *)
(** ** A small simulated environment                                      *)
(* ===================================================================== *)

(** One repository and a flat file table, enough to run the commands on
    concrete inputs.  Every answer that only the real tools can decide
    (conflicts, failing aborts, the remote's branches) is a field of the
    world. *)
Module Sim.
Import GoStrings Effects.

Fixpoint trimLeft (s : string) : string :=
  match s with
  | String a r => if Ascii.is_space a then trimLeft r else s
  | EmptyString => EmptyString
  end.

Definition trim (s : string) : string :=
  String.rev (trimLeft (String.rev (trimLeft s))).

(** ASCII white space for TrimSpace, and path elements joined by ['/']. *)
#[local] Instance lib : GoLib :=
  {| TrimSpace := trim; filepath_Join := λ elems, Join elems "/" |}.

Record world := {
  head : string;                        (* the checked-out branch *)
  porcelain : string;                   (* output of git status --short *)
  localBranches : list string;
  conflicting : list string;            (* branches whose rebase stops on a conflict *)
  abortFails : bool;                    (* git rebase --abort fails *)
  unmerged : bool;                      (* a stopped rebase is in progress *)
  files : list (string * FileInfo);
  rebaseWrites : list (string * FileInfo);   (* files a successful rebase rewrites *)
  originHEAD : option string;
  remoteBranches : list string;
  counts : Z * Z;
}.

Definition setHead (b : string) (w : world) : world :=
  {| head := b; porcelain := porcelain w; localBranches := localBranches w;
     conflicting := conflicting w; abortFails := abortFails w;
     unmerged := unmerged w; files := files w; rebaseWrites := rebaseWrites w;
     originHEAD := originHEAD w; remoteBranches := remoteBranches w;
     counts := counts w |}.

Definition setUnmerged (u : bool) (w : world) : world :=
  {| head := head w; porcelain := porcelain w; localBranches := localBranches w;
     conflicting := conflicting w; abortFails := abortFails w;
     unmerged := u; files := files w; rebaseWrites := rebaseWrites w;
     originHEAD := originHEAD w; remoteBranches := remoteBranches w;
     counts := counts w |}.

Definition addFiles (fs : list (string * FileInfo)) (w : world) : world :=
  {| head := head w; porcelain := porcelain w; localBranches := localBranches w;
     conflicting := conflicting w; abortFails := abortFails w;
     unmerged := unmerged w; files := fs ++ files w; rebaseWrites := rebaseWrites w;
     originHEAD := originHEAD w; remoteBranches := remoteBranches w;
     counts := counts w |}.

Fixpoint lookupFile (path : string) (fs : list (string * FileInfo)) : statResult :=
  match fs with
  | [] => StatNotExist
  | (p, info) :: rest => if decide (p = path) then StatOk info else lookupFile path rest
  end.

Definition symlink : FileInfo :=
  {| Size := 0; ModTimeUnixNano := 0; IsSymlink := true |}.

Definition regular (size mtime : Z) : FileInfo :=
  {| Size := size; ModTimeUnixNano := mtime; IsSymlink := false |}.

Definition handle : handler world := λ X e,
  match e in event X return world → X * world with
  | GitStatus _ => λ w, (Out (porcelain w), w)
  | GitStatusColor _ => λ w, (Out (porcelain w), w)
  | GitPull _ => λ w, (None, w)
  | GitFetch _ _ => λ w, (None, w)
  | GitRebase _ _ => λ w,
      if unmerged w then (Some "a rebase is already in progress", w)
      else if bool_decide (head w ∈ conflicting w)
      then (Some "could not apply", setUnmerged true w)
      else (None, addFiles (rebaseWrites w) w)
  | GitRebaseAbort _ => λ w,
      if abortFails w then (Some "could not abort", w)
      else (None, setUnmerged false w)
  | GitSymbolicRef _ => λ w,
      match originHEAD w with
      | Some b => (Out ("refs/remotes/origin/" +:+ b +:+ String "010" ""), w)
      | None => (OutErr "ref refs/remotes/origin/HEAD is not a symbolic ref", w)
      end
  | GitRevParseVerify _ ref => λ w,
      if bool_decide (ref ∈ map (String.append "origin/") (remoteBranches w))
      then (None, w) else (Some "needed a single revision", w)
  | CallGetCurrentBranch _ => λ w, (head w, w)
  | CallAheadBehind _ _ _ => λ w, (counts w, w)
  | CallListLocalBranches _ => λ w, (localBranches w, w)
  | CallCheckoutQuiet _ b => λ w,
      if unmerged w then (Some "you need to resolve your current index first", w)
      else if bool_decide (b ∈ localBranches w) then (None, setHead b w)
      else (Some "pathspec did not match", w)
  | OsStat path => λ w, (lookupFile path (files w), w)
  | OsLstat path => λ w, (lookupFile path (files w), w)
  | NpmLink _ => λ w, (None, w)
  | NpmLinkPackage dir pkg => λ w,
      (None, addFiles [(filepath_Join [dir; "node_modules"; pkg], symlink)] w)
  | CallBuildSyncEnv _ => λ w, ([], w)
  | RunSyncCmd _ _ _ => λ w, (None, w)
  | CallFindSparkPackages _ => λ w, ([], w)
  | CallLinkCDKDependencies _ => λ w, (tt, w)
  | Print _ => λ w, (tt, w)
  end.

(** A clean clone on [main] with a [feature] branch. *)
Definition clean : world :=
  {| head := "main"; porcelain := ""; localBranches := ["main"; "feature"];
     conflicting := []; abortFails := false; unmerged := false;
     files := [("/ws/AppAPI", regular 4096 1690000000);
               ("/ws/AppAPI/package.json", regular 800 1690000001);
               ("/ws/AppAPI/package-lock.json", regular 1200 1700000000);
               ("/ws/AppModel", regular 4096 1690000002)];
     rebaseWrites := [];
     originHEAD := Some "main"; remoteBranches := ["main"];
     counts := (0, 2) |}.

Definition withPorcelain (s : string) (w : world) : world :=
  {| head := head w; porcelain := s; localBranches := localBranches w;
     conflicting := conflicting w; abortFails := abortFails w;
     unmerged := unmerged w; files := files w; rebaseWrites := rebaseWrites w;
     originHEAD := originHEAD w; remoteBranches := remoteBranches w;
     counts := counts w |}.

Definition withConflicts (bs : list string) (abortFails : bool) (w : world) : world :=
  {| head := head w; porcelain := porcelain w; localBranches := localBranches w;
     conflicting := bs; abortFails := abortFails;
     unmerged := unmerged w; files := files w; rebaseWrites := rebaseWrites w;
     originHEAD := originHEAD w; remoteBranches := remoteBranches w;
     counts := counts w |}.

Definition withRebaseWrites (fs : list (string * FileInfo)) (w : world) : world :=
  {| head := head w; porcelain := porcelain w; localBranches := localBranches w;
     conflicting := conflicting w; abortFails := abortFails w;
     unmerged := unmerged w; files := files w; rebaseWrites := fs;
     originHEAD := originHEAD w; remoteBranches := remoteBranches w;
     counts := counts w |}.

(** A working tree with one modified file. *)
Definition dirtyTree : world := withPorcelain " M src/index.ts" clean.

(** [main] itself conflicts with its upstream. *)
Definition conflictOnMain : world := withConflicts ["main"] false clean.

(** [feature] conflicts, and the abort of its rebase fails as well. *)
Definition stuckOnFeature : world := withConflicts ["feature"] true clean.

(** [feature] conflicts; the abort works. *)
Definition conflictOnFeature : world := withConflicts ["feature"] false clean.

(** The rebase of [main] brings a new lockfile. *)
Definition lockfileBumped : world :=
  withRebaseWrites [("/ws/AppAPI/package-lock.json", regular 1300 1700000500)] clean.

(** The model has been built; the API does not link it yet. *)
Definition builtModel : world :=
  addFiles
    [ ("/ws/AppModel/smithy/build/smithyprojections/smithy/source/typescript-ssdk-codegen/package.json",
       regular 900 1700000001);
      ("/ws/AppModel/smithy/build/smithyprojections/smithy/source/typescript-ssdk-codegen/dist-types",
       regular 4096 1700000002) ]
    clean.

Import workspace synccmd.

Definition apiRepo : RepoDef :=
  {| Path := "AppAPI"; repo_DefaultBranch := ""; Dependencies := [] |}.
Definition modelRepo : RepoDef :=
  {| Path := "AppModel"; repo_DefaultBranch := ""; Dependencies := [] |}.

Definition ws : Workspace :=
  {| Repos := {[ "AppAPI" := apiRepo; "AppModel" := modelRepo ]};
     DefaultBranch := "" |}.

Definition rebaseFlags : flags :=
  {| syncBranch := ""; syncNoRebase := false; syncInstall := true;
     syncUpdate := false |}.

(** syncRepoFull for AppAPI in the simulated environment. *)
Definition syncAppAPI (w : world) : repoSyncResult * world * list entry :=
  run handle (syncRepoFull rebaseFlags "/ws" ws "AppAPI" apiRepo "/ws/AppAPI") w.

(** The sync of the one repo AppAPI, and of all repos under a schedule of
    the fetches, with [--install]. *)
Definition syncOne (w : world) : option error * world * list entry :=
  run handle (syncRepo rebaseFlags "/ws" ws "AppAPI") w.

Definition syncAll (sched : list nat) (w : world)
  : option error * world * list entry :=
  run handle (syncAllRepos rebaseFlags "/ws" ws sched) w.

(** autoLinkDeps for AppAPI in the simulated environment. *)
Definition linkAppAPI (w : world) : option error * world * list entry :=
  run handle (runcmd.autoLinkDeps "/ws" ws "AppAPI") w.

End Sim.

(* ===================================================================== *)
(** ** Notions used to state the properties of the commands               *)
(* ===================================================================== *)

Module SyncSpec.
Import workspace GoStrings Effects synccmd.

(** The first non-empty string of a precedence list. *)
Definition firstNonEmpty (candidates : list string) : option string :=
  List.find (λ s, negb (bool_decide (s = ""))) candidates.

(** Queries about the remote's refs: the only events of
    getTargetBranch. *)
Definition isRefQuery (en : entry) : bool :=
  match en with
  | Entry e x =>
      match e with
      | GitSymbolicRef _ | GitRevParseVerify _ _ => true
      | _ => false
      end
  end.

(** The remote-advertised default branch, as a relation between the
    answers of the remote and the branch chosen: origin/HEAD when it
    resolves, else origin/main, else origin/prod when they verify, else
    the fallback [main]. *)
Inductive remoteDefault `{GoLib} (dir : string) : list entry → string → Prop :=
| remote_head o :
    remoteDefault dir
      [Entry (GitSymbolicRef dir) (Out o)]
      (afterLast "/" (TrimSpace o))
| remote_main e :
    remoteDefault dir
      [Entry (GitSymbolicRef dir) (OutErr e);
       Entry (GitRevParseVerify dir "origin/main") None]
      "main"
| remote_prod e e1 :
    remoteDefault dir
      [Entry (GitSymbolicRef dir) (OutErr e);
       Entry (GitRevParseVerify dir "origin/main") (Some e1);
       Entry (GitRevParseVerify dir "origin/prod") None]
      "prod"
| remote_fallback e e1 e2 :
    remoteDefault dir
      [Entry (GitSymbolicRef dir) (OutErr e);
       Entry (GitRevParseVerify dir "origin/main") (Some e1);
       Entry (GitRevParseVerify dir "origin/prod") (Some e2)]
      "main".

(** The events of the loop over the other branches. *)
Definition isLoopEvent (en : entry) : bool :=
  match en with
  | Entry e x =>
      match e with
      | CallCheckoutQuiet _ _ | GitRebase _ _ | GitRebaseAbort _ => true
      | _ => false
      end
  end.

(** The two forms of [git status --short]. *)
Definition isStatusQuery (en : entry) : bool :=
  match en with
  | Entry e x =>
      match e with
      | GitStatus _ | GitStatusColor _ => true
      | _ => false
      end
  end.

(** [git status --short] reports changes: what makes git.IsDirty true. *)
Definition reportsChanges `{GoLib} (o : output) : bool :=
  match o with
  | Out s => negb (bool_decide (TrimSpace s = ""))
  | OutErr _ => false
  end.

(** The lockfile fingerprint that fileHash computes from a stat answer. *)
Definition fingerprint (st : statResult) : string :=
  match st with
  | StatOk info => pretty (Size info) +:+ "-" +:+ pretty (ModTimeUnixNano info)
  | _ => ""
  end.

(** The branch that the environment reports as checked out. *)
Definition currentBranch {W} (h : handler W) (dir : string) (w : W) : string :=
  (h _ (CallGetCurrentBranch dir) w).1.

(** What the sync engine may assume of git: a checkout that reports
    success leaves its branch checked out, and looking at files or
    counting commits does not move the working tree. *)
Record gitLaws {W} (h : handler W) (dir : string) : Prop := {
  checkout_moves : ∀ b w w',
    h _ (CallCheckoutQuiet dir b) w = (None, w') → currentBranch h dir w' = b;
  stat_keeps : ∀ p w,
    currentBranch h dir (h _ (OsStat p) w).2 = currentBranch h dir w;
  aheadBehind_keeps : ∀ b u w,
    currentBranch h dir (h _ (CallAheadBehind dir b u) w).2 = currentBranch h dir w;
}.

(** The directories and the package that autoLinkDeps works with for the
    repo [name]: the model's directory, the API's directory and the
    package of the mapping; [None] when [name] is not an API repo or its
    model is not in the workspace. *)
Definition linkTarget `{GoLib} (wsPath : string) (ws : Workspace) (name : string)
  : option (string * string * string) :=
  modelName ← Resolver.apiToModel !! name;
  modelRepo ← Repos ws !! modelName;
  Some (filepath_Join [wsPath; Path modelRepo],
        filepath_Join [wsPath; Path (default zeroRepoDef (Repos ws !! name))],
        Resolver.pkg (default runcmd.zeroDepMapping (Resolver.modelToAPI !! modelName))).

(** The two build artifacts that npm.IsBuilt looks for. *)
Definition artifacts `{GoLib} (modelDir : string) : list string :=
  let buildDir := filepath_Join [modelDir; npm.SmithyBuildPath] in
  [filepath_Join [buildDir; "package.json"]; filepath_Join [buildDir; "dist-types"]].

(** What link reconciliation may assume of npm and the file system:
    looking at files and printing change nothing; registering a package
    and linking [pkg] into [apiDir] leave the build artifacts of the
    model as [os.Stat] sees them (no artifact changes); a link that
    reports success leaves a symlink in node_modules. *)
Record npmLaws `{GoLib} {W} (h : handler W) (modelDir apiDir pkg : string) : Prop := {
  stat_pure : ∀ p w, (h _ (OsStat p) w).2 = w;
  lstat_pure : ∀ p w, (h _ (OsLstat p) w).2 = w;
  print_pure : ∀ s w, (h _ (Print s) w).2 = w;
  link_keeps_artifacts : ∀ d p w,
    p ∈ artifacts modelDir →
    (h _ (OsStat p) (h _ (NpmLink d) w).2).1 = (h _ (OsStat p) w).1;
  linkPackage_keeps_artifacts : ∀ p w,
    p ∈ artifacts modelDir →
    (h _ (OsStat p) (h _ (NpmLinkPackage apiDir pkg) w).2).1 = (h _ (OsStat p) w).1;
  linkPackage_links : ∀ w w',
    h _ (NpmLinkPackage apiDir pkg) w = (None, w') →
    ∃ info, (h _ (OsLstat (filepath_Join [apiDir; "node_modules"; pkg])) w').1
            = StatOk info
            ∧ IsSymlink info = true;
}.

End SyncSpec.

(* ===================================================================== *)
(** ** The dependency graph of a workspace                                *)
(* ===================================================================== *)

Module ResolverGraph.
Import workspace Resolver.

(** The edges that [collect] follows from [n]: the implicit edge from an
    API repo to its model, and the declared dependencies of [n]; in both
    cases only when the other end is a repo of the workspace. *)
Definition edge (ws : Workspace) (n m : string) : Prop :=
  (apiToModel !! n = Some m ∧ is_Some (Repos ws !! m))
  ∨ (∃ repo, Repos ws !! n = Some repo ∧ m ∈ Dependencies repo
             ∧ is_Some (Repos ws !! m)).

(** [m] can be reached from [n] along such edges. *)
Definition reachable (ws : Workspace) : string → string → Prop := rtc (edge ws).

(** What is known of the visited names while some of them, the set
    [open], are still being worked on: every other visited name has all
    its successors visited, and is already in [deps]. *)
Definition closed (ws : Workspace) (open : gset string) (st : walk) : Prop :=
  ∀ m, m ∈ seen st → m ∉ open → ∀ s, edge ws m s → s ∈ seen st.

Definition listed (open : gset string) (st : walk) : Prop :=
  ∀ m, m ∈ seen st → m ∉ open → m ∈ deps st.

(** Everything visited or collected can be reached from the target. *)
Definition sound (ws : Workspace) (root : string) (st : walk) : Prop :=
  (∀ m, m ∈ seen st → reachable ws root m)
  ∧ (∀ d, d ∈ deps st → reachable ws root d).

(** What one call of [collect] for [n] achieves while the names of [open]
    are being worked on further up the recursion. *)
Definition visits (ws : Workspace) (open : gset string) (n : string)
    (st r : walk) : Prop :=
  seen st ⊆ seen r
  ∧ (∀ d, d ∈ deps st → d ∈ deps r)
  ∧ n ∈ seen r
  ∧ closed ws open r
  ∧ listed (open ∪ {[n]}) r.

(** [d] lies on a cycle of the graph. *)
Definition onCycle (ws : Workspace) (d : string) : Prop := tc (edge ws) d d.

(** Build order: wherever a repo that lies on no cycle first occurs in
    [deps], all its successors occur before it. *)
Definition ordered (ws : Workspace) (l : list string) : Prop :=
  ∀ l1 d l2, l = l1 ++ d :: l2 → d ∉ l1 → ¬ onCycle ws d →
             ∀ s, edge ws d s → s ∈ l1.

End ResolverGraph.

(* ===================================================================== *)
(** ** More notions for the sync command                                  *)
(* ===================================================================== *)

Module SyncMore.
Import workspace GoStrings Effects synccmd SyncSpec.

(** [git fetch] was run. *)
Definition isFetch (en : entry) : bool :=
  match en with
  | Entry e x => match e with GitFetch _ _ => true | _ => false end
  end.

(** An event of phase 1 of syncAllRepos: a look at a directory or a
    fetch. *)
Definition isFetchPhase (en : entry) : bool :=
  match en with
  | Entry e x => match e with GitFetch _ _ | OsStat _ => true | _ => false end
  end.

(** A git command was run or a function of package git was called. *)
Definition isGit (en : entry) : bool :=
  match en with
  | Entry e x =>
      match e with
      | GitStatus _ | GitStatusColor _ | GitPull _ | GitFetch _ _ | GitRebase _ _
      | GitRebaseAbort _ | GitSymbolicRef _ | GitRevParseVerify _ _
      | CallGetCurrentBranch _ | CallAheadBehind _ _ _ | CallListLocalBranches _
      | CallCheckoutQuiet _ _ => true
      | _ => false
      end
  end.

(** The aborted rebases. *)
Definition isAbort (en : entry) : bool :=
  match en with
  | Entry e x => match e with GitRebaseAbort _ => true | _ => false end
  end.

(** A checkout that was refused. *)
Definition failedCheckout (en : entry) : bool :=
  match checkoutOf en with
  | Some (_, _, Some _) => true
  | _ => false
  end.

(** The answers of git.ListLocalBranches. *)
Definition branchesOf (en : entry) : option (list string) :=
  match en with
  | Entry e x =>
      match e in event X return X → _ with
      | CallListLocalBranches _ => λ r, Some r
      | _ => λ _, None
      end x
  end.

(** The fetches started, with their directory and remote. *)
Definition fetchOf (en : entry) : option (string * string) :=
  match en with
  | Entry e x =>
      match e with
      | GitFetch dir remote => Some (dir, remote)
      | _ => None
      end
  end.

(** The directories looked at. *)
Definition lookedAt (en : entry) : option string :=
  match en with
  | Entry e x => match e with OsStat path => Some path | _ => None end
  end.

(** The directories looked at and not found missing: those for which the
    fetch phase starts a fetch. *)
Definition foundDir (en : entry) : option string :=
  match en with
  | Entry e x =>
      match e in event X return X → _ with
      | OsStat path => λ st, if IsNotExist st then None else Some path
      | _ => λ _, None
      end x
  end.

(** The events that a run of syncRepoFull can consist of: git commands
    other than fetch, and looks at the lockfile. *)
Definition isRepoSyncEvent (en : entry) : bool :=
  match en with
  | Entry e x =>
      match e with
      | GitStatus _ | GitStatusColor _ | GitPull _ | GitRebase _ _
      | GitRebaseAbort _ | GitSymbolicRef _ | GitRevParseVerify _ _
      | CallGetCurrentBranch _ | CallAheadBehind _ _ _ | CallListLocalBranches _
      | CallCheckoutQuiet _ _ | OsStat _ => true
      | _ => false
      end
  end.

(** The branch that a run of syncRepoFull takes as its target: what
    getTargetBranch answers once the current branch has been asked
    for. *)
Definition targetBranch `{GoLib} {W} (h : handler W) (fl : flags) (ws : Workspace)
    (repo : RepoDef) (dir : string) (w : W) : string :=
  result_of (run h (getTargetBranch fl ws (Some repo) dir)
               (h _ (CallGetCurrentBranch dir) w).2).

(** The branches that the loop over the other branches works on. *)
Definition otherBranches (currentBranch targetBranch : string)
    (branches : list string) : list string :=
  List.filter
    (λ b, negb (bool_decide (b = currentBranch) || bool_decide (b = targetBranch)))
    branches.

(** The sorted names of the repos, as syncAllRepos computes them. *)
Definition allNames (ws : Workspace) : list string :=
  merge_sort String.le (map fst (map_to_list (Repos ws))).

(** The directory of a repo of the workspace, as the loops of
    syncAllRepos compute it from the name. *)
Definition repoDirOf `{GoLib} (wsPath : string) (ws : Workspace) (name : string)
  : string :=
  filepath_Join [wsPath; Path (default zeroRepoDef (Repos ws !! name))].

(** The directory in which the install phase works for a result. *)
Definition installDir `{GoLib} (wsPath : string) (ws : Workspace)
    (r : repoSyncResult) : string :=
  filepath_Join [wsPath; Path (default zeroRepoDef (Repos ws !! name r))].

End SyncMore.

(* ===================================================================== *)
(** ** More simulated environments                                        *)
(* ===================================================================== *)

Module SimMore.
Import workspace GoStrings Effects synccmd.

(** [--no-rebase --install]. *)
Definition pullFlags : flags :=
  {| syncBranch := ""; syncNoRebase := true; syncInstall := true;
     syncUpdate := false |}.

(** No flag at all. *)
Definition plainFlags : flags :=
  {| syncBranch := ""; syncNoRebase := false; syncInstall := false;
     syncUpdate := false |}.

(** An environment in which [git status] cannot be run, and which is
    the simulated one otherwise. *)
Definition brokenStatus : handler Sim.world := λ X e,
  match e in event X return Sim.world → X * Sim.world with
  | GitStatus _ => λ w, (OutErr "exit status 128", w)
  | e' => Sim.handle _ e'
  end.

(** A clone with four local branches, on [topic]; the rebase of
    [feature] stops on a conflict. *)
Definition onTopic : Sim.world :=
  {| Sim.head := "topic"; Sim.porcelain := "";
     Sim.localBranches := ["main"; "feature"; "topic"; "wip"];
     Sim.conflicting := ["feature"]; Sim.abortFails := false; Sim.unmerged := false;
     Sim.files := Sim.files Sim.clean; Sim.rebaseWrites := [];
     Sim.originHEAD := Some "main"; Sim.remoteBranches := ["main"];
     Sim.counts := (1, 0) |}.

(** A clone whose remote has [release/1.0] as its default branch. *)
Definition onRelease : Sim.world :=
  {| Sim.head := "release/1.0"; Sim.porcelain := "";
     Sim.localBranches := ["release/1.0"; "feature"];
     Sim.conflicting := []; Sim.abortFails := false; Sim.unmerged := false;
     Sim.files := Sim.files Sim.clean; Sim.rebaseWrites := [];
     Sim.originHEAD := Some "release/1.0"; Sim.remoteBranches := ["release/1.0"];
     Sim.counts := (0, 0) |}.

End SimMore.

(* ===================================================================== *)
(** ** package cmd: more of the run command                               *)
(* ===================================================================== *)

Module runmore.
Import workspace Resolver GoStrings Effects runcmd.

Section WithLib.
Context `{GoLib}.

Definition fileExistsRun (path : string) : Prog bool :=
  st ← trigger (OsStat path);
  match st with
  | StatOk _ => mret true
  | _ => mret false
  end.

(** The command for a repo without package.json.  Go's [||] looks for
    [build.gradle.kts] only when [build.gradle] is not there. *)
Definition getFallbackCommand (repoDir script : string) : Prog string :=
  if decide (script = "build") then
    gradle ← fileExistsRun (filepath_Join [repoDir; "build.gradle"]);
    gradle ← (if (gradle : bool) then mret true
              else fileExistsRun (filepath_Join [repoDir; "build.gradle.kts"]));
    if (gradle : bool) then mret "./gradlew build"
    else
      make ← fileExistsRun (filepath_Join [repoDir; "Makefile"]);
      if (make : bool) then mret "make"
      else
        gomod ← fileExistsRun (filepath_Join [repoDir; "go.mod"]);
        if (gomod : bool) then mret "go build ./..." else mret ""
  else if decide (script = "test") then
    gradle ← fileExistsRun (filepath_Join [repoDir; "build.gradle"]);
    gradle ← (if (gradle : bool) then mret true
              else fileExistsRun (filepath_Join [repoDir; "build.gradle.kts"]));
    if (gradle : bool) then mret "./gradlew test"
    else
      gomod ← fileExistsRun (filepath_Join [repoDir; "go.mod"]);
      if (gomod : bool) then mret "go test ./..." else mret ""
  else mret "".

(** After a build of a model repo: link it into its API, when that is
    cloned, the model is built and the link is not there yet. *)
Definition autoLinkConsumers (wsPath : string) (ws : Workspace) (name : string)
  : Prog (option error) :=
  match modelToAPI !! name with
  | None => mret None
  | Some mapping =>
      match Repos ws !! api mapping with
      | None => mret None
      | Some apiRepo =>
          let apiDir := filepath_Join [wsPath; Path apiRepo] in
          st ← trigger (OsStat apiDir);
          if synccmd.IsNotExist st then mret None
          else
            let modelDir :=
              filepath_Join [wsPath; Path (default zeroRepoDef (Repos ws !! name))] in
            let buildDir := npm.BuildOutputDir modelDir in
            built ← npm.IsBuilt modelDir;
            if negb built then mret None
            else
              linked ← npm.IsLinked apiDir (pkg mapping);
              if (linked : bool) then mret None
              else
                _ ← trigger (Print ("Auto-linking to consumer " +:+ api mapping
                                     +:+ "..." +:+ nl));
                err ← npm.Link buildDir;
                match err with
                | Some err => mret (Some ("npm link failed: " +:+ err))
                | None =>
                    err ← npm.LinkPackage apiDir (pkg mapping);
                    match err with
                    | Some err =>
                        mret (Some ("npm link " +:+ pkg mapping +:+ " in "
                                    +:+ api mapping +:+ " failed: " +:+ err))
                    | None =>
                        _ ← trigger (Print ("Linked: " +:+ api mapping
                                             +:+ " now uses local " +:+ name +:+ nl));
                        mret None
                    end
                end
      end
  end.

End WithLib.
End runmore.

(** Notions used to state the properties of the run command. *)
Module RunSpec.
Import workspace Resolver GoStrings Effects.

(** The marker files that getFallbackCommand looks for, in the order in
    which it looks, each with the command it stands for. *)
Definition markers `{GoLib} (repoDir script : string) : list (string * string) :=
  if decide (script = "build") then
    [ (filepath_Join [repoDir; "build.gradle"], "./gradlew build");
      (filepath_Join [repoDir; "build.gradle.kts"], "./gradlew build");
      (filepath_Join [repoDir; "Makefile"], "make");
      (filepath_Join [repoDir; "go.mod"], "go build ./...") ]
  else if decide (script = "test") then
    [ (filepath_Join [repoDir; "build.gradle"], "./gradlew test");
      (filepath_Join [repoDir; "build.gradle.kts"], "./gradlew test");
      (filepath_Join [repoDir; "go.mod"], "go test ./...") ]
  else [].

(** The [os.Stat] calls of a trace, each with whether the file was
    found; [None] if the trace holds anything else. *)
Definition statSeen (en : entry) : option (string * bool) :=
  match en with
  | Entry e x =>
      match e in event X return X → _ with
      | OsStat p => λ r, Some (p, if r is StatOk _ then true else false)
      | _ => λ _, None
      end x
  end.

(** The first marker that is found, looking from left to right, with the
    looks that it takes; [found] answers each look. *)
Fixpoint firstMarker (ms : list (string * string)) (found : list bool)
  : string * list (string * bool) :=
  match ms, found with
  | (p, c) :: ms, b :: found =>
      if b then (c, [(p, true)])
      else let '(r, looks) := firstMarker ms found in (r, (p, false) :: looks)
  | _, _ => ("", [])
  end.

(** The state in which the model in [modelDir] is built and linked into
    the API in [apiDir] as [pkgName]: what IsBuilt and IsLinked look
    for. *)
Definition linkedIn `{GoLib} {W} (h : handler W) (modelDir apiDir pkgName : string)
    (w : W) : Prop :=
  (∃ i, (h _ (OsStat (filepath_Join [filepath_Join [modelDir; npm.SmithyBuildPath];
                                     "package.json"])) w).1 = StatOk i)
  ∧ (∃ i, (h _ (OsStat (filepath_Join [filepath_Join [modelDir; npm.SmithyBuildPath];
                                       "dist-types"])) w).1 = StatOk i)
  ∧ (∃ info, (h _ (OsLstat (filepath_Join [apiDir; "node_modules"; pkgName])) w).1
             = StatOk info ∧ IsSymlink info = true).

End RunSpec.

(* ===================================================================== *)
(** ** package cmd: the cdk command                                       *)
(* ===================================================================== *)

Module cdkcmd.
Import GoStrings.

(** [strings.TrimPrefix]. *)
Definition TrimPrefix (s prefix : string) : string :=
  if HasPrefix s prefix
  then String.substring (String.length prefix)
         (String.length s - String.length prefix) s
  else s.

(** profileMap maps short profile names to AWS CLI profile names. *)
Definition profileMap : gmap string string :=
  {[ "pipeline" := "openclaw-pipeline";
     "beta" := "openclaw-beta";
     "prod" := "openclaw-prod" ]}.

(** The loop of cdkCmd that takes [--profile] / [-p] out of the
    arguments before they are forwarded to cdk.  The index [i] of the
    source is the position in [args]; [i++] in the first case skips the
    value. *)
Fixpoint parseProfile (args : list string) (profileShort : string)
    (cdkArgs : list string) : string * list string :=
  match args with
  | [] => (profileShort, cdkArgs)
  | arg :: rest =>
      if bool_decide (arg = "--profile") || bool_decide (arg = "-p") then
        match rest with
        | value :: rest => parseProfile rest value cdkArgs
        | [] => (profileShort, cdkArgs)
        end
      else if HasPrefix arg "--profile=" then
        parseProfile rest (TrimPrefix arg "--profile=") cdkArgs
      else if HasPrefix arg "-p=" then
        parseProfile rest (TrimPrefix arg "-p=") cdkArgs
      else parseProfile rest profileShort (cdkArgs ++ [arg])
  end.

(** The value of AWS_PROFILE that cdkCmd resolves, [""] for none;
    [None] stands for the error [unknown profile]. *)
Definition resolveProfile (profileShort AWSProfile : string) : option string :=
  if decide (profileShort ≠ "") then profileMap !! profileShort
  else if decide (AWSProfile ≠ "") then Some AWSProfile
  else Some "".

End cdkcmd.

(** Notions used to state the properties of the cdk command. *)
Module CdkSpec.
Import GoStrings.

(** An argument in one of the four forms of the profile flag. *)
Definition isProfileFlag (arg : string) : bool :=
  bool_decide (arg = "--profile") || bool_decide (arg = "-p")
  || HasPrefix arg "--profile=" || HasPrefix arg "-p=".

End CdkSpec.

(* ===================================================================== *)
(** ** package cmd: the workspace environment                             *)
(* ===================================================================== *)

Module envcmd.

Definition ssmToEnvKey : gmap string string :=
  list_to_map
    [ ("customerUserPoolId", "USERPOOL_ID");
      ("customerWebClientId", "WEB_CLIENT_ID");
      ("identityPoolIdCustomer", "IDENTITY_POOL_ID");
      ("businessUserPoolId", "BUSINESS_USERPOOL_ID");
      ("businessWebClientId", "BUSINESS_WEB_CLIENT_ID");
      ("identityPoolIdBusiness", "BUSINESS_IDENTITY_POOL_ID");
      ("squareClientId", "SQUARE_CLIENT_ID");
      ("cloverAppId", "CLOVER_APP_ID");
      ("appConfig", "APP_CONFIG_VALUES");
      ("googleApiKey_Android", "GOOGLE_API_KEY_ANDROID");
      ("googleMapsKey", "GOOGLE_MAPS_KEY");
      ("githubToken", "GITHUB_TOKEN");
      ("stripePublicKey", "STRIPE_PUBLIC_KEY") ].

(** The key under which the first loop of mapSSMToEnv stores a
    parameter. *)
Definition envKey (ssmKey : string) : string :=
  default ssmKey (ssmToEnvKey !! ssmKey).

(** [for k, v := range m { envVars[f(k)] = v }].  Go ranges over a map
    in an order that it leaves open; the entries are given here in the
    order in which the loop meets them. *)
Definition storeAll (f : string → string) (entries : list (string * string))
    (envVars : gmap string string) : gmap string string :=
  foldl (λ envVars kv, <[f kv.1 := kv.2]> envVars) envVars entries.

(** [if v, ok := envVars[src]; ok && v != "" { envVars[dst] = v }]. *)
Definition copyIfSet (src dst : string) (envVars : gmap string string)
  : gmap string string :=
  match envVars !! src with
  | Some v => if decide (v ≠ "") then <[dst := v]> envVars else envVars
  | None => envVars
  end.

(** The same under [if envVars[dst] == ""]. *)
Definition copyIfMissing (src dst : string) (envVars : gmap string string)
  : gmap string string :=
  if decide (default "" (envVars !! dst) = "") then copyIfSet src dst envVars
  else envVars.

(** mapSSMToEnv; [ssmVars] and [wsEnv] are the entries of the map of
    SSM parameters and of the [Env] map of the workspace, each in the
    order of its range loop. *)
Definition mapSSMToEnv (ssmVars : list (string * string)) (region env : string)
    (wsEnv : list (string * string)) : gmap string string :=
  let envVars := storeAll envKey ssmVars ∅ in
  (* Business Website NEXT_PUBLIC_* mappings *)
  let envVars := copyIfSet "BUSINESS_USERPOOL_ID" "NEXT_PUBLIC_USERPOOL_ID" envVars in
  let envVars := copyIfSet "BUSINESS_WEB_CLIENT_ID" "NEXT_PUBLIC_WEB_CLIENT_ID" envVars in
  let envVars :=
    copyIfSet "BUSINESS_IDENTITY_POOL_ID" "NEXT_PUBLIC_IDENTITY_POOL_ID" envVars in
  let envVars := copyIfMissing "USERPOOL_ID" "NEXT_PUBLIC_USERPOOL_ID" envVars in
  let envVars := copyIfMissing "WEB_CLIENT_ID" "NEXT_PUBLIC_WEB_CLIENT_ID" envVars in
  let envVars :=
    copyIfMissing "IDENTITY_POOL_ID" "NEXT_PUBLIC_IDENTITY_POOL_ID" envVars in
  let envVars := copyIfSet "SQUARE_CLIENT_ID" "NEXT_PUBLIC_SQUARE_CLIENT" envVars in
  let envVars := copyIfSet "CLOVER_APP_ID" "NEXT_PUBLIC_CLOVER_APP_ID" envVars in
  let envVars := copyIfSet "GOOGLE_MAPS_KEY" "NEXT_PUBLIC_GOOGLE_MAPS_API_KEY" envVars in
  let envVars := copyIfSet "STRIPE_PUBLIC_KEY" "NEXT_PUBLIC_STRIPE_KEY" envVars in
  let envVars := <["AWS_REGION" := region]> envVars in
  let envVars := <["NEXT_PUBLIC_AWS_REGION" := region]> envVars in
  let envVars := <["APP_ENV" := env]> envVars in
  let envVars :=
    if decide (env ≠ "") then <["NEXT_PUBLIC_APP_ENV" := env]> envVars else envVars in
  storeAll id wsEnv envVars.

End envcmd.

(* ===================================================================== *)
(** ** package github: parameters from AWS SSM                            *)
(* ===================================================================== *)

Module github.
Import GoStrings Effects.

Record ssmParameter := { Name : string; Value : string }.

(** maxSSMParamsPerRequest is the AWS GetParameters limit (10 names per
    call). *)
Definition maxSSMParamsPerRequest : nat := 10.

Section WithAws.
Context `{GoLib} {W : Type}.

(** [exec.Command("aws", args...).Output()], answered by the
    environment, and [json.Unmarshal] into an ssmResponse, which gives
    the parameters or an error. *)
Variable awsOutput : list string → W → output * W.
Variable unmarshal : string → list ssmParameter + error.

(** The arguments of one [aws ssm get-parameters] call. *)
Definition ssmArgs (profile region : string) (paramNames : list string)
  : list string :=
  let args := ["ssm"; "get-parameters"; "--names"] in
  let args := args ++ paramNames in
  let args := args ++ ["--with-decryption"; "--region"; region] in
  if decide (profile ≠ "") then args ++ ["--profile"; profile] else args.

(** The loop over the parameters of a response. *)
Definition storeParams (prefix : string) (params : list ssmParameter)
    (result : gmap string string) : gmap string string :=
  foldl (λ result param,
           <[cdkcmd.TrimPrefix (Name param) prefix := TrimSpace (Value param)]> result)
    result params.

(** The batching loop of FetchMultipleFromSSM, from index [i] on; it
    threads the world and lists the calls made, each with its
    arguments and its answer.  The loop is bounded by [fuel]; [None]
    means that the bound was hit. *)
Fixpoint fetchBatches (fuel : nat) (profile env region : string)
    (paramSuffixes : list string) (i : nat) (result : gmap string string)
    (w : W) (calls : list (list string * output))
  : option ((error + gmap string string) * W * list (list string * output)) :=
  match fuel with
  | O => None
  | S fuel =>
      if decide (i < length paramSuffixes)%nat then
        let end_ := (i + maxSSMParamsPerRequest)%nat in
        let end_ :=
          if decide (length paramSuffixes < end_)%nat then length paramSuffixes
          else end_ in
        let batch := take (end_ - i) (drop i paramSuffixes) in
        let paramNames :=
          map (λ suffix, "/app/" +:+ env +:+ "/" +:+ suffix) batch in
        let args := ssmArgs profile region paramNames in
        let '(out, w) := awsOutput args w in
        let calls := calls ++ [(args, out)] in
        match out with
        | OutErr err => Some (inl ("failed to fetch parameters: " +:+ err), w, calls)
        | Out out =>
            match unmarshal out with
            | inr err =>
                Some (inl ("failed to parse SSM response: " +:+ err), w, calls)
            | inl params =>
                fetchBatches fuel profile env region paramSuffixes
                  (i + maxSSMParamsPerRequest)%nat
                  (storeParams ("/app/" +:+ env +:+ "/") params result) w calls
            end
        end
      else Some (inr result, w, calls)
  end.

Definition FetchMultipleFromSSM_fuel (fuel : nat) (profile env region : string)
    (paramSuffixes : list string) (w : W)
  : option ((error + gmap string string) * W * list (list string * output)) :=
  let region := if decide (region = "") then "us-east-1" else region in
  fetchBatches fuel profile env region paramSuffixes 0 ∅ w [].

(** FetchMultipleFromSSM retrieves multiple parameters from AWS SSM,
    batching requests.  Every turn of the loop moves the index on, so
    one turn more than there are suffixes is never reached. *)
Definition FetchMultipleFromSSM (profile env region : string)
    (paramSuffixes : list string) (w : W)
  : (error + gmap string string) * W * list (list string * output) :=
  default (inr ∅, w, [])
    (FetchMultipleFromSSM_fuel (S (length paramSuffixes)) profile env region
       paramSuffixes w).

End WithAws.
End github.

(** Notions used to state the properties of the SSM client. *)
Module GithubSpec.

(** A slice cut into batches: all of them full but possibly the last,
    none empty. *)
Definition batched {A} (n : nat) (batches : list (list A)) : Prop :=
  Forall (λ b, (0 < length b ≤ n)%nat) batches
  ∧ ∀ pre b post, batches = pre ++ b :: post → post ≠ [] → length b = n.

(** The parameters that a call gave: those of its answer when the call
    succeeded and the answer parsed. *)
Definition paramsOf (unmarshal : string → list github.ssmParameter + Effects.error)
    (call : list string * Effects.output) : option (list github.ssmParameter) :=
  match call.2 with
  | Effects.Out out =>
      match unmarshal out with
      | inl params => Some params
      | inr _ => None
      end
  | Effects.OutErr _ => None
  end.

End GithubSpec.

(* ===================================================================== *)
(** ** package cmd: running a script                                      *)
(* ===================================================================== *)

(** The run command reads package.json and starts the script through
    [sh -c], on top of what the link steps do. *)
Module RunEffects.
Import Effects.

Inductive revent : Type → Type :=
| Base {X : Type} (e : event X) : revent X
| OsReadFile (path : string) : revent output
| RunShellCmd (dir command : string) : revent (option error).

Inductive RProg (A : Type) : Type :=
| RRet (a : A)
| RVis {X : Type} (e : revent X) (k : X → RProg A).
Arguments RRet {A} a.
Arguments RVis {A X} e k.

Fixpoint rbind {A B : Type} (p : RProg A) (f : A → RProg B) : RProg B :=
  match p with
  | RRet a => f a
  | RVis e k => RVis e (λ x, rbind (k x) f)
  end.

Definition rtrigger {X : Type} (e : revent X) : RProg X := RVis e RRet.

(** A program of the lower layer, run as part of a script run. *)
Fixpoint lift {A : Type} (p : Prog A) : RProg A :=
  match p with
  | Ret a => RRet a
  | Vis e k => RVis (Base e) (λ x, lift (k x))
  end.

#[global] Instance RProg_ret : MRet RProg := @RRet.
#[global] Instance RProg_bind : MBind RProg := λ A B f p, rbind p f.

Inductive rentry : Type :=
| REntry {X : Type} (e : revent X) (x : X).

Definition rhandler (W : Type) : Type := ∀ X, revent X → W → X * W.

Fixpoint rrun {W A : Type} (h : rhandler W) (p : RProg A) (w : W)
  : A * W * list rentry :=
  match p with
  | RRet a => (a, w, [])
  | RVis e k =>
      let '(x, w1) := h _ e w in
      let '(a, w2, t) := rrun h (k x) w1 in
      (a, w2, REntry e x :: t)
  end.

(** An answered event of the lower layer, as it appears in the trace of
    a script run, and the environment that the lower layer sees. *)
Definition liftEntry (en : entry) : rentry :=
  match en with Entry e x => REntry (Base e) x end.

Definition lower {W : Type} (h : rhandler W) : handler W := λ X e, h X (Base e).

(** The commands started through [sh -c], with their directory and
    outcome. *)
Definition shellRun (en : rentry) : option (string * string * option error) :=
  match en with
  | REntry e x =>
      match e in revent X return X → _ with
      | RunShellCmd dir command => λ r, Some (dir, command, r)
      | _ => λ _, None
      end x
  end.

(** A program that runs no command through [sh -c], in whatever world it
    runs. *)
Definition quiet {W A : Type} (h : rhandler W) (p : RProg A) : Prop :=
  ∀ w, omap shellRun (rrun h p w).2 = [].


End RunEffects.

Module runscript.
Import workspace Resolver GoStrings Effects RunEffects runcmd runmore.

(** The package-level flag variables of the run command. *)
Record flags := {
  runRecursive : bool;
  runPublished : bool;
  runWatch : bool;
}.

(** [fmt.Sprintf("npm run %s", actualScript)], and [npm test] for the
    test script. *)
Definition npmCommand (actualScript : string) : string :=
  if decide (actualScript = "test") then "npm test"
  else "npm run " +:+ actualScript.

Section WithLib.
Context `{GoLib}.

(** [json.Unmarshal] of package.json into its [scripts] object: the
    scripts, empty when the file has none, or [None] for a file that
    does not parse. *)
Variable unmarshalScripts : string → option (gmap string string).

Definition getScriptCommand (fl : flags) (name : string) (repo : RepoDef)
    (repoDir script : string) : RProg string :=
  let pkgPath := filepath_Join [repoDir; "package.json"] in
  found ← lift (fileExistsRun pkgPath);
  if negb found then lift (getFallbackCommand repoDir script)
  else
    data ← rtrigger (OsReadFile pkgPath);
    match data with
    | OutErr _ => mret ""
    | Out data =>
        match unmarshalScripts data with
        | None => mret ""
        | Some scripts =>
            if bool_decide (script = "test") && runWatch fl
               && bool_decide (is_Some (scripts !! "test:watch"))
            then mret "npm run test:watch"
            else
              let actualScript :=
                if bool_decide (script = "build")
                   && bool_decide (is_Some (scripts !! "build:all"))
                   && (bool_decide (name = "AppModel")
                       || bool_decide (name = "BusinessModel"))
                then "build:all" else script in
              if bool_decide (is_Some (scripts !! actualScript))
              then mret (npmCommand actualScript)
              else mret ""
        end
    end.

Definition runScript (fl : flags) (wsPath : string) (ws : Workspace)
    (repoName script : string) : RProg (option error) :=
  match Repos ws !! repoName with
  | None => mret (Some ("repo '" +:+ repoName +:+ "' not found in workspace"))
  | Some repo =>
      let repoDir := filepath_Join [wsPath; Path repo] in
      st ← lift (trigger (OsStat repoDir));
      if synccmd.IsNotExist st then
        mret (Some ("repo directory " +:+ repoDir +:+ " does not exist"))
      else
        _ ← (if bool_decide (script = "build") && negb (runPublished fl) then
               err ← lift (autoLinkDeps wsPath ws repoName);
               match err with
               | Some err =>
                   lift (trigger (Print ("Warning: dependency linking issue: "
                                         +:+ err +:+ nl)))
               | None => mret ()
               end
             else mret ());
        command ← getScriptCommand fl repoName repo repoDir script;
        if decide (command = "") then
          mret (Some ("script '" +:+ script +:+ "' not found in " +:+ repoName))
        else
          _ ← lift (trigger (Print ("=== " +:+ repoName +:+ ": " +:+ command
                                    +:+ " ===" +:+ nl)));
          err ← rtrigger (RunShellCmd repoDir command);
          match err with
          | Some err => mret (Some (script +:+ " failed: " +:+ err))
          | None =>
              _ ← (if bool_decide (script = "build") && negb (runPublished fl) then
                     err ← lift (autoLinkConsumers wsPath ws repoName);
                     match err with
                     | Some err =>
                         lift (trigger (Print ("Note: " +:+ err +:+ nl)))
                     | None => mret ()
                     end
                   else mret ());
              mret None
          end
  end.

(** The loop of buildRecursivelyRun over the dependencies. *)
Fixpoint buildDeps (fl : flags) (wsPath : string) (ws : Workspace)
    (deps : list string) : RProg (option error) :=
  match deps with
  | [] => mret None
  | dep :: rest =>
      match Repos ws !! dep with
      | None => buildDeps fl wsPath ws rest
      | Some repo =>
          let repoDir := filepath_Join [wsPath; Path repo] in
          st ← lift (trigger (OsStat repoDir));
          if synccmd.IsNotExist st then
            _ ← lift (trigger (Print ("[skip] " +:+ dep +:+ " (not cloned)"
                                      +:+ nl +:+ nl)));
            buildDeps fl wsPath ws rest
          else
            err ← runScript fl wsPath ws dep "build";
            match err with
            | Some err =>
                mret (Some ("dependency build failed at '" +:+ dep +:+ "': "
                            +:+ err))
            | None =>
                _ ← lift (trigger (Print nl));
                buildDeps fl wsPath ws rest
            end
      end
  end.

Definition buildRecursivelyRun (fl : flags) (wsPath : string) (ws : Workspace)
    (target : string) : RProg (option error) :=
  let deps := getDepsForRun ws target in
  err ← (if (0 <? length deps)%nat then
           _ ← lift (trigger (Print ("Building dependencies first: ["
                                     +:+ Join deps " " +:+ "]" +:+ nl +:+ nl)));
           buildDeps fl wsPath ws deps
         else mret None);
  match err with
  | Some err => mret (Some err)
  | None => runScript fl wsPath ws target "build"
  end.

End WithLib.
End runscript.

(** Notions used to state the properties of a script run. *)
Module RunScriptSpec.
Import workspace Resolver GoStrings Effects RunEffects.








End RunScriptSpec.

(** A simulated environment for script runs: the simulated file system,
    a package.json that holds a [build] and a [test] script wherever there
    is one, and commands that succeed unless the world lists them as
    failing. *)
Module SimRun.
Import workspace GoStrings Effects RunEffects runscript.

Definition handle (failing : list string) : rhandler Sim.world := λ X e,
  match e in revent X return Sim.world → X * Sim.world with
  | Base e => Sim.handle _ e
  | OsReadFile path => λ w,
      (if Sim.lookupFile path (Sim.files w) is StatOk _ then Out path
       else OutErr "no such file or directory", w)
  | RunShellCmd dir command => λ w,
      (if bool_decide (dir ∈ failing) then Some "exit status 1" else None, w)
  end.

Definition unmarshalScripts (data : string) : option (gmap string string) :=
  Some {[ "build" := "tsc"; "test" := "jest" ]}.

(** A site that declares the model and then its API, each in a directory
    of its own. *)
Definition ws : Workspace :=
  {| Repos :=
       {[ "Site" := {| Path := "Site"; repo_DefaultBranch := "";
                       Dependencies := ["AppModel"; "AppAPI"] |};
          "AppModel" := Sim.modelRepo;
          "AppAPI" := Sim.apiRepo ]};
     DefaultBranch := "" |}.

Definition cloned : Sim.world :=
  Sim.addFiles
    [ ("/ws/Site", Sim.regular 4096 1690000003);
      ("/ws/Site/package.json", Sim.regular 700 1690000004);
      ("/ws/AppModel/package.json", Sim.regular 600 1690000005) ]
    Sim.clean.

Definition noFlags : flags :=
  {| runRecursive := true; runPublished := false; runWatch := false |}.

Definition buildSite (failing : list string)
  : option error * Sim.world * list rentry :=
  rrun (handle failing)
    (buildRecursivelyRun (H := Sim.lib) unmarshalScripts noFlags "/ws" ws "Site") cloned.

End SimRun.

(* ===================================================================== *)
(** ** Remote names: BuildRemoteURL and RepoNameFromRemote                *)
(* ===================================================================== *)

Section RemoteNames.
Import GoStrings.

Lemma ContainsByte_app c s1 s2 :
  ContainsByte c (s1 +:+ s2) = ContainsByte c s1 || ContainsByte c s2.
Proof.
  induction s1 as [|a s1 IH]; simpl; [done|].
  destruct (decide (a = c)); [done|apply IH].
Qed.

Lemma afterLast_absent c s : ContainsByte c s = false → afterLast c s = s.
Proof.
  induction s as [|a s IH]; simpl; [done|].
  destruct (decide (a = c)); [done|]. intros H. by rewrite H.
Qed.

Lemma afterLast_app_sep c pre name :
  ContainsByte c name = false → afterLast c (pre +:+ String c name) = name.
Proof.
  intros Hn. induction pre as [|a pre IH]; simpl.
  - rewrite Hn. by destruct (decide (c = c)).
  - rewrite ContainsByte_app. simpl. destruct (decide (c = c)); [|done].
    by rewrite orb_true_r.
Qed.

Lemma afterLast_skip c pre s :
  ContainsByte c s = true → afterLast c (pre +:+ s) = afterLast c s.
Proof.
  intros Hs. induction pre as [|a pre IH]; simpl; [done|].
  by rewrite ContainsByte_app, Hs, orb_true_r.
Qed.

Lemma afterLast_no_sep c s : ContainsByte c (afterLast c s) = false.
Proof.
  induction s as [|a s IH]; simpl; [done|].
  destruct (ContainsByte c s) eqn:Hs; [done|].
  destruct (decide (a = c)) as [|Hne]; [done|].
  simpl. by destruct (decide (a = c)).
Qed.

(** Every string that contains the separator splits, in exactly one way,
    around its last occurrence; [afterLast] is the part behind it. *)
Lemma afterLast_decompose c s :
  ContainsByte c s = true →
  ∃ pre, s = pre +:+ String c (afterLast c s).
Proof.
  induction s as [|a s IH]; simpl; [done|].
  destruct (ContainsByte c s) eqn:Hs.
  - intros _. destruct (IH eq_refl) as [pre Hpre].
    exists (String a pre). change (String a s = String a (pre +:+ String c (afterLast c s))). by f_equal.
  - destruct (decide (a = c)) as [->|]; [|done].
    intros _. by exists "".
Qed.

Lemma Split_nonempty c s : Split c s ≠ [].
Proof.
  destruct s as [|a s]; simpl; [done|].
  destruct (decide (a = c)); [done|]. by destruct (Split c s).
Qed.

Lemma Split_absent c s : ContainsByte c s = false → Split c s = [s].
Proof.
  induction s as [|a s IH]; simpl; [done|].
  destruct (decide (a = c)); [done|]. intros H. by rewrite IH.
Qed.

Lemma Split_present c s :
  ContainsByte c s = true → ∃ hd t tl, Split c s = hd :: t :: tl.
Proof.
  induction s as [|a s IH]; simpl; [done|].
  destruct (decide (a = c)).
  - intros _. pose proof (Split_nonempty c s).
    destruct (Split c s) as [|t tl]; [done|]. by eexists _, _, _.
  - intros Hs. destruct (IH Hs) as (hd & t & tl & ->). by eexists _, _, _.
Qed.

(** [parts[len(parts)-1]] of [strings.Split(s, sep)] is what follows the
    last separator. *)
Lemma last_Split c s : List.last (Split c s) "" = afterLast c s.
Proof.
  induction s as [|a s IH]; simpl; [done|].
  destruct (ContainsByte c s) eqn:Hs.
  - destruct (Split_present c s Hs) as (hd & t & tl & Hsp).
    rewrite Hsp in *. by destruct (decide (a = c)).
  - rewrite (Split_absent c s Hs). by destruct (decide (a = c)).
Qed.

Lemma stripTrailing_snoc c s a :
  a ≠ c → stripTrailing c (s +:+ String a "") = s +:+ String a "".
Proof.
  intros Hne. induction s as [|b s IH]; simpl.
  - by destruct (decide (a = c)).
  - rewrite IH. by destruct s.
Qed.

Lemma substring_app_l s1 s2 :
  String.substring 0 (String.length s1) (s1 +:+ s2) = s1.
Proof. induction s1 as [|a s1 IH]; simpl; [by destruct s2|by rewrite IH]. Qed.

Lemma substring_full s : String.substring 0 (String.length s) s = s.
Proof. induction s as [|a s IH]; simpl; [done|by rewrite IH]. Qed.

Lemma substring_app_r s1 s2 :
  String.substring (String.length s1) (String.length s2) (s1 +:+ s2) = s2.
Proof.
  induction s1 as [|a s1 IH]; simpl; [|done].
  change ("" +:+ s2) with s2. apply substring_full.
Qed.

Lemma app_cons a (s1 s2 : string) : String a s1 +:+ s2 = String a (s1 +:+ s2).
Proof. reflexivity. Qed.

Lemma app_nil_l (s : string) : "" +:+ s = s.
Proof. reflexivity. Qed.

Lemma length_app s1 s2 :
  String.length (s1 +:+ s2) = (String.length s1 + String.length s2)%nat.
Proof.
  induction s1 as [|a s1 IH]; [done|]. rewrite app_cons. simpl. by rewrite IH.
Qed.

Lemma TrimSuffix_app s suffix : TrimSuffix (s +:+ suffix) suffix = s.
Proof.
  unfold TrimSuffix, HasSuffix. rewrite length_app.
  replace (String.length s + String.length suffix - String.length suffix)%nat
    with (String.length s) by lia.
  rewrite substring_app_r, substring_app_l.
  rewrite bool_decide_eq_true_2 by done.
  by rewrite (proj2 (Nat.leb_le _ _)) by lia.
Qed.

Lemma app_assoc_s (s1 s2 s3 : string) : (s1 +:+ s2) +:+ s3 = s1 +:+ s2 +:+ s3.
Proof.
  induction s1 as [|a s1 IH]; [done|]. rewrite !app_cons. by rewrite IH.
Qed.

(** The base name of a built SSH URL is the last path segment of the
    org/repo string followed by [".git"]. *)
Lemma Base_built_url orgRepo :
  ContainsByte "/" orgRepo = true →
  Base ("git@github.com:" +:+ orgRepo +:+ ".git")
  = afterLast "/" orgRepo +:+ ".git".
Proof.
  intros Hs. unfold Base.
  destruct (decide (_ = "")) as [He|_]; [done|].
  destruct (afterLast_decompose _ _ Hs) as [pre Hpre].
  set (name := afterLast "/" orgRepo) in *.
  assert (Hurl : "git@github.com:" +:+ orgRepo +:+ ".git"
                 = ("git@github.com:" +:+ pre) +:+ String "/" (name +:+ ".git")).
  { rewrite Hpre. by rewrite !app_assoc_s. }
  assert (Hsnoc : "git@github.com:" +:+ orgRepo +:+ ".git"
                 = ("git@github.com:" +:+ orgRepo +:+ ".gi") +:+ String "t" "").
  { by rewrite !app_assoc_s. }
  rewrite Hsnoc, stripTrailing_snoc by done. rewrite <- Hsnoc, Hurl.
  rewrite afterLast_app_sep.
  2:{ rewrite ContainsByte_app. unfold name. by rewrite afterLast_no_sep. }
  destruct (decide (_ = "")) as [He|_]; [|done].
  by destruct name.
Qed.
(** C10: for an org/repo string (it contains ['/'], no [':'], and starts
    with neither [git@] nor [https://]), the repo name extracted from the
    built remote URL is the part of the string after its last ['/'], and
    so is the repo name extracted from the string itself. *)
Theorem RepoNameFromRemote_BuildRemoteURL (orgRepo : string) :
  ContainsByte "/" orgRepo = true →
  ContainsByte ":" orgRepo = false →
  HasPrefix orgRepo "git@" = false →
  HasPrefix orgRepo "https://" = false →
  git.RepoNameFromRemote (git.BuildRemoteURL orgRepo) = afterLast "/" orgRepo
  ∧ git.RepoNameFromRemote orgRepo = afterLast "/" orgRepo
  ∧ (∃ org, orgRepo = org +:+ "/" +:+ afterLast "/" orgRepo)
  ∧ ContainsByte "/" (afterLast "/" orgRepo) = false.
Proof.
  intros Hslash Hcolon Hgit Hhttps. repeat split.
  - unfold git.BuildRemoteURL. rewrite Hgit, Hhttps. cbn [orb].
    unfold git.RepoNameFromRemote.
    replace (ContainsByte ":" ("git@github.com:" +:+ orgRepo +:+ ".git")) with true
      by (by rewrite ContainsByte_app).
    cbn [negb andb]. rewrite Base_built_url by done. apply TrimSuffix_app.
  - unfold git.RepoNameFromRemote. rewrite Hcolon, Hslash. cbn [negb andb].
    apply last_Split.
  - destruct (afterLast_decompose "/" orgRepo Hslash) as [org Horg].
    exists org. exact Horg.
  - apply afterLast_no_sep.
Qed.

Lemma RepoNameFromRemote_BuildRemoteURL_AppAPI :
  git.RepoNameFromRemote (git.BuildRemoteURL "Spark-Rewards/AppAPI") = "AppAPI"
  ∧ git.RepoNameFromRemote "Spark-Rewards/AppAPI" = "AppAPI".
Proof.
  destruct (RepoNameFromRemote_BuildRemoteURL "Spark-Rewards/AppAPI")
    as (H1 & H2 & _); [reflexivity..|].
  split; [exact H1|exact H2].
Defined.

End RemoteNames.

Example BuildRemoteURL_ex :
  git.BuildRemoteURL "Spark-Rewards/AppAPI" = "git@github.com:Spark-Rewards/AppAPI.git".
Proof. reflexivity. Qed.

Example RepoNameFromRemote_ex1 :
  git.RepoNameFromRemote "git@github.com:Spark-Rewards/AppAPI.git" = "AppAPI".
Proof. reflexivity. Qed.

Example RepoNameFromRemote_ex2 :
  git.RepoNameFromRemote "Spark-Rewards/AppAPI" = "AppAPI".
Proof. reflexivity. Qed.

Example RepoNameFromRemote_ex3 :
  map git.RepoNameFromRemote ["org/"; "/"; "a/.."; "org/repo.git"; "a/b/c"]
  = [""; ""; ".."; "repo.git"; "c"]
  /\ map (fun s => git.RepoNameFromRemote (git.BuildRemoteURL s))
       ["org/"; "/"; "a/.."; "org/repo.git"; "a/b/c"]
  = [""; ""; ".."; "repo.git"; "c"].
Proof. split; reflexivity. Qed.

(* ===================================================================== *)
(** ** The dependency resolver                                            *)
(* ===================================================================== *)

Section ResolverFacts.
Import workspace Resolver ResolverSpec.
Local Open Scope nat_scope.

Variable ws : Workspace.

(** *** More fuel never changes a result *)

Lemma forEach_ext {A S} (f g : S → A → option S) l st r :
  (∀ st x r, f st x = Some r → g st x = Some r) →
  forEach f l st = Some r → forEach g l st = Some r.
Proof.
  intros Hfg. revert st. induction l as [|x l IH]; intros st; simpl; [done|].
  destruct (f st x) as [st1|] eqn:Hf; simpl; [|done].
  rewrite (Hfg _ _ _ Hf). simpl. apply IH.
Qed.

Lemma collectBody_ext (f g : string → walk → option walk) n st r :
  (∀ n st r, f n st = Some r → g n st = Some r) →
  collectBody ws f n st = Some r → collectBody ws g n st = Some r.
Proof.
  intros Hfg. unfold collectBody.
  destruct (decide (n ∈ seen st)); [done|].
  set (st0 := {| seen := {[n]} ∪ seen st; deps := deps st |}).
  assert (Hloop : ∀ repo st1 r,
    forEach (λ st dep,
               match Repos ws !! dep with
               | Some _ =>
                   st ← f dep st;
                   if containsRun (deps st) dep then Some st
                   else Some {| seen := seen st; deps := deps st ++ [dep] |}
               | None => Some st
               end) (Dependencies repo) st1 = Some r →
    forEach (λ st dep,
               match Repos ws !! dep with
               | Some _ =>
                   st ← g dep st;
                   if containsRun (deps st) dep then Some st
                   else Some {| seen := seen st; deps := deps st ++ [dep] |}
               | None => Some st
               end) (Dependencies repo) st1 = Some r).
  { intros repo st1 r1. apply forEach_ext. intros st' dep r'.
    destruct (Repos ws !! dep); [|done].
    destruct (f dep st') as [st2|] eqn:H2; simpl; [|done].
    by rewrite (Hfg _ _ _ H2). }
  destruct (apiToModel !! n) as [modelName|]; simpl.
  - destruct (Repos ws !! modelName); simpl.
    + destruct (f modelName st0) as [st1|] eqn:H1; simpl; [|done].
      rewrite (Hfg _ _ _ H1). simpl.
      destruct (Repos ws !! n); [apply Hloop|done].
    + destruct (Repos ws !! n); [apply Hloop|done].
  - destruct (Repos ws !! n); [apply Hloop|done].
Qed.

Lemma collect_fuel_S fuel n st r :
  collect ws fuel n st = Some r → collect ws (S fuel) n st = Some r.
Proof.
  revert n st r. induction fuel as [|fuel IH]; intros n st r; [done|].
  change (collectBody ws (collect ws fuel) n st = Some r →
          collectBody ws (collect ws (S fuel)) n st = Some r).
  apply collectBody_ext, IH.
Qed.

Lemma collect_fuel_mono fuel fuel' n st r :
  fuel ≤ fuel' →
  collect ws fuel n st = Some r → collect ws fuel' n st = Some r.
Proof.
  induction 1 as [|fuel' _ IH]; [done|].
  intros H. by apply collect_fuel_S, IH.
Qed.

(** *** Termination: the unseen names are a decreasing measure *)

Lemma unseen_mono name st st' :
  seen st ⊆ seen st' → unseen ws name st' ≤ unseen ws name st.
Proof. intros Hsub. apply subseteq_size. set_solver. Qed.

Lemma unseen_mark name n st :
  n ∈ ({[name]} ∪ dom (Repos ws) : gset string) → n ∉ seen st →
  unseen ws name {| seen := {[n]} ∪ seen st; deps := deps st |} < unseen ws name st.
Proof.
  intros Hin Hnot. apply subset_size. simpl.
  split; [set_solver|]. intros Hsub. apply Hnot.
  assert (n ∈ ({[name]} ∪ dom (Repos ws)) ∖ seen st) as Hn by set_solver.
  apply Hsub in Hn. set_solver.
Qed.

Lemma forEach_total {A} (body : walk → A → option walk) name l bound st :
  (∀ st x, unseen ws name st < bound →
     ∃ st', body st x = Some st' ∧ seen st ⊆ seen st') →
  unseen ws name st < bound →
  ∃ st', forEach body l st = Some st' ∧ seen st ⊆ seen st'.
Proof.
  intros Hbody. revert st. induction l as [|x l IH]; intros st Hst; simpl.
  - by exists st.
  - destruct (Hbody st x Hst) as (st1 & -> & Hsub1). simpl.
    destruct (IH st1) as (st2 & -> & Hsub2).
    { pose proof (unseen_mono name _ _ Hsub1). lia. }
    exists st2. split; [done|set_solver].
Qed.

Lemma collectBody_total (self : string → walk → option walk) name bound n st :
  (∀ n st, n ∈ ({[name]} ∪ dom (Repos ws) : gset string) →
     unseen ws name st < bound →
     ∃ st', self n st = Some st' ∧ seen st ⊆ seen st') →
  n ∈ ({[name]} ∪ dom (Repos ws) : gset string) →
  unseen ws name st < S bound →
  ∃ st', collectBody ws self n st = Some st' ∧ seen st ⊆ seen st'.
Proof.
  intros Hself Hn Hlt. unfold collectBody.
  destruct (decide (n ∈ seen st)) as [|Hnot]; [by exists st|].
  pose proof (unseen_mark name n st Hn Hnot) as Hmark.
  set (st0 := {| seen := {[n]} ∪ seen st; deps := deps st |}) in *.
  assert (Hsub0 : seen st ⊆ seen st0) by (simpl; set_solver).
  assert (∃ st1, match apiToModel !! n with
                 | Some modelName =>
                     match Repos ws !! modelName with
                     | Some _ =>
                         st ← self modelName st0;
                         Some {| seen := seen st; deps := deps st ++ [modelName] |}
                     | None => Some st0
                     end
                 | None => Some st0
                 end = Some st1 ∧ seen st0 ⊆ seen st1) as (st1 & -> & Hsub1).
  { destruct (apiToModel !! n) as [modelName|]; [|by exists st0].
    destruct (Repos ws !! modelName) eqn:Hm; [|by exists st0].
    destruct (Hself modelName st0) as (st1 & -> & Hsub1).
    - apply elem_of_union_r, elem_of_dom. by eexists.
    - lia.
    - simpl. by eexists. }
  simpl. pose proof (unseen_mono name _ _ Hsub1) as Hle1.
  destruct (Repos ws !! n) as [repo|]; [|exists st1; split; [done|set_solver]].
  destruct (forEach_total
              (λ st dep,
                 match Repos ws !! dep with
                 | Some _ =>
                     st ← self dep st;
                     if containsRun (deps st) dep then Some st
                     else Some {| seen := seen st; deps := deps st ++ [dep] |}
                 | None => Some st
                 end) name (Dependencies repo) bound st1) as (st2 & -> & Hsub2).
  - intros st' dep Hst'. destruct (Repos ws !! dep) eqn:Hd; [|by exists st'].
    destruct (Hself dep st') as (st2 & -> & Hsub2); [|done|].
    + apply elem_of_union_r, elem_of_dom. by eexists.
    + simpl. destruct (containsRun (deps st2) dep); by eexists.
  - lia.
  - exists st2. split; [done|set_solver].
Qed.

Lemma collect_total name fuel n st :
  n ∈ ({[name]} ∪ dom (Repos ws) : gset string) →
  unseen ws name st < fuel →
  ∃ st', collect ws fuel n st = Some st' ∧ seen st ⊆ seen st'.
Proof.
  revert n st. induction fuel as [|fuel IH]; intros n st Hn Hlt; [lia|].
  apply (collectBody_total (collect ws fuel) name fuel); auto.
Qed.

Lemma unseen_initial name :
  unseen ws name {| seen := ∅; deps := [] |} < S (S (size (Repos ws))).
Proof.
  unfold unseen. simpl. rewrite difference_empty_L.
  pose proof (size_union_alt ({[name]} : gset string) (dom (Repos ws))) as Hu.
  rewrite size_singleton in Hu.
  assert (size (dom (Repos ws) ∖ ({[name]} : gset string)) ≤ size (dom (Repos ws)))
    by (apply subseteq_size; set_solver).
  rewrite size_dom in *. lia.
Qed.

(** getDepsForRun returns: the recursion bound of the model is never hit. *)
Lemma getDepsForRun_terminates name :
  getDepsForRun_fuel (S (S (size (Repos ws)))) ws name
  = Some (getDepsForRun ws name).
Proof.
  unfold getDepsForRun, getDepsForRun_fuel.
  destruct (collect_total name (S (S (size (Repos ws)))) name
              {| seen := ∅; deps := [] |}) as (st & -> & _); [set_solver| |done].
  apply unseen_initial.
Qed.

(** Any bound under which the walk completes gives the same sequence. *)
Lemma getDepsForRun_fuel_agree fuel name l :
  getDepsForRun_fuel fuel ws name = Some l → getDepsForRun ws name = l.
Proof.
  intros H. pose proof (getDepsForRun_terminates name) as Ht.
  unfold getDepsForRun_fuel in *.
  destruct (collect ws fuel name _) as [st|] eqn:Hc; simpl in H; [|done].
  destruct (collect ws (S (S (size (Repos ws)))) name _) as [st'|] eqn:Hc';
    simpl in Ht; [|done].
  destruct (Nat.le_ge_cases fuel (S (S (size (Repos ws))))) as [Hle|Hge].
  - rewrite (collect_fuel_mono _ _ _ _ _ Hle Hc) in Hc'. congruence.
  - rewrite (collect_fuel_mono _ _ _ _ _ Hge Hc') in Hc. congruence.
Qed.

(** *** What the walk collects *)

Lemma forEach_invariant {A S} (P : S → Prop) (body : S → A → option S) l st r :
  (∀ st x r, P st → body st x = Some r → P r) →
  P st → forEach body l st = Some r → P r.
Proof.
  intros Hbody. revert st. induction l as [|x l IH]; intros st HP; simpl.
  - by intros [= <-].
  - destruct (body st x) as [st1|] eqn:Hb; simpl; [|done].
    apply IH. by eapply Hbody.
Qed.

Lemma collectBody_known (self : string → walk → option walk) n st r :
  (∀ n st r, known ws st → self n st = Some r → known ws r) →
  known ws st → collectBody ws self n st = Some r → known ws r.
Proof.
  intros Hself Hst. unfold collectBody.
  destruct (decide (n ∈ seen st)); [by intros [= <-]|].
  set (st0 := {| seen := {[n]} ∪ seen st; deps := deps st |}).
  assert (known ws st0) as H0 by done.
  destruct (match apiToModel !! n with
            | Some modelName => _
            | None => _
            end) as [st1|] eqn:H1; simpl; [|done].
  assert (known ws st1) as Hk1.
  { destruct (apiToModel !! n) as [modelName|]; [|by simplify_eq].
    destruct (Repos ws !! modelName) eqn:Hm; [|by simplify_eq].
    destruct (self modelName st0) as [st'|] eqn:Hs; simpl in H1; [|done].
    simplify_eq. unfold known. simpl. apply Forall_app. split.
    - by eapply Hself.
    - by repeat constructor. }
  destruct (Repos ws !! n) as [repo|]; [|by intros [= <-]].
  apply forEach_invariant; [|done].
  intros st' dep r' Hk'. destruct (Repos ws !! dep) eqn:Hd; [|by intros [= <-]].
  destruct (self dep st') as [st2|] eqn:Hs; simpl; [|done].
  pose proof (Hself _ _ _ Hk' Hs) as Hk2.
  destruct (containsRun (deps st2) dep); intros [= <-]; [done|].
  unfold known. simpl. apply Forall_app. split; [done|by repeat constructor].
Qed.

Lemma collect_known fuel n st r :
  known ws st → collect ws fuel n st = Some r → known ws r.
Proof.
  revert n st r. induction fuel as [|fuel IH]; intros n st r; [done|].
  apply collectBody_known. apply IH.
Qed.

(** The target is never among its own dependencies. *)
Lemma getDepsForRun_not_target name : name ∉ getDepsForRun ws name.
Proof.
  pose proof (getDepsForRun_terminates name) as Ht.
  unfold getDepsForRun_fuel in Ht.
  destruct (collect ws _ name _) as [st|]; simpl in Ht; [|done].
  injection Ht as <-. rewrite list_elem_of_In, filter_In.
  intros [_ H]. by rewrite bool_decide_eq_true_2 in H.
Qed.

(** Every returned name is a key of the repo map. *)
Lemma getDepsForRun_in_workspace name d :
  d ∈ getDepsForRun ws name → is_Some (Repos ws !! d).
Proof.
  pose proof (getDepsForRun_terminates name) as Ht.
  unfold getDepsForRun_fuel in Ht.
  destruct (collect ws _ name _) as [st|] eqn:Hc; simpl in Ht; [|done].
  injection Ht as <-. rewrite list_elem_of_In, filter_In.
  intros [Hin _]. apply collect_known in Hc; [|by constructor].
  unfold known in Hc. rewrite Forall_forall in Hc. apply Hc.
  by apply list_elem_of_In.
Qed.

(** *** Duplicates come from the implicit edge only *)

Lemma containsRun_elem (l : list string) x : containsRun l x = true ↔ x ∈ l.
Proof.
  induction l as [|y l IH]; simpl.
  - split; [done|]. intros Hin. by apply elem_of_nil in Hin.
  - destruct (decide (y = x)) as [->|Hne].
    + split; [intros _; apply list_elem_of_here|done].
    + rewrite IH. split; [apply list_elem_of_further|].
      intros Hin. apply elem_of_cons in Hin as [->|]; done.
Qed.

Lemma collectBody_NoDup (self : string → walk → option walk) n st r :
  (∀ n, noImplicit ws n) →
  (∀ n st r, NoDup (deps st) → self n st = Some r → NoDup (deps r)) →
  NoDup (deps st) → collectBody ws self n st = Some r → NoDup (deps r).
Proof.
  intros Hno Hself Hst. unfold collectBody.
  destruct (decide (n ∈ seen st)); [by intros [= <-]|].
  set (st0 := {| seen := {[n]} ∪ seen st; deps := deps st |}).
  assert (match apiToModel !! n with
          | Some modelName =>
              match Repos ws !! modelName with
              | Some _ =>
                  st ← self modelName st0;
                  Some {| seen := seen st; deps := deps st ++ [modelName] |}
              | None => Some st0
              end
          | None => Some st0
          end = Some st0) as ->.
  { destruct (apiToModel !! n) as [m|] eqn:Hm; [|done]. by rewrite (Hno n m Hm). }
  simpl. destruct (Repos ws !! n) as [repo|]; [|by intros [= <-]].
  apply (forEach_invariant (λ st, NoDup (deps st))); [|done].
  intros st' dep r' Hnd. destruct (Repos ws !! dep); [|by intros [= <-]].
  destruct (self dep st') as [st2|] eqn:Hs; simpl; [|done].
  pose proof (Hself _ _ _ Hnd Hs) as Hnd2.
  destruct (containsRun (deps st2) dep) eqn:Hc; intros [= <-]; [done|].
  simpl. apply NoDup_app. split; [done|]. split; [|apply NoDup_singleton].
  intros x Hx Hx'. apply list_elem_of_singleton in Hx' as ->.
  apply containsRun_elem in Hx. congruence.
Qed.

(** Without a present implicit counterpart anywhere in the workspace, the
    returned sequence has no duplicates. *)
Lemma getDepsForRun_NoDup_declared name :
  (∀ n, noImplicit ws n) → NoDup (getDepsForRun ws name).
Proof.
  intros Hno. pose proof (getDepsForRun_terminates name) as Ht.
  unfold getDepsForRun_fuel in Ht.
  destruct (collect ws _ name _) as [st|] eqn:Hc; simpl in Ht; [|done].
  injection Ht as <-. apply NoDup_ListNoDup, List.NoDup_filter, NoDup_ListNoDup.
  revert Hc. generalize (S (S (size (Repos ws)))). intros fuel.
  assert (NoDup (deps {| seen := ∅; deps := [] |})) as H0 by constructor.
  revert H0. generalize {| seen := ∅; deps := [] |}. generalize name at 1.
  revert st. induction fuel as [|fuel IH]; intros st n st0 H0; [done|].
  cbn [collect]. apply collectBody_NoDup; [done| |done].
  intros n' st' r'. apply IH.
Qed.

End ResolverFacts.

Section ResolverScenarios.
Import workspace Resolver ResolverSpec ResolverInputs.

Example resolve_API_gives_Model : getDepsForRun wsModelAPI "AppAPI" = ["AppModel"].
Proof. reflexivity. Qed.

Example resolve_plain_cycle : getDepsForRun wsLoop "A" = ["B"].
Proof. reflexivity. Qed.

Lemma collectBody_seen ws self n st :
  n ∈ seen st → collectBody ws self n st = Some st.
Proof. intros H. unfold collectBody. by destruct (decide (n ∈ seen st)). Qed.

Lemma collectBody_enter ws self n st repo :
  noImplicit ws n → n ∉ seen st → Repos ws !! n = Some repo →
  collectBody ws self n st
  = forEach (λ st dep,
               match Repos ws !! dep with
               | Some _ =>
                   st ← self dep st;
                   if containsRun (deps st) dep then Some st
                   else Some {| seen := seen st; deps := deps st ++ [dep] |}
               | None => Some st
               end)
      (Dependencies repo) {| seen := {[n]} ∪ seen st; deps := deps st |}.
Proof.
  intros Hno Hnot Hn. unfold collectBody.
  destruct (decide (n ∈ seen st)); [done|]. rewrite Hn.
  destruct (apiToModel !! n) as [m|] eqn:Hm; [|done].
  by rewrite (Hno m Hm).
Qed.

(** C5: in a workspace where X declares the dependencies [Y, Z], Y declares
    [Z] and Z declares none, and where no implicit model counterpart of X,
    Y or Z is present, getDepsForRun for X returns exactly [Z, Y]. *)
Theorem getDepsForRun_postorder (ws : Workspace) (x y z : string)
    (rx ry rz : RepoDef) :
  Repos ws !! x = Some rx → Dependencies rx = [y; z] →
  Repos ws !! y = Some ry → Dependencies ry = [z] →
  Repos ws !! z = Some rz → Dependencies rz = [] →
  noImplicit ws x → noImplicit ws y → noImplicit ws z →
  getDepsForRun ws x = [z; y].
Proof.
  intros Hx Hdx Hy Hdy Hz Hdz Ix Iy Iz.
  assert (x ≠ y) as Hxy by (intros ->; congruence).
  assert (x ≠ z) as Hxz by (intros ->; congruence).
  assert (y ≠ z) as Hyz by (intros ->; congruence).
  apply (getDepsForRun_fuel_agree ws 3).
  unfold getDepsForRun_fuel. cbn [collect].
  (* enter x and start on its declared dependencies *)
  rewrite (collectBody_enter ws _ x _ rx Ix) by (done || set_solver).
  rewrite Hdx. cbn [forEach seen deps]. rewrite Hy.
  (* y is entered from x; z is entered from y and has nothing to add *)
  rewrite (collectBody_enter ws _ y _ ry Iy) by (done || set_solver).
  rewrite Hdy. cbn [forEach seen deps]. rewrite Hz.
  rewrite (collectBody_enter ws _ z _ rz Iz) by (done || set_solver).
  rewrite Hdz. cbn [forEach seen deps mbind option_bind containsRun app].
  (* back in x: y is appended after z, and z is seen and present *)
  destruct (decide (z = y)) as [|_]; [congruence|].
  cbn [containsRun seen deps mbind option_bind app].
  rewrite collectBody_seen by (cbn; set_solver).
  cbn [mbind option_bind containsRun deps].
  destruct (decide (z = z)) as [_|]; [|done].
  cbn [mbind option_bind deps List.filter].
  rewrite !bool_decide_eq_false_2 by congruence. done.
Qed.

Lemma noImplicit_plain ws n : apiToModel !! n = None → noImplicit ws n.
Proof. intros H m. by rewrite H. Qed.

Lemma getDepsForRun_postorder_XYZ :
  getDepsForRun wsXYZ "X" = ["Z"; "Y"].
Proof.
  apply (getDepsForRun_postorder wsXYZ "X" "Y" "Z"
           (repoWith ["Y"; "Z"]) (repoWith ["Z"]) (repoWith []));
    try reflexivity; by apply noImplicit_plain.
Defined.

(** C1, at a workspace where a site declares the model and then its API:
    the model is appended once through the site's declared edge and once
    more, unchecked, through the implicit edge of the API, so the
    sequence for the site names the model twice. *)
Theorem getDepsForRun_duplicate_site :
  getDepsForRun wsSite "Site" = ["AppModel"; "AppModel"; "AppAPI"]
  ∧ ¬ NoDup (getDepsForRun wsSite "Site").
Proof.
  split; [reflexivity|].
  intros Hnd. apply NoDup_cons in Hnd as [Hnot _]. apply Hnot. set_solver.
Qed.

(** C4, at a workspace with the declared cycle AppModel -> Codegen ->
    AppModel below AppAPI: the walk returns, and the sequence it returns
    names the model twice. *)
Theorem getDepsForRun_duplicate_cycle :
  getDepsForRun_fuel 5 wsCycle "AppAPI" = Some ["AppModel"; "Codegen"; "AppModel"]
  ∧ getDepsForRun wsCycle "AppAPI" = ["AppModel"; "Codegen"; "AppModel"]
  ∧ ¬ NoDup (getDepsForRun wsCycle "AppAPI").
Proof.
  split; [reflexivity|]. split; [reflexivity|].
  intros Hnd. apply NoDup_cons in Hnd as [Hnot _]. apply Hnot. set_solver.
Qed.

End ResolverScenarios.

(* ===================================================================== *)
(** ** Running programs                                                   *)
(* ===================================================================== *)

Section RunFacts.
Import Effects.
Context {W : Type} (h : handler W).

Lemma run_ret {A} (a : A) w : run h (mret a) w = (a, w, []).
Proof. reflexivity. Qed.

Lemma run_trigger {X} (e : event X) w :
  run h (trigger e) w = ((h _ e w).1, (h _ e w).2, [Entry e (h _ e w).1]).
Proof. simpl. by destruct (h X e w). Qed.

Lemma run_bind {A B} (p : Prog A) (f : A → Prog B) w :
  run h (p ≫= f) w
  = let '(a, w1, t1) := run h p w in
    let '(b, w2, t2) := run h (f a) w1 in
    (b, w2, t1 ++ t2).
Proof.
  unfold mbind, Prog_bind. revert w.
  induction p as [a|X e k IH]; intros w; simpl.
  - by destruct (run h (f a) w) as [[b w2] t2].
  - destruct (h X e w) as [x w1]. rewrite IH.
    destruct (run h (k x) w1) as [[a w2] t1].
    by destruct (run h (f a) w2) as [[b w3] t2].
Qed.

Lemma run_trigger_bind {X B} (e : event X) (f : X → Prog B) w :
  run h (trigger e ≫= f) w
  = let '(b, w2, t) := run h (f (h _ e w).1) (h _ e w).2 in
    (b, w2, Entry e (h _ e w).1 :: t).
Proof. rewrite run_bind, run_trigger. by destruct (run h _ _) as [[b w2] t]. Qed.

End RunFacts.

(* ===================================================================== *)
(** ** The target branch                                                  *)
(* ===================================================================== *)

Section TargetBranch.
Import workspace GoStrings Effects gitcmd synccmd SyncSpec.
Context `{GoLib}.

Lemma GetDefaultBranch_remoteDefault {W} (h : handler W) dir w :
  remoteDefault dir
    (trace_of (run h (GetDefaultBranch dir) w))
    (result_of (run h (GetDefaultBranch dir) w)).
Proof.
  unfold GetDefaultBranch. rewrite run_trigger_bind.
  destruct (h _ (GitSymbolicRef dir) w) as [[o|e] w1]; cbn [fst snd].
  - pose proof (Split_nonempty "/" (TrimSpace o)) as Hne.
    pose proof (last_Split "/" (TrimSpace o)) as Hlast.
    destruct (Split "/" (TrimSpace o)) as [|p ps]; [done|].
    cbn [length Nat.ltb Nat.leb]. rewrite run_ret.
    unfold trace_of, result_of. cbn [fst snd]. rewrite Hlast. constructor.
  - cbn [probeBranches]. rewrite run_trigger_bind.
    destruct (h _ (GitRevParseVerify dir _) w1) as [[e1|] w2]; cbn [fst snd].
    + rewrite run_trigger_bind.
      destruct (h _ (GitRevParseVerify dir _) w2) as [[e2|] w3]; cbn [fst snd];
        rewrite run_ret; constructor.
    + rewrite run_ret. constructor.
Qed.

Lemma getTargetBranch_chain (fl : flags) (ws : Workspace)
    (repo : option RepoDef) (repoDir : string) :
  getTargetBranch fl ws repo repoDir
  = match firstNonEmpty [syncBranch fl;
                         from_option repo_DefaultBranch "" repo;
                         DefaultBranch ws] with
    | Some b => mret b
    | None => GetDefaultBranch repoDir
    end.
Proof.
  unfold getTargetBranch, firstNonEmpty. cbn [List.find].
  destruct (decide (syncBranch fl ≠ "")) as [Hb|Hb].
  { by rewrite bool_decide_eq_false_2. }
  rewrite bool_decide_eq_true_2 by (by destruct (decide (syncBranch fl = ""))).
  cbn [negb].
  assert (Hws : (if decide (DefaultBranch ws ≠ "")
                 then mret (DefaultBranch ws) else GetDefaultBranch repoDir)
                = match (if negb (bool_decide (DefaultBranch ws = ""))
                         then Some (DefaultBranch ws) else None) with
                  | Some b => mret b
                  | None => GetDefaultBranch repoDir
                  end).
  { destruct (decide (DefaultBranch ws ≠ "")) as [Hw|Hw].
    - by rewrite bool_decide_eq_false_2.
    - by rewrite bool_decide_eq_true_2 by (by destruct (decide (DefaultBranch ws = ""))). }
  destruct repo as [repo|]; cbn [from_option].
  - destruct (decide (repo_DefaultBranch repo ≠ "")) as [Hr|Hr].
    + by rewrite bool_decide_eq_false_2.
    + rewrite bool_decide_eq_true_2
        by (by destruct (decide (repo_DefaultBranch repo = ""))).
      cbn [negb]. apply Hws.
  - rewrite bool_decide_eq_true_2 by done. cbn [negb]. apply Hws.
Qed.

(** The precedence that getTargetBranch follows: the per-run [--branch]
    override if it is not empty, else the repo's DefaultBranch if not
    empty, else the workspace's DefaultBranch if not empty, else the
    answer of GetDefaultBranch: what follows the last ['/'] of the ref
    that origin/HEAD resolves to, else [main] if origin/main verifies,
    else [prod] if origin/prod verifies, else the fallback [main]. *)
Theorem getTargetBranch_precedence (fl : flags) (ws : Workspace)
    (repo : option RepoDef) (repoDir : string) :
  getTargetBranch fl ws repo repoDir
  = match firstNonEmpty [syncBranch fl;
                         from_option repo_DefaultBranch "" repo;
                         DefaultBranch ws] with
    | Some b => mret b
    | None => GetDefaultBranch repoDir
    end
  ∧ ∀ W (h : handler W) (w : W),
      remoteDefault repoDir
        (trace_of (run h (GetDefaultBranch repoDir) w))
        (result_of (run h (GetDefaultBranch repoDir) w)).
Proof.
  split; [apply getTargetBranch_chain|intros; apply GetDefaultBranch_remoteDefault].
Qed.

Lemma remoteDefault_refQueries dir tr b :
  remoteDefault dir tr b → Forall (λ en, isRefQuery en = true) tr.
Proof. destruct 1; by repeat constructor. Qed.

(** getTargetBranch only asks the remote about its refs. *)
Lemma getTargetBranch_refQueries {W} (h : handler W) fl ws repo dir w :
  Forall (λ en, isRefQuery en = true)
    (trace_of (run h (getTargetBranch fl ws repo dir) w)).
Proof.
  rewrite getTargetBranch_chain.
  destruct (firstNonEmpty _); [by constructor|].
  eapply remoteDefault_refQueries, GetDefaultBranch_remoteDefault.
Qed.

End TargetBranch.

(* ===================================================================== *)
(** ** syncRepoFull                                                       *)
(* ===================================================================== *)

Section SyncRepoFull.
Import workspace GoStrings Effects gitcmd synccmd SyncSpec.
Context `{GoLib} {W : Type} (h : handler W).

(** *** The small commands *)

Lemma run_Status dir w :
  run h (Status dir) w
  = (match (h _ (GitStatus dir) w).1 with
     | Out o => (TrimSpace o, None)
     | OutErr err => ("", Some err)
     end, (h _ (GitStatus dir) w).2, [Entry (GitStatus dir) (h _ (GitStatus dir) w).1]).
Proof.
  unfold Status. rewrite run_trigger_bind.
  by destruct (h _ (GitStatus dir) w) as [[o|e] w1].
Qed.

Lemma run_IsDirty dir w :
  run h (IsDirty dir) w
  = (reportsChanges (h _ (GitStatus dir) w).1, (h _ (GitStatus dir) w).2,
     [Entry (GitStatus dir) (h _ (GitStatus dir) w).1]).
Proof.
  unfold IsDirty. rewrite run_bind, run_Status.
  by destruct (h _ (GitStatus dir) w) as [[o|e] w1].
Qed.

Lemma run_StatusShortColor dir w :
  run h (StatusShortColor dir) w
  = (match (h _ (GitStatusColor dir) w).1 with
     | Out o => (stripTrailing "010" o, None)
     | OutErr err => ("", Some err)
     end, (h _ (GitStatusColor dir) w).2,
     [Entry (GitStatusColor dir) (h _ (GitStatusColor dir) w).1]).
Proof.
  unfold StatusShortColor. rewrite run_trigger_bind.
  by destruct (h _ (GitStatusColor dir) w) as [[o|e] w1].
Qed.

Lemma run_fileHash path w :
  run h (fileHash path) w
  = (fingerprint (h _ (OsStat path) w).1, (h _ (OsStat path) w).2,
     [Entry (OsStat path) (h _ (OsStat path) w).1]).
Proof.
  unfold fileHash. rewrite run_trigger_bind.
  by destruct (h _ (OsStat path) w) as [[info| |e] w1].
Qed.

(** *** What the observers see of ref queries and of the branch loop *)

Lemma omap_none {A} (f : entry → option A) (P : entry → bool) tr :
  (∀ en, P en = true → f en = None) →
  Forall (λ en, P en = true) tr → omap f tr = [].
Proof.
  intros Hf. induction 1 as [|en tr Hen _ IH]; [done|].
  cbn [omap list_omap]. by rewrite (Hf en Hen).
Qed.

Lemma Forall_false_of (P Q : entry → bool) tr :
  (∀ en, P en = true → Q en = false) →
  Forall (λ en, P en = true) tr → Forall (λ en, Q en = false) tr.
Proof. intros HPQ HP. eapply Forall_impl; [exact HP|]. simpl. auto. Qed.

Lemma refQuery_quiet en :
  isRefQuery en = true →
  rebaseOf en = None ∧ checkoutOf en = None ∧ aheadBehindOf en = None
  ∧ statusOf en = None ∧ (∀ p, statOf p en = None) ∧ shellOf en = None
  ∧ changesBranches en = false.
Proof. destruct en as [X e x]. by destruct e. Qed.

Lemma loopEvent_quiet en :
  isLoopEvent en = true →
  aheadBehindOf en = None ∧ statusOf en = None ∧ (∀ p, statOf p en = None)
  ∧ shellOf en = None.
Proof. destruct en as [X e x]. by destruct e. Qed.

Lemma statusQuery_quiet en :
  isStatusQuery en = true →
  rebaseOf en = None ∧ checkoutOf en = None ∧ aheadBehindOf en = None
  ∧ (∀ p, statOf p en = None) ∧ shellOf en = None
  ∧ changesBranches en = false.
Proof. destruct en as [X e x]. by destruct e. Qed.

Lemma rebaseOthers_loopEvents dir upstream cur tb branches rebased failed w :
  Forall (λ en, isLoopEvent en = true)
    (trace_of (run h (rebaseOthers dir upstream cur tb branches rebased failed) w)).
Proof.
  revert rebased failed w.
  induction branches as [|b bs IH]; intros rebased failed w; cbn [rebaseOthers].
  - constructor.
  - destruct (bool_decide (b = cur) || bool_decide (b = tb)); [apply IH|].
    unfold CheckoutQuiet, RebaseQuiet, RebaseAbortQuiet.
    rewrite run_trigger_bind.
    destruct (h _ (CallCheckoutQuiet dir b) w) as [[e|] w1]; cbn [fst snd].
    + specialize (IH rebased failed w1).
      destruct (run h _ w1) as [[r w'] t]. by constructor.
    + rewrite run_trigger_bind.
      destruct (h _ (GitRebase dir upstream) w1) as [[e|] w2]; cbn [fst snd].
      * rewrite run_trigger_bind.
        destruct (h _ (GitRebaseAbort dir) w2) as [x w3]; cbn [fst snd].
        specialize (IH rebased (failed ++ [b]) w3).
        destruct (run h _ w3) as [[r w'] t]. by repeat constructor.
      * specialize (IH (rebased ++ [b]) failed w2).
        destruct (run h _ w2) as [[r w'] t]. by repeat constructor.
Qed.

(** *** The shape of every run *)

(** Every run starts with the current branch, the target branch, the
    ahead/behind count and the status check, and then takes one of the
    three ways out. *)
Lemma syncRepoFull_run fl wsPath ws nm repo dir w :
  ∃ tb ttb ab out w4,
    Forall (λ en, isRefQuery en = true) ttb
    ∧ run h (syncRepoFull fl wsPath ws nm repo dir) w
      = let cur := currentBranch h dir w in
        let '(r, w', t) :=
          run h (if reportsChanges out then skipDirty nm dir cur ab.1 ab.2
                 else if syncNoRebase fl then pullOnly nm dir cur ab.1 ab.2
                 else rebaseBranches nm dir cur tb ("origin/" +:+ tb) ab.1 ab.2) w4 in
        (r, w',
         Entry (CallGetCurrentBranch dir) cur
           :: ttb ++ Entry (CallAheadBehind dir cur ("origin/" +:+ tb)) ab
           :: Entry (GitStatus dir) out :: t).
Proof.
  unfold syncRepoFull, GetCurrentBranch, AheadBehind, currentBranch.
  rewrite run_trigger_bind.
  destruct (h _ (CallGetCurrentBranch dir) w) as [cur w1]. cbn [fst snd].
  rewrite run_bind.
  pose proof (getTargetBranch_refQueries h fl ws (Some repo) dir w1) as Hq.
  destruct (run h (getTargetBranch fl ws (Some repo) dir) w1) as [[tb w2] ttb].
  unfold trace_of in Hq. cbn [fst snd] in Hq.
  rewrite run_trigger_bind.
  destruct (h _ (CallAheadBehind dir cur _) w2) as [[a b] w3] eqn:Hab. cbn [fst snd].
  rewrite run_bind, run_IsDirty.
  destruct (h _ (GitStatus dir) w3) as [out w4]. cbn [fst snd].
  exists tb, ttb, (a, b), out, w4. split; [done|]. cbn [fst snd].
  by destruct (run h _ w4) as [[r w'] t].
Qed.

Lemma run_skipDirty nm dir cur a b w :
  ∃ txt t,
    run h (skipDirty nm dir cur a b) w
    = ({| name := nm; branch := cur; status := "skipped";
          message := "dirty working tree"; ahead := a; behind := b;
          dirty := true; dirtyStatus := txt; lockfileChanged := false |},
       (run h (skipDirty nm dir cur a b) w).1.2, t)
    ∧ Forall (λ en, isStatusQuery en = true) t.
Proof.
  unfold skipDirty. rewrite run_bind, run_StatusShortColor.
  destruct (h _ (GitStatusColor dir) w) as [[o|e] w1]; cbn [fst snd].
  - destruct (bool_decide (None ≠ None) || bool_decide (stripTrailing "010" o = ""))
      eqn:Hc.
    + rewrite !run_bind, run_Status.
      destruct (h _ (GitStatus dir) w1) as [[o2|e2] w2]; cbn [fst snd];
        eexists _, _; (split; [reflexivity|]); by repeat constructor.
    + rewrite run_bind, !run_ret.
      eexists _, _; (split; [reflexivity|]); by repeat constructor.
  - cbn [orb bool_decide]. rewrite bool_decide_eq_true_2 by done. cbn [orb].
    rewrite !run_bind, run_Status.
    destruct (h _ (GitStatus dir) w1) as [[o2|e2] w2]; cbn [fst snd];
      eexists _, _; (split; [reflexivity|]); by repeat constructor.
Qed.

Lemma run_pullOnly nm dir cur a b w :
  ∃ e r,
    run h (pullOnly nm dir cur a b) w = (r, (h _ (GitPull dir) w).2, [Entry (GitPull dir) e])
    ∧ branch r = cur ∧ lockfileChanged r = false ∧ dirty r = false
    ∧ (status r = "failed" ∨ status r = "synced").
Proof.
  unfold pullOnly, Pull. rewrite run_trigger_bind.
  destruct (h _ (GitPull dir) w) as [[e|] w1]; cbn [fst snd]; rewrite run_ret;
    eexists _, _; (split; [reflexivity|]); cbn; auto.
Qed.

(** The rebase of all local branches either stops at the current branch,
    or goes through the other branches, checks the current branch out
    again, and looks at the lockfile and the counts once more. *)
Lemma run_rebaseBranches nm dir cur tb up a b w :
  let lock := filepath_Join [dir; "package-lock.json"] in
  ∃ st brs,
    (∃ e x w',
       run h (rebaseBranches nm dir cur tb up a b) w
       = ({| name := nm; branch := cur; status := "failed";
             message := "rebase " +:+ cur +:+ " onto " +:+ up +:+ " failed";
             ahead := a; behind := b; dirty := false; dirtyStatus := "";
             lockfileChanged := false |}, w',
          [Entry (OsStat lock) st; Entry (CallListLocalBranches dir) brs;
           Entry (GitRebase dir up) (Some e); Entry (GitRebaseAbort dir) x]))
    ∨ (∃ rebased failed tloop w4 x w5 st' w6 ab1 w7,
         Forall (λ en, isLoopEvent en = true) tloop
         ∧ h _ (CallCheckoutQuiet dir cur) w4 = (x, w5)
         ∧ h _ (OsStat lock) w5 = (st', w6)
         ∧ h _ (CallAheadBehind dir cur up) w6 = (ab1, w7)
         ∧ run h (rebaseBranches nm dir cur tb up a b) w
           = ({| name := nm; branch := cur; status := "synced";
                 message := finalMessage rebased failed;
                 ahead := ab1.1; behind := ab1.2; dirty := false; dirtyStatus := "";
                 lockfileChanged :=
                   negb (bool_decide (fingerprint st = fingerprint st')) |}, w7,
              [Entry (OsStat lock) st; Entry (CallListLocalBranches dir) brs;
               Entry (GitRebase dir up) None]
              ++ tloop
              ++ [Entry (CallCheckoutQuiet dir cur) x; Entry (OsStat lock) st';
                  Entry (CallAheadBehind dir cur up) ab1])).
Proof.
  intros lock. unfold rebaseBranches. fold lock.
  unfold ListLocalBranches, RebaseQuiet, RebaseAbortQuiet, CheckoutQuiet, AheadBehind.
  rewrite run_bind, run_fileHash.
  destruct (h _ (OsStat lock) w) as [st w1]. cbn [fst snd].
  rewrite run_trigger_bind.
  destruct (h _ (CallListLocalBranches dir) w1) as [brs w2]. cbn [fst snd].
  exists st, brs.
  rewrite run_trigger_bind.
  destruct (h _ (GitRebase dir up) w2) as [[e|] w3]; cbn [fst snd].
  - left. rewrite run_trigger_bind.
    destruct (h _ (GitRebaseAbort dir) w3) as [x w4]. cbn [fst snd].
    rewrite run_ret. by eexists _, _, _.
  - right. rewrite run_bind.
    pose proof (rebaseOthers_loopEvents dir up cur tb brs [] [] w3) as Hloop.
    destruct (run h (rebaseOthers dir up cur tb brs [] []) w3)
      as [[[rebased failed] w4] tloop].
    unfold trace_of in Hloop. cbn [fst snd] in Hloop.
    rewrite run_trigger_bind.
    destruct (h _ (CallCheckoutQuiet dir cur) w4) as [x w5] eqn:Hco. cbn [fst snd].
    rewrite run_bind, run_fileHash.
    destruct (h _ (OsStat lock) w5) as [st' w6] eqn:Hst. cbn [fst snd].
    rewrite run_trigger_bind.
    destruct (h _ (CallAheadBehind dir cur up) w6) as [[a1 b1] w7] eqn:Hab.
    cbn [fst snd]. rewrite run_ret.
    exists rebased, failed, tloop, w4, x, w5, st', w6, (a1, b1), w7.
    by repeat split.
Qed.

(** *** The dirty working tree *)

(** C2: when the working tree is dirty at sync time (the first
    [git status --short] of the run reports changes), syncRepoFull
    returns status [skipped] with the dirty flag set, nothing in the run
    rebases, aborts, pulls or checks out a branch, and ahead/behind is
    computed exactly once, before that status check, and returned as
    computed. *)
Theorem syncRepoFull_dirty_skipped (fl : flags) (wsPath : string)
    (ws : Workspace) (nm : string) (repo : RepoDef) (dir : string) (w : W)
    (r : repoSyncResult) (w' : W) (tr : list entry) (o : output)
    (rest : list output) :
  run h (syncRepoFull fl wsPath ws nm repo dir) w = (r, w', tr) →
  omap statusOf tr = o :: rest →
  reportsChanges o = true →
  status r = "skipped"
  ∧ dirty r = true
  ∧ lockfileChanged r = false
  ∧ Forall (λ en, changesBranches en = false) tr
  ∧ omap aheadBehindOf tr = [(ahead r, behind r)]
  ∧ ∃ pre post,
      tr = pre ++ Entry (GitStatus dir) o :: post
      ∧ omap statusOf pre = []
      ∧ omap aheadBehindOf post = [].
Proof.
  intros Hrun Hst Hdirty.
  destruct (syncRepoFull_run fl wsPath ws nm repo dir w)
    as (tb & ttb & [a b] & out & w4 & Hq & Heq).
  rewrite Heq in Hrun. clear Heq. cbn zeta in Hrun. cbn [fst snd] in Hrun.
  set (cur := currentBranch h dir w) in *.
  destruct (run h _ w4) as [[r0 w5] t] eqn:Hk. injection Hrun as <- <- <-.
  pose proof (omap_none statusOf _ ttb (λ en Hen, proj1 (proj2 (proj2 (proj2
                (refQuery_quiet en Hen))))) Hq) as Hst_ttb.
  pose proof (omap_none aheadBehindOf _ ttb (λ en Hen, proj1 (proj2 (proj2
                (refQuery_quiet en Hen)))) Hq) as Hab_ttb.
  cbn [omap list_omap statusOf] in Hst.
  rewrite omap_app, Hst_ttb in Hst. cbn [omap list_omap statusOf app] in Hst.
  injection Hst as -> _. rewrite Hdirty in Hk.
  destruct (run_skipDirty nm dir cur a b w4) as (txt & t' & Hsd & Hsq).
  pose proof (omap_none aheadBehindOf _ t' (λ en Hen, proj1 (proj2 (proj2
                (statusQuery_quiet en Hen)))) Hsq) as Hab.
  rewrite Hsd in Hk. injection Hk as <- _ <-. cbn [status dirty lockfileChanged ahead behind].
  repeat split.
  - constructor; [done|]. apply Forall_app. split.
    + eapply Forall_impl; [exact Hq|]. intros en Hen. apply (refQuery_quiet en Hen).
    + constructor; [done|]. constructor; [done|].
      eapply Forall_impl; [exact Hsq|]. intros en Hen. apply (statusQuery_quiet en Hen).
  - cbn [omap list_omap aheadBehindOf]. rewrite omap_app, Hab_ttb.
    cbn [omap list_omap aheadBehindOf app]. by rewrite Hab.
  - exists (Entry (CallGetCurrentBranch dir) cur
              :: ttb ++ [Entry (CallAheadBehind dir cur ("origin/" +:+ tb)) (a, b)]), t'.
    split; [cbn [app]; by rewrite <- app_assoc|]. split; [|done].
    cbn [omap list_omap statusOf]. rewrite omap_app, Hst_ttb. done.
Qed.

(** *** The rebase of the current branch fails *)

(** C6: when the rebase of the current branch onto its upstream fails
    (the first rebase of the run reports an error), that rebase is
    aborted right away, the result has status [failed] and a message that
    names the current branch and the upstream ref, and the run contains
    no other rebase and no checkout at all. *)
Theorem syncRepoFull_current_rebase_fails (fl : flags) (wsPath : string)
    (ws : Workspace) (nm : string) (repo : RepoDef) (dir : string) (w : W)
    (r : repoSyncResult) (w' : W) (tr : list entry)
    (d u : string) (e : error) (rest : list (string * string * option error)) :
  run h (syncRepoFull fl wsPath ws nm repo dir) w = (r, w', tr) →
  omap rebaseOf tr = (d, u, Some e) :: rest →
  status r = "failed"
  ∧ branch r = currentBranch h dir w
  ∧ message r = "rebase " +:+ branch r +:+ " onto " +:+ u +:+ " failed"
  ∧ d = dir
  ∧ rest = []
  ∧ omap checkoutOf tr = []
  ∧ ∃ pre x,
      tr = pre ++ [Entry (GitRebase dir u) (Some e); Entry (GitRebaseAbort dir) x].
Proof.
  intros Hrun Hreb.
  destruct (syncRepoFull_run fl wsPath ws nm repo dir w)
    as (tb & ttb & [a b] & out & w4 & Hq & Heq).
  rewrite Heq in Hrun. clear Heq. cbn zeta in Hrun. cbn [fst snd] in Hrun.
  set (cur := currentBranch h dir w) in *.
  pose proof (omap_none rebaseOf _ ttb (λ en Hen, proj1 (refQuery_quiet en Hen)) Hq)
    as Hreb_ttb.
  pose proof (omap_none checkoutOf _ ttb
                (λ en Hen, proj1 (proj2 (refQuery_quiet en Hen))) Hq) as Hco_ttb.
  destruct (reportsChanges out).
  { (* dirty: no rebase at all *)
    destruct (run_skipDirty nm dir cur a b w4) as (txt & t' & Hsd & Hsq).
    rewrite Hsd in Hrun. injection Hrun as <- _ <-.
    cbn [omap list_omap rebaseOf] in Hreb.
    rewrite omap_app, Hreb_ttb in Hreb. cbn [omap list_omap rebaseOf app] in Hreb.
    by rewrite (omap_none rebaseOf _ t'
                  (λ en Hen, proj1 (statusQuery_quiet en Hen)) Hsq) in Hreb. }
  destruct (syncNoRebase fl).
  { (* pull: no rebase at all *)
    destruct (run_pullOnly nm dir cur a b w4) as (e' & r' & Hp & _).
    rewrite Hp in Hrun. injection Hrun as <- _ <-.
    cbn [omap list_omap rebaseOf] in Hreb.
    rewrite omap_app, Hreb_ttb in Hreb. by cbn [omap list_omap rebaseOf app] in Hreb. }
  destruct (run_rebaseBranches nm dir cur tb ("origin/" +:+ tb) a b w4)
    as (st & brs & [(e' & x & w5 & Hf)|Hs]).
  - rewrite Hf in Hrun. injection Hrun as <- _ <-.
    cbn [omap list_omap rebaseOf] in Hreb.
    rewrite omap_app, Hreb_ttb in Hreb. cbn [omap list_omap rebaseOf app] in Hreb.
    injection Hreb as <- <- <- <-.
    cbn [status branch message]. repeat split.
    + cbn [omap list_omap checkoutOf]. rewrite omap_app, Hco_ttb. done.
    + eexists (Entry (CallGetCurrentBranch dir) cur
                 :: ttb ++ [_; _; _; _]), x.
      cbn [app]. rewrite <- app_assoc. reflexivity.
  - destruct Hs as (rebased & failed & tloop & w5 & x & w6 & st' & w7 & ab1 & w8
                    & _ & _ & _ & _ & Hs).
    rewrite Hs in Hrun. injection Hrun as <- _ <-.
    cbn [omap list_omap rebaseOf] in Hreb.
    rewrite omap_app, Hreb_ttb in Hreb. by cbn [omap list_omap rebaseOf app] in Hreb.
Qed.

(** *** Back to the original branch *)

(** What the code does about the original branch: when the multi-branch
    rebase phase completes (rebase mode and status [synced]), a checkout
    of the branch that was current at the start is issued after all
    rebases, however many of them failed, and nothing after it changes
    branches; its error is ignored.  In an environment that follows
    [gitLaws], whenever that checkout succeeds the checked-out branch at
    the end is the original branch. *)
Theorem syncRepoFull_checks_out_original (fl : flags) (wsPath : string)
    (ws : Workspace) (nm : string) (repo : RepoDef) (dir : string) (w : W)
    (r : repoSyncResult) (w' : W) (tr : list entry) :
  gitLaws h dir →
  run h (syncRepoFull fl wsPath ws nm repo dir) w = (r, w', tr) →
  syncNoRebase fl = false →
  status r = "synced" →
  ∃ pre x post,
    tr = pre ++ Entry (CallCheckoutQuiet dir (currentBranch h dir w)) x :: post
    ∧ Forall (λ en, changesBranches en = false) post
    ∧ (x = None → currentBranch h dir w' = currentBranch h dir w).
Proof.
  intros Hlaws Hrun Hmode Hsynced.
  destruct (syncRepoFull_run fl wsPath ws nm repo dir w)
    as (tb & ttb & [a b] & out & w4 & Hq & Heq).
  rewrite Heq in Hrun. clear Heq. cbn zeta in Hrun. cbn [fst snd] in Hrun.
  set (cur := currentBranch h dir w) in *. rewrite Hmode in Hrun.
  destruct (reportsChanges out).
  { destruct (run_skipDirty nm dir cur a b w4) as (txt & t' & Hsd & Hsq).
    rewrite Hsd in Hrun. injection Hrun as <- _ _. done. }
  destruct (run_rebaseBranches nm dir cur tb ("origin/" +:+ tb) a b w4)
    as (st & brs & [(e' & x & w5 & Hf)|Hs]).
  { rewrite Hf in Hrun. injection Hrun as <- _ _. done. }
  destruct Hs as (rebased & failed & tloop & w5 & x & w6 & st' & w7 & ab1 & w8
                  & Hloop & Hco & Hst & Hab & Hs).
  rewrite Hs in Hrun. injection Hrun as <- <- <-.
  eexists (Entry (CallGetCurrentBranch dir) cur
             :: ttb ++ [_; _] ++ [_; _; _] ++ tloop), x, [_; _].
  split; [|split].
  - cbn [app]. rewrite <- !app_assoc. cbn [app]. reflexivity.
  - by repeat constructor.
  - intros ->. pose proof (checkout_moves h dir Hlaws cur w5 w6 Hco) as Hcur.
    pose proof (stat_keeps h dir Hlaws (filepath_Join [dir; "package-lock.json"]) w6)
      as Hk1.
    rewrite Hst in Hk1. cbn [snd] in Hk1.
    pose proof (aheadBehind_keeps h dir Hlaws cur ("origin/" +:+ tb) w7) as Hk2.
    rewrite Hab in Hk2. cbn [snd] in Hk2. congruence.
Qed.

(** *** The lockfile fingerprint and the install step *)

Lemma syncRepoFull_no_shell fl wsPath ws nm repo dir w :
  omap shellOf (trace_of (run h (syncRepoFull fl wsPath ws nm repo dir) w)) = [].
Proof.
  destruct (syncRepoFull_run fl wsPath ws nm repo dir w)
    as (tb & ttb & [a b] & out & w4 & Hq & ->).
  cbn zeta. cbn [fst snd]. set (cur := currentBranch h dir w).
  pose proof (omap_none shellOf _ ttb
                (λ en Hen, proj1 (proj2 (proj2 (proj2 (proj2 (proj2
                   (refQuery_quiet en Hen))))))) Hq) as Hsh_ttb.
  assert (∀ (r : repoSyncResult) (w' : W) t, omap shellOf t = [] →
            omap shellOf (trace_of (r, w',
              Entry (CallGetCurrentBranch dir) cur
                :: ttb ++ Entry (CallAheadBehind dir cur ("origin/" +:+ tb)) (a, b)
                :: Entry (GitStatus dir) out :: t)) = []) as Hpre.
  { intros r w' t Ht. unfold trace_of. cbn [snd omap list_omap shellOf].
    rewrite omap_app, Hsh_ttb. by cbn [omap list_omap shellOf app]. }
  destruct (reportsChanges out).
  { destruct (run_skipDirty nm dir cur a b w4) as (txt & t' & -> & Hsq).
    apply Hpre. apply (omap_none shellOf isStatusQuery t'); [|done].
    intros en Hen. apply (statusQuery_quiet en Hen). }
  destruct (syncNoRebase fl).
  { destruct (run_pullOnly nm dir cur a b w4) as (e' & r' & -> & _). by apply Hpre. }
  destruct (run_rebaseBranches nm dir cur tb ("origin/" +:+ tb) a b w4)
    as (st & brs & [(e' & x & w5 & ->)|Hs]); [by apply Hpre|].
  destruct Hs as (rebased & failed & tloop & w5 & x & w6 & st' & w7 & ab1 & w8
                  & Hloop & _ & _ & _ & ->).
  apply Hpre. cbn [omap list_omap shellOf app]. rewrite omap_app.
  rewrite (omap_none shellOf isLoopEvent tloop); [done| |done].
  intros en Hen. apply (loopEvent_quiet en Hen).
Qed.

Lemma installChanged_skips wsPath ws wsEnv rs1 r rs2 w1 :
  lockfileChanged r = false →
  run h (installChanged wsPath ws wsEnv (rs1 ++ r :: rs2)) w1
  = run h (installChanged wsPath ws wsEnv (rs1 ++ rs2)) w1.
Proof.
  intros Hr. revert w1. induction rs1 as [|r1 rs1 IH]; intros w1.
  - cbn [app installChanged]. by rewrite Hr.
  - cbn [app installChanged]. destruct (negb (lockfileChanged r1)); [apply IH|].
    rewrite !run_trigger_bind.
    destruct (h _ (OsStat _) w1) as [st w2]. cbn [fst snd].
    destruct (IsNotExist st); [by rewrite IH|].
    rewrite !run_trigger_bind.
    destruct (h _ (RunSyncCmd _ _ _) w2) as [e w3]. cbn [fst snd].
    by rewrite IH.
Qed.

(** C9: if every fingerprint of the lockfile that fileHash takes during a
    run of syncRepoFull is the same, the result has lockfileChanged =
    false; the sync of that one repo then runs no shell command (no npm
    install), and the install phase of the sync of all repos passes over
    that result as if it were not in the list. *)
Theorem syncRepoFull_same_fingerprint (fl : flags) (wsPath : string)
    (ws : Workspace) (nm : string) (repo : RepoDef) (dir : string) (w : W)
    (r : repoSyncResult) (w' : W) (tr : list entry) (fp : string) :
  run h (syncRepoFull fl wsPath ws nm repo dir) w = (r, w', tr) →
  Forall (λ st, fingerprint st = fp)
    (omap (statOf (filepath_Join [dir; "package-lock.json"])) tr) →
  lockfileChanged r = false
  ∧ (∀ w0 st0,
       Repos ws !! nm = Some repo →
       dir = filepath_Join [wsPath; Path repo] →
       h _ (OsStat dir) w0 = (st0, w) →
       omap shellOf (trace_of (run h (syncRepo fl wsPath ws nm) w0)) = [])
  ∧ (∀ wsEnv rs1 rs2 w1,
       run h (installChanged wsPath ws wsEnv (rs1 ++ r :: rs2)) w1
       = run h (installChanged wsPath ws wsEnv (rs1 ++ rs2)) w1).
Proof.
  intros Hrun Hfp.
  assert (lockfileChanged r = false) as Hlock.
  { destruct (syncRepoFull_run fl wsPath ws nm repo dir w)
      as (tb & ttb & [a b] & out & w4 & Hq & Heq).
    rewrite Heq in Hrun. clear Heq. cbn zeta in Hrun. cbn [fst snd] in Hrun.
    set (cur := currentBranch h dir w) in *.
    set (lock := filepath_Join [dir; "package-lock.json"]) in *.
    destruct (reportsChanges out).
    { destruct (run_skipDirty nm dir cur a b w4) as (txt & t' & Hsd & Hsq).
      rewrite Hsd in Hrun. by injection Hrun as <- _ _. }
    destruct (syncNoRebase fl).
    { destruct (run_pullOnly nm dir cur a b w4) as (e' & r' & Hp & _ & Hl & _).
      rewrite Hp in Hrun. by injection Hrun as <- _ _. }
    destruct (run_rebaseBranches nm dir cur tb ("origin/" +:+ tb) a b w4)
      as (st & brs & [(e' & x & w5 & Hf)|Hs]).
    { rewrite Hf in Hrun. by injection Hrun as <- _ _. }
    destruct Hs as (rebased & failed & tloop & w5 & x & w6 & st' & w7 & ab1 & w8
                    & Hloop & _ & _ & _ & Hs).
    fold lock in Hs. rewrite Hs in Hrun. injection Hrun as <- _ <-.
    cbn [lockfileChanged].
    cbn [omap list_omap statOf] in Hfp.
    rewrite omap_app in Hfp.
    rewrite (omap_none (statOf lock) isRefQuery ttb) in Hfp; [| |done].
    2:{ intros en Hen. apply (refQuery_quiet en Hen). }
    cbn [omap list_omap statOf app] in Hfp.
    destruct (decide (lock = lock)) as [_|]; [|done].
    rewrite omap_app in Hfp.
    rewrite (omap_none (statOf lock) isLoopEvent tloop) in Hfp; [| |done].
    2:{ intros en Hen. apply (loopEvent_quiet en Hen). }
    cbn [omap list_omap statOf app] in Hfp.
    destruct (decide (lock = lock)) as [_|]; [|done].
    apply Forall_cons in Hfp as [H1 Hfp]. apply Forall_cons in Hfp as [H2 _].
    rewrite bool_decide_eq_true_2 by congruence. done. }
  split; [done|]. split.
  - intros w0 st0 Hrepo Hdir Hstat. unfold syncRepo. rewrite Hrepo.
    rewrite run_trigger_bind. rewrite <- Hdir, Hstat. cbn [fst snd].
    destruct (IsNotExist st0); [by rewrite run_ret|].
    rewrite run_bind, Hrun. rewrite Hlock, andb_false_r.
    rewrite run_bind, run_ret. rewrite run_bind.
    pose proof (syncRepoFull_no_shell fl wsPath ws nm repo dir w) as Hsh.
    rewrite Hrun in Hsh. unfold trace_of in Hsh. cbn [snd] in Hsh.
    destruct (existsb _ cdkLambdaMappings).
    + rewrite run_trigger. rewrite run_ret. unfold trace_of.
      cbn [fst snd omap list_omap shellOf app]. rewrite omap_app, Hsh. done.
    + rewrite !run_ret. unfold trace_of.
      cbn [fst snd omap list_omap shellOf app]. rewrite omap_app, Hsh. done.
  - intros wsEnv rs1 rs2 w1. by apply installChanged_skips.
Qed.

End SyncRepoFull.

(* ===================================================================== *)
(** ** Link reconciliation                                                *)
(* ===================================================================== *)

Section AutoLink.
Import workspace Resolver GoStrings Effects npm runcmd SyncSpec.
Context `{GoLib} {W : Type} (h : handler W).
Context (modelDir apiDir pkgName : string).
Hypothesis laws : npmLaws h modelDir apiDir pkgName.

(** What IsBuilt answers in a world, read off the two stat answers. *)
Lemma run_IsBuilt dir w :
  let buildDir := filepath_Join [dir; SmithyBuildPath] in
  ∃ t,
    run h (IsBuilt dir) w
    = (match (h _ (OsStat (filepath_Join [buildDir; "package.json"])) w).1,
             (h _ (OsStat (filepath_Join [buildDir; "dist-types"])) w).1 with
       | StatOk _, StatOk _ => true
       | _, _ => false
       end, w, t)
    ∧ existsb isLinkOp t = false.
Proof.
  intros buildDir. unfold IsBuilt. fold buildDir. rewrite run_trigger_bind.
  pose proof (stat_pure h _ _ _ laws (filepath_Join [buildDir; "package.json"]) w) as Hp1.
  destruct (h _ (OsStat (filepath_Join [buildDir; "package.json"])) w) as [st1 w1].
  cbn [fst snd] in *. subst w1.
  destruct st1 as [info1| |e1]; try (rewrite run_ret; by eexists).
  rewrite run_trigger_bind.
  pose proof (stat_pure h _ _ _ laws (filepath_Join [buildDir; "dist-types"]) w) as Hp2.
  destruct (h _ (OsStat (filepath_Join [buildDir; "dist-types"])) w) as [st2 w2].
  cbn [fst snd] in *. subst w2.
  destruct st2 as [info2| |e2]; rewrite run_ret; by eexists.
Qed.

Lemma run_IsLinked dir pkg w :
  run h (IsLinked dir pkg) w
  = (match (h _ (OsLstat (filepath_Join [dir; "node_modules"; pkg])) w).1 with
     | StatOk info => IsSymlink info
     | _ => false
     end, w,
     [Entry (OsLstat (filepath_Join [dir; "node_modules"; pkg]))
        (h _ (OsLstat (filepath_Join [dir; "node_modules"; pkg])) w).1]).
Proof.
  unfold IsLinked. rewrite run_trigger_bind.
  pose proof (lstat_pure h _ _ _ laws (filepath_Join [dir; "node_modules"; pkg]) w) as Hp.
  destruct (h _ (OsLstat _) w) as [st w1]. cbn [fst snd] in *. subst w1.
  destruct st; by rewrite run_ret.
Qed.

Lemma run_Print {A} s (k : unit → Prog A) w :
  run h (trigger (Print s) ≫= k) w
  = let '(a, w', t) := run h (k ()) w in (a, w', Entry (Print s) () :: t).
Proof.
  rewrite run_trigger_bind. pose proof (print_pure h _ _ _ laws s w) as Hp.
  destruct (h _ (Print s) w) as [[] w1]. cbn [fst snd] in *. by subst w1.
Qed.

(** C7: if a call of autoLinkDeps performs the link transition and
    returns without error, then a second call in the world that the first
    one left behind finds the consumer already linked: it reports
    [Using local ... (already linked)], returns without error, performs
    no link operation and leaves the world as it is. *)
Theorem autoLinkDeps_idempotent (wsPath : string) (ws : Workspace) (nm : string)
    (w w1 : W) (err1 : option error) (tr1 : list entry) :
  linkTarget wsPath ws nm = Some (modelDir, apiDir, pkgName) →
  run h (autoLinkDeps wsPath ws nm) w = (err1, w1, tr1) →
  err1 = None →
  existsb isLinkOp tr1 = true →
  ∃ modelName tr2,
    apiToModel !! nm = Some modelName
    ∧ run h (autoLinkDeps wsPath ws nm) w1 = (None, w1, tr2)
    ∧ existsb isLinkOp tr2 = false
    ∧ last tr2
      = Some (Entry (Print ("Using local " +:+ modelName +:+ " (already linked)"
                            +:+ nl)) ()).
Proof.
  intros Htarget Hrun -> Hlinked. unfold autoLinkDeps, linkTarget in *.
  destruct (apiToModel !! nm) as [modelName|]; [|by cbn in Htarget].
  cbn [mbind option_bind] in Htarget.
  destruct (Repos ws !! modelName) as [modelRepo|]; [|by cbn in Htarget].
  cbn [mbind option_bind] in Htarget. injection Htarget as Hm Ha Hp.
  rewrite Hm, Ha, Hp in *. clear Hm Ha Hp.
  exists modelName.
  set (pj := filepath_Join [filepath_Join [modelDir; SmithyBuildPath]; "package.json"]) in *.
  set (dt := filepath_Join [filepath_Join [modelDir; SmithyBuildPath]; "dist-types"]) in *.
  assert (pj ∈ artifacts modelDir) as Hpj_art by (unfold artifacts; set_solver).
  assert (dt ∈ artifacts modelDir) as Hdt_art by (unfold artifacts; set_solver).
  (* the first call *)
  rewrite run_bind in Hrun.
  destruct (run_IsBuilt modelDir w) as (tb1 & Hb1 & Hq1). rewrite Hb1 in Hrun.
  fold pj dt in Hrun.
  destruct ((h _ (OsStat pj) w).1) as [i1| |] eqn:Hpj.
  2,3: cbn [negb] in Hrun; rewrite run_Print, run_ret in Hrun;
       simplify_eq; rewrite existsb_app, Hq1 in Hlinked; done.
  destruct ((h _ (OsStat dt) w).1) as [i2| |] eqn:Hdt.
  2,3: cbn [negb] in Hrun; rewrite run_Print, run_ret in Hrun;
       simplify_eq; rewrite existsb_app, Hq1 in Hlinked; done.
  cbn [negb] in Hrun. rewrite run_bind, run_IsLinked in Hrun.
  destruct (match (h _ (OsLstat _) w).1 with
            | StatOk info => IsSymlink info
            | _ => false
            end).
  { rewrite run_Print, run_ret in Hrun. simplify_eq.
    rewrite existsb_app, Hq1 in Hlinked. done. }
  rewrite run_Print in Hrun. unfold Link, LinkPackage in Hrun.
  rewrite run_trigger_bind in Hrun.
  pose proof (link_keeps_artifacts h _ _ _ laws (BuildOutputDir modelDir) pj w Hpj_art)
    as Hk1p.
  pose proof (link_keeps_artifacts h _ _ _ laws (BuildOutputDir modelDir) dt w Hdt_art)
    as Hk1d.
  destruct (h _ (NpmLink (BuildOutputDir modelDir)) w) as [[e1|] wa];
    cbn [fst snd] in *.
  { rewrite run_ret in Hrun. by injection Hrun. }
  rewrite run_trigger_bind in Hrun.
  pose proof (linkPackage_keeps_artifacts h _ _ _ laws pj wa Hpj_art) as Hk2p.
  pose proof (linkPackage_keeps_artifacts h _ _ _ laws dt wa Hdt_art) as Hk2d.
  pose proof (linkPackage_links h _ _ _ laws wa) as Hl.
  destruct (h _ (NpmLinkPackage apiDir pkgName) wa) as [[e2|] wb];
    cbn [fst snd] in *.
  { rewrite run_ret in Hrun. by injection Hrun. }
  rewrite run_Print, run_ret in Hrun. injection Hrun as <- _.
  destruct (Hl wb eq_refl) as (info & Hinfo & Hsym).
  (* the second call *)
  rewrite run_bind.
  destruct (run_IsBuilt modelDir wb) as (tb2 & Hb2 & Hq2). rewrite Hb2.
  fold pj dt. rewrite Hk2p, Hk2d, Hk1p, Hk1d, Hpj, Hdt. cbn [negb].
  rewrite run_bind, run_IsLinked. rewrite Hinfo, Hsym.
  rewrite run_Print, run_ret.
  eexists. split; [done|]. split; [reflexivity|]. split.
  - rewrite existsb_app, Hq2. done.
  - by rewrite app_assoc, last_snoc.
Qed.

End AutoLink.

(* ===================================================================== *)
(** ** The commands in the simulated environment                          *)
(* ===================================================================== *)

Section Simulated.
Import workspace Resolver Effects synccmd SyncSpec.

Lemma Sim_gitLaws dir : gitLaws Sim.handle dir.
Proof.
  split.
  - intros b w w'. unfold currentBranch. cbn.
    destruct (Sim.unmerged w); [done|].
    destruct (bool_decide (b ∈ Sim.localBranches w)); [|done].
    by intros [= <-].
  - done.
  - done.
Qed.

Lemma Sim_npmLaws :
  npmLaws (H := Sim.lib) Sim.handle "/ws/AppModel" "/ws/AppAPI" "@spark-rewards/sra-sdk".
Proof.
  split; try done.
  - intros p w Hp. cbn. unfold artifacts in Hp.
    apply elem_of_cons in Hp as [->|Hp]; [done|].
    apply elem_of_cons in Hp as [->|Hp]; [done|].
    by apply elem_of_nil in Hp.
  - intros w w' [= <-]. exists Sim.symlink. by split.
Qed.

Example sync_clean :
  status (result_of (Sim.syncAppAPI Sim.clean)) = "synced"
  ∧ message (result_of (Sim.syncAppAPI Sim.clean)) = "+1 branches rebased"
  ∧ Sim.head (world_of (Sim.syncAppAPI Sim.clean)) = "main".
Proof. by vm_compute. Qed.

Lemma syncRepoFull_dirty_skipped_sim :
  status (result_of (Sim.syncAppAPI Sim.dirtyTree)) = "skipped"
  ∧ dirty (result_of (Sim.syncAppAPI Sim.dirtyTree)) = true
  ∧ omap aheadBehindOf (trace_of (Sim.syncAppAPI Sim.dirtyTree)) = [(0, 2)].
Proof.
  destruct (syncRepoFull_dirty_skipped (H := Sim.lib) Sim.handle Sim.rebaseFlags
              "/ws" Sim.ws "AppAPI" Sim.apiRepo "/ws/AppAPI" Sim.dirtyTree
              (result_of (Sim.syncAppAPI Sim.dirtyTree))
              (world_of (Sim.syncAppAPI Sim.dirtyTree))
              (trace_of (Sim.syncAppAPI Sim.dirtyTree))
              (Out " M src/index.ts") [])
    as (H1 & H2 & _ & _ & H5 & _);
    [vm_compute; reflexivity..|].
  split; [exact H1|]. split; [exact H2|]. exact H5.
Defined.

Lemma syncRepoFull_current_rebase_fails_sim :
  status (result_of (Sim.syncAppAPI Sim.conflictOnMain)) = "failed"
  ∧ message (result_of (Sim.syncAppAPI Sim.conflictOnMain))
    = "rebase main onto origin/main failed"
  ∧ omap checkoutOf (trace_of (Sim.syncAppAPI Sim.conflictOnMain)) = [].
Proof.
  destruct (syncRepoFull_current_rebase_fails (H := Sim.lib) Sim.handle Sim.rebaseFlags
              "/ws" Sim.ws "AppAPI" Sim.apiRepo "/ws/AppAPI" Sim.conflictOnMain
              (result_of (Sim.syncAppAPI Sim.conflictOnMain))
              (world_of (Sim.syncAppAPI Sim.conflictOnMain))
              (trace_of (Sim.syncAppAPI Sim.conflictOnMain))
              "/ws/AppAPI" "origin/main" "could not apply" [])
    as (H1 & _ & H3 & _ & _ & H6 & _);
    [vm_compute; reflexivity..|].
  split; [exact H1|]. split; [exact H3|]. exact H6.
Defined.

(** C3: the multi-branch rebase phase can complete without the original
    branch being checked out again.  [feature] conflicts and the abort
    of its rebase fails too, so the checkout of [main] that follows the
    loop is refused; syncRepoFull drops that error, and the run
    completes with status [synced] on [feature]. *)
Theorem syncRepoFull_branch_not_restored :
  syncNoRebase Sim.rebaseFlags = false
  ∧ status (result_of (Sim.syncAppAPI Sim.stuckOnFeature)) = "synced"
  ∧ currentBranch Sim.handle "/ws/AppAPI" Sim.stuckOnFeature = "main"
  ∧ currentBranch Sim.handle "/ws/AppAPI"
      (world_of (Sim.syncAppAPI Sim.stuckOnFeature)) = "feature"
  ∧ last (omap checkoutOf (trace_of (Sim.syncAppAPI Sim.stuckOnFeature)))
    = Some ("/ws/AppAPI", "main",
            Some "you need to resolve your current index first").
Proof. by vm_compute. Qed.

(** C8: without overrides the target branch is not always the default
    branch that the remote advertises.  origin/HEAD resolves to
    [refs/remotes/origin/release/1.0]; GetDefaultBranch keeps only what
    follows the last ['/'], so the target is [1.0], a branch that the
    remote does not have, and syncRepoFull rebases onto [origin/1.0]. *)
Theorem getTargetBranch_slash_in_default :
  firstNonEmpty [syncBranch Sim.rebaseFlags;
                 from_option repo_DefaultBranch "" (Some Sim.apiRepo);
                 DefaultBranch Sim.ws] = None
  ∧ Sim.originHEAD SimMore.onRelease = Some "release/1.0"
  ∧ run Sim.handle
      (getTargetBranch (H := Sim.lib) Sim.rebaseFlags Sim.ws (Some Sim.apiRepo)
         "/ws/AppAPI") SimMore.onRelease
    = ("1.0", SimMore.onRelease,
       [Entry (GitSymbolicRef "/ws/AppAPI")
          (Out ("refs/remotes/origin/release/1.0" +:+ String "010" ""))])
  ∧ ("1.0" ∉ Sim.remoteBranches SimMore.onRelease)
  ∧ map fst (omap rebaseOf (trace_of (Sim.syncAppAPI SimMore.onRelease)))
    = [("/ws/AppAPI", "origin/1.0"); ("/ws/AppAPI", "origin/1.0")].
Proof.
  split; [by vm_compute|]. split; [done|]. split; [by vm_compute|].
  split; [|by vm_compute]. apply (bool_decide_unpack _). by vm_compute.
Qed.

Lemma syncRepoFull_checks_out_original_sim :
  currentBranch Sim.handle "/ws/AppAPI"
    (world_of (Sim.syncAppAPI Sim.conflictOnFeature)) = "main"
  ∧ message (result_of (Sim.syncAppAPI Sim.conflictOnFeature))
    = "1 branch rebase(s) failed: feature".
Proof.
  destruct (syncRepoFull_checks_out_original (H := Sim.lib) Sim.handle Sim.rebaseFlags
              "/ws" Sim.ws "AppAPI" Sim.apiRepo "/ws/AppAPI" Sim.conflictOnFeature
              (result_of (Sim.syncAppAPI Sim.conflictOnFeature))
              (world_of (Sim.syncAppAPI Sim.conflictOnFeature))
              (trace_of (Sim.syncAppAPI Sim.conflictOnFeature)))
    as (pre & x & post & Htr & Hpost & Hback);
    [apply Sim_gitLaws|vm_compute; reflexivity..|].
  split; [|vm_compute; reflexivity].
  rewrite Hback; [vm_compute; reflexivity|].
  (* the checkout recorded in the trace succeeded *)
  assert (last (omap checkoutOf (trace_of (Sim.syncAppAPI Sim.conflictOnFeature)))
          = Some ("/ws/AppAPI", "main", None)) as Hlast by (vm_compute; reflexivity).
  rewrite Htr, omap_app in Hlast. cbn [omap list_omap checkoutOf] in Hlast.
  rewrite (omap_none checkoutOf (λ en, negb (changesBranches en)) post) in Hlast.
  - rewrite last_snoc in Hlast. by injection Hlast.
  - intros [X e y]. by destruct e.
  - eapply Forall_impl; [exact Hpost|]. intros en ->. done.
Defined.

Example sync_lockfile_bumped :
  lockfileChanged (result_of (Sim.syncAppAPI Sim.lockfileBumped)) = true
  ∧ omap shellOf (trace_of (Sim.syncOne Sim.lockfileBumped))
    = [("/ws/AppAPI", "npm install")].
Proof. by vm_compute. Qed.

Example syncAll_clean :
  result_of (Sim.syncAll [] Sim.clean) = None
  ∧ omap shellOf (trace_of (Sim.syncAll [] Sim.clean)) = []
  ∧ map fst (omap rebaseOf (trace_of (Sim.syncAll [] Sim.clean)))
    = [("/ws/AppAPI", "origin/main"); ("/ws/AppAPI", "origin/main");
       ("/ws/AppModel", "origin/main"); ("/ws/AppModel", "origin/main")].
Proof. by vm_compute. Qed.

Lemma syncRepoFull_same_fingerprint_sim :
  lockfileChanged (result_of (Sim.syncAppAPI Sim.clean)) = false
  ∧ omap shellOf (trace_of (Sim.syncOne Sim.clean)) = [].
Proof.
  destruct (syncRepoFull_same_fingerprint (H := Sim.lib) Sim.handle Sim.rebaseFlags
              "/ws" Sim.ws "AppAPI" Sim.apiRepo "/ws/AppAPI" Sim.clean
              (result_of (Sim.syncAppAPI Sim.clean))
              (world_of (Sim.syncAppAPI Sim.clean))
              (trace_of (Sim.syncAppAPI Sim.clean))
              "1200-1700000000")
    as (H1 & H2 & _).
  - vm_compute; reflexivity.
  - vm_compute. by repeat constructor.
  - split; [exact H1|].
    apply (H2 Sim.clean (StatOk (Sim.regular 4096 1690000000)));
      vm_compute; reflexivity.
Defined.

Lemma autoLinkDeps_idempotent_sim :
  ∃ tr2,
    Sim.linkAppAPI (world_of (Sim.linkAppAPI Sim.builtModel))
    = (None, world_of (Sim.linkAppAPI Sim.builtModel), tr2)
    ∧ existsb isLinkOp tr2 = false.
Proof.
  destruct (autoLinkDeps_idempotent (H := Sim.lib) Sim.handle
              "/ws/AppModel" "/ws/AppAPI" "@spark-rewards/sra-sdk" Sim_npmLaws
              "/ws" Sim.ws "AppAPI" Sim.builtModel
              (world_of (Sim.linkAppAPI Sim.builtModel))
              (result_of (Sim.linkAppAPI Sim.builtModel))
              (trace_of (Sim.linkAppAPI Sim.builtModel)))
    as (m & tr2 & _ & Hrun & Hq & _);
    [vm_compute; reflexivity..|].
  exists tr2. split; [exact Hrun|exact Hq].
Defined.

End Simulated.

(* ===================================================================== *)
(** ** The resolver returns the transitive closure                        *)
(* ===================================================================== *)

Section ResolverClosure.
Import workspace Resolver ResolverSpec ResolverGraph.
Variable ws : Workspace.

(** A loop invariant [I] together with a fact [Q x] established by the
    iteration for [x] and kept by the later ones. *)
Lemma forEach_elements {A S} (I : S → Prop) (Q : A → S → Prop)
    (body : S → A → option S) l st r :
  (∀ st x r, x ∈ l → I st → body st x = Some r → I r ∧ Q x r) →
  (∀ st x y r, x ∈ l → I st → Q y st → body st x = Some r → Q y r) →
  I st → forEach body l st = Some r →
  I r ∧ (∀ x, x ∈ l → Q x r) ∧ (∀ y, Q y st → Q y r).
Proof.
  revert st. induction l as [|x l IH]; intros st Hstep Hkeep HI; simpl.
  - intros [= <-]. split; [done|]. split; [|done].
    intros x Hx. by apply elem_of_nil in Hx.
  - destruct (body st x) as [st1|] eqn:Hb; simpl; [|done]. intros Hl.
    destruct (Hstep _ _ _ (list_elem_of_here _ _) HI Hb) as [HI1 HQ1].
    destruct (IH st1) as (HIr & HQr & Hmono); [| |done|done|].
    + intros st' y r' Hy. apply Hstep. by apply list_elem_of_further.
    + intros st' y z r' Hy. apply Hkeep. by apply list_elem_of_further.
    + split; [done|]. split.
      * intros y Hy. apply elem_of_cons in Hy as [->|Hy]; [by apply Hmono|by apply HQr].
      * intros y Hy. apply Hmono.
        exact (Hkeep st x y st1 (list_elem_of_here _ _) HI Hy Hb).
Qed.

(** *** Soundness: only reachable names are visited and collected *)

Lemma collectBody_sound root (self : string → walk → option walk) n st r :
  (∀ n st r, reachable ws root n → sound ws root st → self n st = Some r →
             sound ws root r) →
  reachable ws root n → sound ws root st →
  collectBody ws self n st = Some r → sound ws root r.
Proof.
  intros Hself Hn Hst. unfold collectBody.
  destruct (decide (n ∈ seen st)); [by intros [= <-]|].
  set (st0 := {| seen := {[n]} ∪ seen st; deps := deps st |}).
  assert (sound ws root st0) as H0.
  { destruct Hst as [Hs Hd]. split; [|done]. intros m Hm. cbn in Hm.
    apply elem_of_union in Hm as [Hm|Hm]; [|by apply Hs].
    by apply elem_of_singleton in Hm as ->. }
  destruct (match apiToModel !! n with
            | Some modelName => _
            | None => _
            end) as [st1|] eqn:H1; simpl; [|done].
  assert (sound ws root st1) as Hs1.
  { destruct (apiToModel !! n) as [modelName|] eqn:Hapi; [|by simplify_eq].
    destruct (Repos ws !! modelName) eqn:Hm; [|by simplify_eq].
    assert (reachable ws root modelName) as Hreach.
    { eapply rtc_r; [exact Hn|]. left. split; [done|]. by eexists. }
    destruct (self modelName st0) as [st'|] eqn:Hs; simpl in H1; [|done].
    simplify_eq. destruct (Hself _ _ _ Hreach H0 Hs) as [Hs' Hd']. split; [done|].
    intros d Hd. cbn in Hd. apply elem_of_app in Hd as [Hd|Hd]; [by apply Hd'|].
    by apply list_elem_of_singleton in Hd as ->. }
  destruct (Repos ws !! n) as [repo|] eqn:Hrepo; [|by intros [= <-]].
  intros Hloop.
  refine (proj1 (forEach_elements (sound ws root) (λ _ _, True) _ _ _ _ _ _ Hs1 Hloop));
    [|done].
  intros st' dep r' Hdep Hs'. split; [|done].
  destruct (Repos ws !! dep) eqn:Hd; [|by simplify_eq].
  assert (reachable ws root dep) as Hreach.
  { eapply rtc_r; [exact Hn|]. right. exists repo. by eauto. }
  destruct (self dep st') as [st2|] eqn:Hs; simpl in *; [|done].
  destruct (Hself _ _ _ Hreach Hs' Hs) as [Hs2 Hd2].
  destruct (containsRun (deps st2) dep); simplify_eq; [done|].
  split; [done|]. intros d Hin. cbn in Hin.
  apply elem_of_app in Hin as [Hin|Hin]; [by apply Hd2|].
  by apply list_elem_of_singleton in Hin as ->.
Qed.

Lemma collect_sound root fuel n st r :
  reachable ws root n → sound ws root st →
  collect ws fuel n st = Some r → sound ws root r.
Proof.
  revert n st r. induction fuel as [|fuel IH]; intros n st r; [done|].
  apply collectBody_sound. apply IH.
Qed.

(** *** Completeness: what is visited is closed under the edges *)

Lemma listed_weaken (open open' : gset string) st :
  open ⊆ open' → listed open st → listed open' st.
Proof. intros Hsub Hl m Hm Hno. apply Hl; [done|]. set_solver. Qed.

Lemma collectBody_complete (self : string → walk → option walk) open n st r :
  (∀ open n st r, closed ws open st → listed open st → self n st = Some r →
                  visits ws open n st r) →
  closed ws open st → listed open st →
  collectBody ws self n st = Some r → visits ws open n st r.
Proof.
  intros Hself Hcl Hli. unfold collectBody.
  destruct (decide (n ∈ seen st)) as [Hin|Hnot].
  { intros [= <-]. repeat split; try done.
    eapply listed_weaken; [|done]. set_solver. }
  set (st0 := {| seen := {[n]} ∪ seen st; deps := deps st |}).
  set (open' := open ∪ {[n]}).
  assert (closed ws open' st0) as Hcl0.
  { intros m Hm Hno s Hs. cbn in *.
    assert (m ∈ seen st) by set_solver. assert (m ∉ open) by set_solver.
    apply elem_of_union_r. by eapply Hcl. }
  assert (listed open' st0) as Hli0.
  { intros m Hm Hno. cbn in *. apply Hli; set_solver. }
  destruct (match apiToModel !! n with
            | Some modelName => _
            | None => _
            end) as [st1|] eqn:H1; simpl; [|done].
  assert (seen st0 ⊆ seen st1 ∧ (∀ d, d ∈ deps st0 → d ∈ deps st1)
          ∧ closed ws open' st1 ∧ listed open' st1
          ∧ (∀ m, apiToModel !! n = Some m → is_Some (Repos ws !! m) → m ∈ seen st1))
    as (Hsub1 & Hdep1 & Hcl1 & Hli1 & Himp).
  { destruct (apiToModel !! n) as [modelName|] eqn:Hapi; [|by simplify_eq].
    destruct (Repos ws !! modelName) eqn:Hm.
    2:{ simplify_eq. repeat split; try done. intros m [= <-] [? ?]. congruence. }
    destruct (self modelName st0) as [st'|] eqn:Hs; simpl in H1; [|done].
    simplify_eq.
    destruct (Hself _ _ _ _ Hcl0 Hli0 Hs) as (Hsub & Hdep & Hmem & Hcl' & Hli').
    cbn [seen deps]. repeat split; try done.
    - intros d Hd. apply elem_of_app. left. by apply Hdep.
    - intros m Hm' Hno. cbn [seen deps] in *. apply elem_of_app.
      destruct (decide (m = modelName)) as [->|Hne].
      + right. by apply list_elem_of_singleton.
      + left. apply Hli'; [done|]. set_solver.
    - by intros m [= <-] _. }
  assert (n ∈ seen st1) as Hn1 by (apply Hsub1; cbn; set_solver).
  assert (seen st ⊆ seen st1) as Hsub01 by (cbn in Hsub1; set_solver).
  destruct (Repos ws !! n) as [repo|] eqn:Hrepo.
  2:{ intros [= <-]. repeat split; try done.
      intros m Hm Hno s Hs.
      destruct (decide (m = n)) as [->|Hne]; [|apply (Hcl1 m); set_solver].
      destruct Hs as [[Hapi Hex]|(repo & Hr & _)]; [by apply Himp|congruence]. }
  intros Hloop.
  set (I := λ s : walk, seen st1 ⊆ seen s ∧ (∀ d, d ∈ deps st1 → d ∈ deps s)
                        ∧ closed ws open' s ∧ listed open' s).
  set (Q := λ (dep : string) (s : walk), is_Some (Repos ws !! dep) → dep ∈ seen s).
  edestruct (forEach_elements I Q) as ((Hsubr & Hdepr & Hclr & Hlir) & Hall & _);
    [| | |exact Hloop|].
  - (* one iteration *)
    intros st' dep r' _ HI Hb. unfold I, Q in *.
    destruct HI as (Hs' & Hd' & Hcl' & Hli').
    destruct (Repos ws !! dep) eqn:Hd.
    2:{ simplify_eq. split; [done|]. by intros [? ?]. }
    destruct (self dep st') as [st2|] eqn:Hs; simpl in Hb; [|done].
    destruct (Hself _ _ _ _ Hcl' Hli' Hs) as (Hsub2 & Hdep2 & Hmem2 & Hcl2 & Hli2).
    destruct (containsRun (deps st2) dep) eqn:Hc; simplify_eq.
    + apply containsRun_elem in Hc. repeat split; try done; [set_solver|auto|].
      intros m Hm Hno. destruct (decide (m = dep)) as [->|Hne]; [done|].
      apply Hli2; [done|]. set_solver.
    + cbn [seen deps]. repeat split; try done; [set_solver| |].
      * intros d Hd0. apply elem_of_app. left. auto.
      * intros m Hm Hno. cbn [seen deps] in *. apply elem_of_app.
        destruct (decide (m = dep)) as [->|Hne].
        -- right. by apply list_elem_of_singleton.
        -- left. apply Hli2; [done|]. set_solver.
  - (* what an iteration found stays found *)
    intros st' x y r' _ HI HQ Hb. unfold I, Q in *.
    destruct HI as (Hs' & Hd' & Hcl' & Hli').
    intros Hex. specialize (HQ Hex).
    destruct (Repos ws !! x) eqn:Hd; [|by simplify_eq].
    destruct (self x st') as [st2|] eqn:Hs; simpl in Hb; [|done].
    destruct (Hself _ _ _ _ Hcl' Hli' Hs) as (Hsub2 & _).
    destruct (containsRun (deps st2) x); simplify_eq; cbn [seen]; set_solver.
  - unfold I. by repeat split.
  - repeat split; try done; [set_solver|auto|set_solver|].
    intros m Hm Hno s Hs.
    destruct (decide (m = n)) as [->|Hne]; [|apply (Hclr m); set_solver].
    destruct Hs as [[Hapi Hex]|(repo' & Hr & Hin & Hex)].
    + apply Hsubr. by apply Himp.
    + assert (repo' = repo) as -> by congruence. by apply Hall.
Qed.

Lemma collect_complete fuel open n st r :
  closed ws open st → listed open st →
  collect ws fuel n st = Some r → visits ws open n st r.
Proof.
  revert open n st r. induction fuel as [|fuel IH]; intros open n st r; [done|].
  apply collectBody_complete. apply IH.
Qed.

Lemma closed_reachable st n m :
  closed ws ∅ st → n ∈ seen st → reachable ws n m → m ∈ seen st.
Proof.
  intros Hcl Hn Hreach. induction Hreach as [|x y z Hxy _ IH]; [done|].
  apply IH. by apply (Hcl x).
Qed.

(** X1: The resolver returns exactly the repos that can be reached from the
    target along declared and implicit edges, the target apart. *)
Theorem getDepsForRun_transitive_closure (name d : string) :
  d ∈ getDepsForRun ws name ↔ d ≠ name ∧ reachable ws name d.
Proof.
  pose proof (getDepsForRun_terminates ws name) as Ht.
  unfold getDepsForRun_fuel in Ht.
  destruct (collect ws _ name _) as [st|] eqn:Hc; simpl in Ht; [|done].
  injection Ht as <-. rewrite list_elem_of_In, filter_In, <- list_elem_of_In.
  rewrite negb_true_iff, bool_decide_eq_false. split.
  - intros [Hin Hne]. split; [done|].
    eapply (collect_sound name) in Hc as [_ Hd]; [by apply Hd|done|].
    split; intros m Hm; [set_solver|by apply elem_of_nil in Hm].
  - intros [Hne Hreach]. split; [|done].
    apply (collect_complete _ ∅) in Hc as (_ & _ & Hroot & Hcl & Hli).
    + apply Hli; [|set_solver]. by eapply closed_reachable.
    + intros m Hm. set_solver.
    + intros m Hm. set_solver.
Qed.

(** *** Build order *)

Lemma ordered_snoc l x :
  ordered ws l →
  (x ∈ l ∨ (¬ onCycle ws x → ∀ s, edge ws x s → s ∈ l)) →
  ordered ws (l ++ [x]).
Proof.
  intros Hord Hx l1 d l2 Heq Hfirst Hcyc s Hs.
  destruct l2 as [|y l2 _] using rev_ind.
  - apply app_inj_tail in Heq as [-> ->].
    destruct Hx as [Hx|Hx]; [done|by apply Hx].
  - rewrite app_comm_cons, app_assoc in Heq.
    apply app_inj_tail in Heq as [-> ->]. by eapply Hord.
Qed.

Lemma reach_back_cycle g n x :
  reachable ws g n → edge ws n x → edge ws x g → onCycle ws x.
Proof.
  intros Hgn Hnx Hxg. unfold onCycle.
  eapply tc_l; [exact Hxg|]. eapply tc_rtc_l; [exact Hgn|]. by apply tc_once.
Qed.

(** After the call for a successor [x] of [n], appending [x] keeps the
    order: either [x] lies on a cycle, or all its successors are listed. *)
Lemma visited_successors_listed open n x st r :
  (∀ g, g ∈ open → reachable ws g n) → edge ws n x →
  visits ws (open ∪ {[n]}) x st r →
  ¬ onCycle ws x → ∀ s, edge ws x s → s ∈ deps r.
Proof.
  intros Hopen Hnx (_ & _ & Hmem & Hcl & Hli) Hcyc s Hs.
  assert (∀ g, g ∈ open ∪ {[n]} → reachable ws g n) as Hopen'.
  { intros g Hg. apply elem_of_union in Hg as [Hg|Hg]; [by apply Hopen|].
    apply elem_of_singleton in Hg as ->. apply rtc_refl. }
  assert (∀ g, g ∈ open ∪ {[n]} → ¬ edge ws x g) as Hback.
  { intros g Hg Hxg. apply Hcyc. eapply reach_back_cycle; eauto. }
  assert (x ∉ open ∪ {[n]}) as Hx.
  { intros Hg. apply Hcyc. unfold onCycle.
    eapply tc_rtc_l; [apply (Hopen' _ Hg)|]. by apply tc_once. }
  apply Hli; [by apply (Hcl x)|].
  intros Hin. apply elem_of_union in Hin as [Hin|Hin]; [by apply (Hback s)|].
  apply elem_of_singleton in Hin as ->. apply Hcyc. by apply tc_once.
Qed.

Lemma collectBody_ordered (self : string → walk → option walk) open n st r :
  (∀ open n st r, closed ws open st → listed open st → self n st = Some r →
                  visits ws open n st r) →
  (∀ open n st r, (∀ g, g ∈ open → reachable ws g n) →
                  closed ws open st → listed open st → ordered ws (deps st) →
                  self n st = Some r → ordered ws (deps r)) →
  (∀ g, g ∈ open → reachable ws g n) →
  closed ws open st → listed open st → ordered ws (deps st) →
  collectBody ws self n st = Some r → ordered ws (deps r).
Proof.
  intros Hvis Hself Hopen Hcl Hli Hord. unfold collectBody.
  destruct (decide (n ∈ seen st)) as [Hin|Hnot]; [by intros [= <-]|].
  set (st0 := {| seen := {[n]} ∪ seen st; deps := deps st |}).
  set (open' := open ∪ {[n]}).
  assert (closed ws open' st0) as Hcl0.
  { intros m Hm Hno s Hs. cbn in *.
    assert (m ∈ seen st) by set_solver. assert (m ∉ open) by set_solver.
    apply elem_of_union_r. by eapply Hcl. }
  assert (listed open' st0) as Hli0.
  { intros m Hm Hno. cbn in *. apply Hli; set_solver. }
  assert (∀ x, edge ws n x → ∀ g, g ∈ open' → reachable ws g x) as Hopen'.
  { intros x Hnx g Hg. eapply rtc_r; [|exact Hnx].
    apply elem_of_union in Hg as [Hg|Hg]; [by apply Hopen|].
    apply elem_of_singleton in Hg as ->. apply rtc_refl. }
  destruct (match apiToModel !! n with
            | Some modelName => _
            | None => _
            end) as [st1|] eqn:H1; simpl; [|done].
  assert (closed ws open' st1 ∧ listed open' st1 ∧ ordered ws (deps st1))
    as (Hcl1 & Hli1 & Hord1).
  { destruct (apiToModel !! n) as [modelName|] eqn:Hapi; [|by simplify_eq].
    destruct (Repos ws !! modelName) eqn:Hm; [|by simplify_eq].
    assert (edge ws n modelName) as Hedge by (left; split; [done|by eexists]).
    destruct (self modelName st0) as [st'|] eqn:Hs; simpl in H1; [|done].
    simplify_eq.
    pose proof (Hvis _ _ _ _ Hcl0 Hli0 Hs) as Hv.
    pose proof (Hself _ _ _ _ (Hopen' _ Hedge) Hcl0 Hli0 Hord Hs) as Ho.
    pose proof (visited_successors_listed _ _ _ _ _ Hopen Hedge Hv) as Hsucc.
    destruct Hv as (_ & _ & _ & Hcl' & Hli'). cbn [seen deps].
    split; [done|]. split.
    - intros m Hm' Hno. cbn [seen deps] in *. apply elem_of_app.
      destruct (decide (m = modelName)) as [->|Hne].
      + right. by apply list_elem_of_singleton.
      + left. apply Hli'; [done|]. set_solver.
    - apply ordered_snoc; [done|]. by right. }
  destruct (Repos ws !! n) as [repo|] eqn:Hrepo; [|by intros [= <-]].
  intros Hloop.
  set (I := λ s : walk, closed ws open' s ∧ listed open' s ∧ ordered ws (deps s)).
  edestruct (forEach_elements I (λ (_ : string) (_ : walk), True))
    as ((_ & _ & Hordr) & _);
    [| | |exact Hloop|done]; [|done|by unfold I].
  intros st' dep r' Hdep HI Hb. unfold I in *. split; [|done].
  destruct HI as (Hcl' & Hli' & Hord').
  destruct (Repos ws !! dep) eqn:Hd; [|by simplify_eq].
  assert (edge ws n dep) as Hedge by (right; exists repo; eauto).
  destruct (self dep st') as [st2|] eqn:Hs; simpl in Hb; [|done].
  pose proof (Hvis _ _ _ _ Hcl' Hli' Hs) as Hv.
  pose proof (Hself _ _ _ _ (Hopen' _ Hedge) Hcl' Hli' Hord' Hs) as Ho.
  pose proof (visited_successors_listed _ _ _ _ _ Hopen Hedge Hv) as Hsucc.
  destruct Hv as (_ & _ & _ & Hcl2 & Hli2).
  destruct (containsRun (deps st2) dep) eqn:Hc; simplify_eq.
  - apply containsRun_elem in Hc. repeat split; try done.
    intros m Hm Hno. destruct (decide (m = dep)) as [->|Hne]; [done|].
    apply Hli2; [done|]. set_solver.
  - cbn [seen deps]. repeat split; try done.
    + intros m Hm Hno. cbn [seen deps] in *. apply elem_of_app.
      destruct (decide (m = dep)) as [->|Hne].
      * right. by apply list_elem_of_singleton.
      * left. apply Hli2; [done|]. set_solver.
    + apply ordered_snoc; [done|]. by right.
Qed.

Lemma collect_ordered fuel open n st r :
  (∀ g, g ∈ open → reachable ws g n) →
  closed ws open st → listed open st → ordered ws (deps st) →
  collect ws fuel n st = Some r → ordered ws (deps r).
Proof.
  revert open n st r. induction fuel as [|fuel IH]; intros open n st r; [done|].
  apply collectBody_ordered; [|apply IH].
  intros open' n' st' r'. apply collect_complete.
Qed.

Lemma filter_decompose (f : string → bool) l l1 d l2 :
  List.filter f l = l1 ++ d :: l2 →
  ∃ k1 k2, l = k1 ++ d :: k2 ∧ List.filter f k1 = l1.
Proof.
  revert l1. induction l as [|x l IH]; intros l1; simpl.
  - by destruct l1.
  - destruct (f x) eqn:Hfx.
    + destruct l1 as [|y l1]; simpl.
      * intros [= -> _]. by exists [], l.
      * intros [= -> Heq]. destruct (IH _ Heq) as (k1 & k2 & -> & <-).
        exists (y :: k1), k2. simpl. by rewrite Hfx.
    + intros Heq. destruct (IH _ Heq) as (k1 & k2 & -> & <-).
      exists (x :: k1), k2. simpl. by rewrite Hfx.
Qed.

(** X2: The returned sequence is a build order: a repo that lies on no cycle
    comes, at its first occurrence, after every repo it depends on,
    through a declared or an implicit edge. *)
Theorem getDepsForRun_build_order (name : string) (l1 l2 : list string)
    (d s : string) :
  getDepsForRun ws name = l1 ++ d :: l2 →
  d ∉ l1 →
  ¬ onCycle ws d →
  edge ws d s →
  s ∈ l1.
Proof.
  intros Heq Hfirst Hcyc Hs.
  pose proof (getDepsForRun_terminates ws name) as Ht.
  unfold getDepsForRun_fuel in Ht.
  destruct (collect ws _ name _) as [st|] eqn:Hc; simpl in Ht; [|done].
  injection Ht as Ht. rewrite Heq in Ht.
  destruct (filter_decompose _ _ _ _ _ Ht) as (k1 & k2 & Hk & Hk1).
  assert (d ≠ name) as Hd.
  { assert (d ∈ List.filter (λ d, negb (bool_decide (d = name))) (deps st)) as Hin.
    { rewrite Ht. set_solver. }
    rewrite list_elem_of_In, filter_In, negb_true_iff, bool_decide_eq_false in Hin.
    tauto. }
  assert (s ≠ name) as Hsn.
  { intros ->. apply Hcyc. unfold onCycle. eapply tc_l; [exact Hs|].
    assert (reachable ws name d) as Hr.
    { eapply (collect_sound name) in Hc as [_ Hdeps].
      - apply Hdeps. rewrite Hk. set_solver.
      - done.
      - split; intros m Hm; [set_solver|by apply elem_of_nil in Hm]. }
    apply rtc_tc in Hr as [->|Hr]; [by apply tc_once in Hs|done]. }
  assert (s ∈ k1) as Hin.
  { apply (collect_ordered _ ∅) in Hc.
    - eapply (Hc k1 d k2); try done.
      intros Hdk. apply Hfirst. rewrite <- Hk1.
      rewrite list_elem_of_In, filter_In, negb_true_iff, bool_decide_eq_false.
      by rewrite <- list_elem_of_In.
    - set_solver.
    - intros m Hm. set_solver.
    - intros m Hm. set_solver.
    - intros k1' d' k2' Hnil. by destruct k1'. }
  rewrite <- Hk1, list_elem_of_In, filter_In, negb_true_iff, bool_decide_eq_false.
  by rewrite <- list_elem_of_In.
Qed.

End ResolverClosure.

(* ===================================================================== *)
(** ** More on remote URLs and repo names                                 *)
(* ===================================================================== *)

Section RemoteNamesMore.
Import GoStrings.

Lemma prefix_app (p s : string) : String.prefix p (p +:+ s) = true.
Proof.
  induction p as [|a p IH]; [by destruct s|].
  rewrite app_cons. simpl. by destruct (ascii_dec a a).
Qed.

(** X5: Building a remote URL from a built remote URL changes nothing. *)
Theorem BuildRemoteURL_idempotent (orgRepo : string) :
  git.BuildRemoteURL (git.BuildRemoteURL orgRepo) = git.BuildRemoteURL orgRepo.
Proof.
  unfold git.BuildRemoteURL.
  destruct (HasPrefix orgRepo "git@" || HasPrefix orgRepo "https://") eqn:Hp.
  - by rewrite Hp.
  - unfold HasPrefix.
    change ("git@github.com:" +:+ orgRepo +:+ ".git")
      with ("git@" +:+ ("github.com:" +:+ orgRepo +:+ ".git")).
    by rewrite prefix_app.
Qed.

Lemma string_snoc (s : string) :
  s ≠ "" → ∃ s' a, s = s' +:+ String a "".
Proof.
  induction s as [|b s IH]; [done|]. intros _.
  destruct s as [|c s].
  - by exists "", b.
  - destruct IH as (s' & a & ->); [done|]. by exists (String b s'), a.
Qed.

Lemma stripTrailing_empty c s a :
  stripTrailing c s = "" → ContainsByte a s = true → a = c.
Proof.
  induction s as [|b s IH]; simpl; [done|].
  destruct (stripTrailing c s) eqn:Hs; [|done].
  destruct (decide (b = c)) as [->|]; [|done]. intros _.
  destruct (decide (c = a)); [done|]. by apply IH.
Qed.

Lemma stripTrailing_last c s s' a :
  stripTrailing c s = s' +:+ String a "" → a ≠ c.
Proof.
  revert s'. induction s as [|b s IH]; intros s'; simpl.
  - by destruct s'.
  - destruct (stripTrailing c s) as [|b' r] eqn:Hs.
    + destruct (decide (b = c)); [by destruct s'|].
      destruct s' as [|x s']; [rewrite app_nil_l; by intros [= ->]|].
      rewrite app_cons. intros [= _ Heq]. by destruct s'.
    + destruct s' as [|x s'].
      * rewrite app_nil_l. by intros [=].
      * rewrite app_cons. intros [= _ Heq]. by eapply IH.
Qed.

Lemma stripTrailing_no_sep c s :
  ContainsByte c (stripTrailing c s) = true → ContainsByte c s = true.
Proof.
  induction s as [|b s IH]; simpl; [done|].
  destruct (decide (b = c)) as [->|Hne]; [done|].
  destruct (stripTrailing c s) as [|b' r] eqn:Hs; simpl.
  - by destruct (decide (b = c)).
  - destruct (decide (b = c)); [done|]. exact IH.
Qed.

Lemma afterLast_snoc_nonempty c s a : a ≠ c → afterLast c (s +:+ String a "") ≠ "".
Proof.
  intros Hne. induction s as [|b s IH].
  - simpl. by destruct (decide (a = c)).
  - rewrite app_cons. cbn [afterLast].
    destruct (ContainsByte c (s +:+ String a "")) eqn:Hc; [done|].
    destruct (decide (b = c)); [|done].
    by destruct s.
Qed.

Lemma ContainsByte_substring c n m s :
  ContainsByte c s = false → ContainsByte c (String.substring n m s) = false.
Proof.
  revert n m. induction s as [|b s IH]; intros n m; simpl.
  - by destruct n, m.
  - destruct (decide (b = c)); [done|]. intros Hs.
    destruct n as [|n]; [destruct m as [|m]; [done|]|by apply IH].
    simpl. destruct (decide (b = c)); [done|]. by apply IH.
Qed.

Lemma ContainsByte_TrimSuffix c s suffix :
  ContainsByte c s = false → ContainsByte c (TrimSuffix s suffix) = false.
Proof.
  intros Hs. unfold TrimSuffix.
  destruct (HasSuffix s suffix); [by apply ContainsByte_substring|done].
Qed.

(** The base name never has a separator in it, except for a path that
    consists of separators only. *)
Lemma Base_no_slash path a :
  ContainsByte a path = true → a ≠ "/"%char →
  ContainsByte "/" (Base path) = false.
Proof.
  intros Ha Hne. unfold Base.
  destruct (decide (path = "")) as [->|_]; [done|].
  destruct (decide (afterLast "/" (stripTrailing "/" path) = "")) as [He|_].
  - exfalso. destruct (decide (stripTrailing "/" path = "")) as [Hs|Hs].
    + by apply Hne, (stripTrailing_empty "/" path a).
    + destruct (string_snoc _ Hs) as (s' & b & Hsb).
      pose proof (stripTrailing_last _ _ _ _ Hsb) as Hb.
      rewrite Hsb in He. by apply (afterLast_snoc_nonempty "/" s' b).
  - apply afterLast_no_sep.
Qed.

(** X6: The repo name extracted from any remote string has no ['/'] in it. *)
Theorem RepoNameFromRemote_no_slash (remote : string) :
  ContainsByte "/" (git.RepoNameFromRemote remote) = false.
Proof.
  unfold git.RepoNameFromRemote.
  destruct (ContainsByte ":" remote) eqn:Hcolon; cbn [negb andb].
  - apply ContainsByte_TrimSuffix. by apply (Base_no_slash remote ":").
  - destruct (ContainsByte "/" remote) eqn:Hslash.
    + rewrite last_Split. apply afterLast_no_sep.
    + apply ContainsByte_TrimSuffix. unfold Base.
      destruct (decide (remote = "")); [done|].
      destruct (decide (_ = "")); [|apply afterLast_no_sep].
      exfalso. destruct remote as [|b r]; [done|].
      destruct (decide (stripTrailing "/" (String b r) = "")) as [Hs|Hs].
      * assert (b = "/"%char) as ->.
        { apply (stripTrailing_empty "/" (String b r)); [done|].
          simpl. by destruct (decide (b = b)). }
        simpl in Hslash. by destruct (decide ("/"%char = "/"%char)).
      * destruct (string_snoc _ Hs) as (s' & a & Hsa).
        pose proof (stripTrailing_last _ _ _ _ Hsa) as Ha.
        rewrite Hsa in e. by apply (afterLast_snoc_nonempty "/" s' a).
Qed.

(** X7: For a URL (a remote string with a [':'] in it) that ends in
    [/name], with [name] not empty and free of ['/'], the repo name is
    [name] less one trailing [.git]: the SSH and the HTTPS form give the
    same name, with or without the suffix. *)
Theorem RepoNameFromRemote_url (pre name : string) :
  ContainsByte ":" (pre +:+ "/" +:+ name) = true →
  name ≠ "" →
  ContainsByte "/" name = false →
  git.RepoNameFromRemote (pre +:+ "/" +:+ name) = TrimSuffix name ".git".
Proof.
  intros Hcolon Hne Hslash. unfold git.RepoNameFromRemote.
  rewrite Hcolon. cbn [negb andb]. f_equal. unfold Base.
  destruct (decide (_ = "")) as [He|_]; [by destruct pre|].
  destruct (string_snoc name Hne) as (n' & a & ->).
  assert (a ≠ "/"%char) as Ha.
  { intros ->. rewrite ContainsByte_app in Hslash. simpl in Hslash.
    by rewrite orb_true_r in Hslash. }
  replace (pre +:+ "/" +:+ n' +:+ String a "")
    with ((pre +:+ "/" +:+ n') +:+ String a "") by (by rewrite !app_assoc_s).
  rewrite stripTrailing_snoc by done.
  replace ((pre +:+ "/" +:+ n') +:+ String a "")
    with (pre +:+ String "/" (n' +:+ String a "")) by (by rewrite !app_assoc_s).
  rewrite afterLast_app_sep by done.
  destruct (decide (_ = "")) as [He|_]; [by destruct n'|done].
Qed.

Lemma RepoNameFromRemote_url_forms :
  git.RepoNameFromRemote "git@github.com:Spark-Rewards/AppAPI.git" = "AppAPI"
  ∧ git.RepoNameFromRemote "https://github.com/Spark-Rewards/AppAPI" = "AppAPI".
Proof.
  split.
  - apply (RepoNameFromRemote_url "git@github.com:Spark-Rewards" "AppAPI.git");
      by vm_compute.
  - apply (RepoNameFromRemote_url "https://github.com/Spark-Rewards" "AppAPI");
      by vm_compute.
Defined.

End RemoteNamesMore.

(* ===================================================================== *)
(** ** Properties of all events of a run                                  *)
(* ===================================================================== *)

Section TraceFacts.
Import Effects.
Context {W : Type} (h : handler W) (P : entry → Prop).

Lemma trace_ret_all {A} (a : A) w : Forall P (trace_of (run h (mret a) w)).
Proof. rewrite run_ret. constructor. Qed.

Lemma trace_bind_all {A B} (p : Prog A) (f : A → Prog B) w :
  Forall P (trace_of (run h p w)) →
  (∀ a w1, Forall P (trace_of (run h (f a) w1))) →
  Forall P (trace_of (run h (p ≫= f) w)).
Proof.
  intros Hp Hf. rewrite run_bind.
  destruct (run h p w) as [[a w1] t1]. specialize (Hf a w1).
  destruct (run h (f a) w1) as [[b w2] t2].
  unfold trace_of in *. cbn [snd] in *. by apply Forall_app.
Qed.

Lemma trace_trigger_all {X} (e : event X) w :
  (∀ x, P (Entry e x)) → Forall P (trace_of (run h (trigger e) w)).
Proof.
  intros He. rewrite run_trigger. unfold trace_of. cbn [snd]. by repeat constructor.
Qed.

Lemma trace_trigger_bind_all {X B} (e : event X) (f : X → Prog B) w :
  (∀ x, P (Entry e x)) →
  (∀ x w1, Forall P (trace_of (run h (f x) w1))) →
  Forall P (trace_of (run h (trigger e ≫= f) w)).
Proof. intros He Hf. apply trace_bind_all; [by apply trace_trigger_all|done]. Qed.

End TraceFacts.

(* ===================================================================== *)
(** ** More on the sync command                                           *)
(* ===================================================================== *)

Section SyncMoreFacts.
Import workspace GoStrings Effects gitcmd synccmd SyncSpec SyncMore.
Context `{GoLib} {W : Type} (h : handler W).

(** *** The ways out of syncRepoFull, in full *)

Lemma run_pullOnly_cases nm dir cur a b w :
  ∃ e,
    run h (pullOnly nm dir cur a b) w
    = ({| name := nm; branch := cur;
          status := if e is Some _ then "failed" else "synced";
          message := default "" e; ahead := a; behind := b;
          dirty := false; dirtyStatus := ""; lockfileChanged := false |},
       (h _ (GitPull dir) w).2, [Entry (GitPull dir) e]).
Proof.
  unfold pullOnly, Pull. rewrite run_trigger_bind.
  destruct (h _ (GitPull dir) w) as [[e|] w1]; cbn [fst snd]; rewrite run_ret.
  - by exists (Some e).
  - by exists None.
Qed.

Lemma otherBranches_cons cur tb b bs :
  otherBranches cur tb (b :: bs)
  = if bool_decide (b = cur) || bool_decide (b = tb)
    then otherBranches cur tb bs else b :: otherBranches cur tb bs.
Proof.
  unfold otherBranches. cbn [List.filter].
  by destruct (bool_decide (b = cur) || bool_decide (b = tb)).
Qed.

(** What the loop over the other branches does with each of them. *)
Lemma rebaseOthers_run dir up cur tb brs rb fa w :
  ∃ rb1 fa1 dropped w' t,
    run h (rebaseOthers dir up cur tb brs rb fa) w = ((rb ++ rb1, fa ++ fa1), w', t)
    ∧ Forall (λ en, isLoopEvent en = true) t
    ∧ map fst (omap checkoutOf t) = map (pair dir) (otherBranches cur tb brs)
    ∧ otherBranches cur tb brs ≡ₚ rb1 ++ fa1 ++ dropped
    ∧ sublist rb1 (otherBranches cur tb brs)
    ∧ sublist fa1 (otherBranches cur tb brs)
    ∧ length dropped = length (List.filter failedCheckout t)
    ∧ length fa1 = length (List.filter isAbort t)
    ∧ map fst (omap rebaseOf t) = replicate (length rb1 + length fa1) (dir, up).
Proof.
  revert rb fa w.
  induction brs as [|b bs IH]; intros rb fa w; cbn [rebaseOthers].
  { exists [], [], [], w, []. rewrite !app_nil_r, run_ret. by repeat split. }
  rewrite otherBranches_cons.
  destruct (bool_decide (b = cur) || bool_decide (b = tb)); [apply IH|].
  unfold CheckoutQuiet, RebaseQuiet, RebaseAbortQuiet.
  rewrite run_trigger_bind.
  destruct (h _ (CallCheckoutQuiet dir b) w) as [[e|] w1]; cbn [fst snd].
  - destruct (IH rb fa w1)
      as (rb1 & fa1 & dr & w' & t & -> & Hev & Hco & Hperm & Hsr & Hsf & Hdr & Hab & Hre).
    exists rb1, fa1, (b :: dr), w', (Entry (CallCheckoutQuiet dir b) (Some e) :: t).
    split; [done|]. split; [by constructor|].
    split; [cbn [omap list_omap checkoutOf map fst]; by rewrite Hco|].
    split; [by rewrite Hperm, !Permutation_middle|].
    split; [by apply sublist_cons|]. split; [by apply sublist_cons|].
    split; [cbn; by rewrite Hdr|]. split; [done|]. done.
  - rewrite run_trigger_bind.
    destruct (h _ (GitRebase dir up) w1) as [[e|] w2]; cbn [fst snd].
    + rewrite run_trigger_bind.
      destruct (h _ (GitRebaseAbort dir) w2) as [x w3]; cbn [fst snd].
      destruct (IH rb (fa ++ [b]) w3)
        as (rb1 & fa1 & dr & w' & t & -> & Hev & Hco & Hperm & Hsr & Hsf & Hdr & Hab & Hre).
      exists rb1, (b :: fa1), dr, w',
        (Entry (CallCheckoutQuiet dir b) None :: Entry (GitRebase dir up) (Some e)
           :: Entry (GitRebaseAbort dir) x :: t).
      split; [by rewrite <- app_assoc|]. split; [by repeat constructor|].
      split; [cbn [omap list_omap checkoutOf map fst]; by rewrite Hco|].
      split; [rewrite Hperm; cbn [app]; by rewrite Permutation_middle|].
      split; [by apply sublist_cons|]. split; [by apply sublist_skip|].
      split; [done|]. split; [cbn; by rewrite Hab|].
      cbn [omap list_omap rebaseOf map fst]. rewrite Hre.
      cbn [length]. by rewrite Nat.add_succ_r.
    + destruct (IH (rb ++ [b]) fa w2)
        as (rb1 & fa1 & dr & w' & t & -> & Hev & Hco & Hperm & Hsr & Hsf & Hdr & Hab & Hre).
      exists (b :: rb1), fa1, dr, w',
        (Entry (CallCheckoutQuiet dir b) None :: Entry (GitRebase dir up) None :: t).
      split; [by rewrite <- app_assoc|]. split; [by repeat constructor|].
      split; [cbn [omap list_omap checkoutOf map fst]; by rewrite Hco|].
      split; [by rewrite Hperm|].
      split; [by apply sublist_skip|]. split; [by apply sublist_cons|].
      split; [done|]. split; [done|].
      cbn [omap list_omap rebaseOf map fst]. by rewrite Hre.
Qed.

(** The rebase of all local branches, with what the loop did. *)
Lemma run_rebaseBranches_loop nm dir cur tb up a b w :
  let lock := filepath_Join [dir; "package-lock.json"] in
  ∃ st brs,
    (∃ e x w',
       run h (rebaseBranches nm dir cur tb up a b) w
       = ({| name := nm; branch := cur; status := "failed";
             message := "rebase " +:+ cur +:+ " onto " +:+ up +:+ " failed";
             ahead := a; behind := b; dirty := false; dirtyStatus := "";
             lockfileChanged := false |}, w',
          [Entry (OsStat lock) st; Entry (CallListLocalBranches dir) brs;
           Entry (GitRebase dir up) (Some e); Entry (GitRebaseAbort dir) x]))
    ∨ (∃ rebased failed w3 w4 tloop x st' ab1 w',
         run h (rebaseOthers dir up cur tb brs [] []) w3 = ((rebased, failed), w4, tloop)
         ∧ run h (rebaseBranches nm dir cur tb up a b) w
           = ({| name := nm; branch := cur; status := "synced";
                 message := finalMessage rebased failed;
                 ahead := ab1.1; behind := ab1.2; dirty := false; dirtyStatus := "";
                 lockfileChanged :=
                   negb (bool_decide (fingerprint st = fingerprint st')) |}, w',
              [Entry (OsStat lock) st; Entry (CallListLocalBranches dir) brs;
               Entry (GitRebase dir up) None]
              ++ tloop
              ++ [Entry (CallCheckoutQuiet dir cur) x; Entry (OsStat lock) st';
                  Entry (CallAheadBehind dir cur up) ab1])).
Proof.
  intros lock. unfold rebaseBranches. fold lock.
  unfold ListLocalBranches, RebaseQuiet, RebaseAbortQuiet, CheckoutQuiet, AheadBehind.
  rewrite run_bind, run_fileHash.
  destruct (h _ (OsStat lock) w) as [st w1]. cbn [fst snd].
  rewrite run_trigger_bind.
  destruct (h _ (CallListLocalBranches dir) w1) as [brs w2]. cbn [fst snd].
  exists st, brs.
  rewrite run_trigger_bind.
  destruct (h _ (GitRebase dir up) w2) as [[e|] w3]; cbn [fst snd].
  - left. rewrite run_trigger_bind.
    destruct (h _ (GitRebaseAbort dir) w3) as [x w4]. cbn [fst snd].
    rewrite run_ret. by eexists _, _, _.
  - right. rewrite run_bind.
    destruct (run h (rebaseOthers dir up cur tb brs [] []) w3)
      as [[[rebased failed] w4] tloop] eqn:Hloop.
    rewrite run_trigger_bind.
    destruct (h _ (CallCheckoutQuiet dir cur) w4) as [x w5]. cbn [fst snd].
    rewrite run_bind, run_fileHash.
    destruct (h _ (OsStat lock) w5) as [st' w6]. cbn [fst snd].
    rewrite run_trigger_bind.
    destruct (h _ (CallAheadBehind dir cur up) w6) as [[a1 b1] w7].
    cbn [fst snd]. rewrite run_ret.
    by exists rebased, failed, w3, w4, tloop, x, st', (a1, b1), w7.
Qed.

(** Every run starts with the current branch, the target branch, the
    ahead/behind count and the status check. *)
Lemma syncRepoFull_run_target fl wsPath ws nm repo dir w :
  let cur := currentBranch h dir w in
  let tb := targetBranch h fl ws repo dir w in
  ∃ ttb ab out w4,
    Forall (λ en, isRefQuery en = true) ttb
    ∧ run h (syncRepoFull fl wsPath ws nm repo dir) w
      = let '(r, w', t) :=
          run h (if reportsChanges out then skipDirty nm dir cur ab.1 ab.2
                 else if syncNoRebase fl then pullOnly nm dir cur ab.1 ab.2
                 else rebaseBranches nm dir cur tb ("origin/" +:+ tb) ab.1 ab.2) w4 in
        (r, w',
         Entry (CallGetCurrentBranch dir) cur
           :: ttb ++ Entry (CallAheadBehind dir cur ("origin/" +:+ tb)) ab
           :: Entry (GitStatus dir) out :: t).
Proof.
  unfold syncRepoFull, GetCurrentBranch, AheadBehind, currentBranch, targetBranch.
  rewrite run_trigger_bind.
  destruct (h _ (CallGetCurrentBranch dir) w) as [cur w1]. cbn [fst snd].
  rewrite run_bind.
  pose proof (getTargetBranch_refQueries h fl ws (Some repo) dir w1) as Hq.
  destruct (run h (getTargetBranch fl ws (Some repo) dir) w1) as [[tb w2] ttb].
  unfold trace_of in Hq. unfold result_of. cbn [fst snd] in *.
  rewrite run_trigger_bind.
  destruct (h _ (CallAheadBehind dir cur _) w2) as [[a b] w3]. cbn [fst snd].
  rewrite run_bind, run_IsDirty.
  destruct (h _ (GitStatus dir) w3) as [out w4]. cbn [fst snd].
  exists ttb, (a, b), out, w4. split; [done|]. cbn [fst snd].
  by destruct (run h _ w4) as [[r w'] t].
Qed.

(** The four ways in which a run of syncRepoFull goes, with the result
    and the events after the status check of each. *)
Lemma syncRepoFull_cases fl wsPath ws nm repo dir w :
  let cur := currentBranch h dir w in
  let tb := targetBranch h fl ws repo dir w in
  let up := "origin/" +:+ tb in
  let lock := filepath_Join [dir; "package-lock.json"] in
  ∃ ttb ab out r w' t,
    Forall (λ en, isRefQuery en = true) ttb
    ∧ run h (syncRepoFull fl wsPath ws nm repo dir) w
      = (r, w',
         Entry (CallGetCurrentBranch dir) cur
           :: ttb ++ Entry (CallAheadBehind dir cur up) ab
           :: Entry (GitStatus dir) out :: t)
    ∧ ((reportsChanges out = true
        ∧ Forall (λ en, isStatusQuery en = true) t
        ∧ ∃ txt,
            r = {| name := nm; branch := cur; status := "skipped";
                   message := "dirty working tree"; ahead := ab.1; behind := ab.2;
                   dirty := true; dirtyStatus := txt; lockfileChanged := false |})
       ∨ (reportsChanges out = false ∧ syncNoRebase fl = true
          ∧ ∃ e,
              t = [Entry (GitPull dir) e]
              ∧ r = {| name := nm; branch := cur;
                       status := if e is Some _ then "failed" else "synced";
                       message := default "" e; ahead := ab.1; behind := ab.2;
                       dirty := false; dirtyStatus := "";
                       lockfileChanged := false |})
       ∨ (reportsChanges out = false ∧ syncNoRebase fl = false
          ∧ ∃ st brs e x,
              t = [Entry (OsStat lock) st; Entry (CallListLocalBranches dir) brs;
                   Entry (GitRebase dir up) (Some e); Entry (GitRebaseAbort dir) x]
              ∧ r = {| name := nm; branch := cur; status := "failed";
                       message := "rebase " +:+ cur +:+ " onto " +:+ up +:+ " failed";
                       ahead := ab.1; behind := ab.2; dirty := false;
                       dirtyStatus := ""; lockfileChanged := false |})
       ∨ (reportsChanges out = false ∧ syncNoRebase fl = false
          ∧ ∃ st brs rebased failed w3 w4 tloop x st' ab1,
              Forall (λ en, isLoopEvent en = true) tloop
              ∧ run h (rebaseOthers dir up cur tb brs [] []) w3
                = ((rebased, failed), w4, tloop)
              ∧ t = [Entry (OsStat lock) st; Entry (CallListLocalBranches dir) brs;
                     Entry (GitRebase dir up) None]
                    ++ tloop
                    ++ [Entry (CallCheckoutQuiet dir cur) x; Entry (OsStat lock) st';
                        Entry (CallAheadBehind dir cur up) ab1]
              ∧ r = {| name := nm; branch := cur; status := "synced";
                       message := finalMessage rebased failed;
                       ahead := ab1.1; behind := ab1.2; dirty := false;
                       dirtyStatus := "";
                       lockfileChanged :=
                         negb (bool_decide (fingerprint st = fingerprint st')) |})).
Proof.
  intros cur tb up lock.
  destruct (syncRepoFull_run_target fl wsPath ws nm repo dir w)
    as (ttb & [a b] & out & w4 & Hq & ->).
  cbn zeta. cbn [fst snd]. fold cur tb up.
  destruct (reportsChanges out) eqn:Hout.
  { destruct (run_skipDirty h nm dir cur a b w4) as (txt & t' & -> & Hsq).
    eexists ttb, (a, b), out, _, _, t'. split; [done|]. split; [reflexivity|].
    left. split; [done|]. split; [done|]. by exists txt. }
  destruct (syncNoRebase fl) eqn:Hmode.
  { destruct (run_pullOnly_cases nm dir cur a b w4) as (e & ->).
    eexists ttb, (a, b), out, _, _, _. split; [done|]. split; [reflexivity|].
    right. left. split; [done|]. split; [done|]. by exists e. }
  destruct (run_rebaseBranches_loop nm dir cur tb up a b w4)
    as (st & brs & [(e' & x & w5 & ->)|Hs]).
  { eexists ttb, (a, b), out, _, _, _. split; [done|]. split; [reflexivity|].
    right. right. left. split; [done|]. split; [done|]. by exists st, brs, e', x. }
  destruct Hs as (rebased & failed & w5 & w6 & tloop & x & st' & ab1 & w7 & Hloop & ->).
  eexists ttb, (a, b), out, _, _, _. split; [done|]. split; [reflexivity|].
  right. right. right. split; [done|]. split; [done|].
  exists st, brs, rebased, failed, w5, w6, tloop, x, st', ab1.
  split; [|done].
  pose proof (rebaseOthers_loopEvents h dir up cur tb brs [] [] w5) as Hev.
  by rewrite Hloop in Hev.
Qed.

(** *** What a sync result can look like *)

(** X8: Every result of syncRepoFull carries the name it was given and the
    branch that was current at the start; its status is one of [synced],
    [skipped] and [failed]; it is dirty exactly when it is skipped; and
    the lockfile counts as changed only for a synced result in rebase
    mode. *)
Theorem syncRepoFull_result_shape (fl : flags) (wsPath : string)
    (ws : Workspace) (nm : string) (repo : RepoDef) (dir : string) (w : W) :
  let r := result_of (run h (syncRepoFull fl wsPath ws nm repo dir) w) in
  name r = nm
  ∧ branch r = currentBranch h dir w
  ∧ (status r = "synced" ∨ status r = "skipped" ∨ status r = "failed")
  ∧ (dirty r = true ↔ status r = "skipped")
  ∧ (lockfileChanged r = true → status r = "synced" ∧ syncNoRebase fl = false).
Proof.
  destruct (syncRepoFull_cases fl wsPath ws nm repo dir w)
    as (ttb & ab & out & r & w' & t & _ & -> & Hcases).
  unfold result_of. cbn [fst snd].
  destruct Hcases as [(_ & _ & txt & ->)|[(_ & Hm & e & _ & ->)|
                     [(_ & Hm & st & brs & e & x & _ & ->)|
                      (_ & Hm & st & brs & rb & fa & w3 & w4 & tl & x & st' & ab1
                       & _ & _ & _ & ->)]]];
    cbn [name branch status dirty lockfileChanged].
  - repeat split; auto; done.
  - destruct e; repeat split; auto; done.
  - repeat split; auto; done.
  - repeat split; auto; done.
Qed.

(** *** The events of a run *)

Lemma refQuery_repoSync en : isRefQuery en = true → isRepoSyncEvent en = true.
Proof. destruct en as [X e x]. by destruct e. Qed.

Lemma statusQuery_repoSync en : isStatusQuery en = true → isRepoSyncEvent en = true.
Proof. destruct en as [X e x]. by destruct e. Qed.

Lemma loopEvent_repoSync en : isLoopEvent en = true → isRepoSyncEvent en = true.
Proof. destruct en as [X e x]. by destruct e. Qed.

Lemma syncRepoFull_events fl wsPath ws nm repo dir w :
  Forall (λ en, isRepoSyncEvent en = true)
    (trace_of (run h (syncRepoFull fl wsPath ws nm repo dir) w)).
Proof.
  destruct (syncRepoFull_cases fl wsPath ws nm repo dir w)
    as (ttb & ab & out & r & w' & t & Hq & -> & Hcases).
  unfold trace_of. cbn [snd].
  apply Forall_cons. split; [done|]. apply Forall_app. split.
  { eapply Forall_impl; [exact Hq|]. apply refQuery_repoSync. }
  apply Forall_cons. split; [done|]. apply Forall_cons. split; [done|].
  destruct Hcases as [(_ & Hsq & _)|[(_ & _ & e & -> & _)|
                     [(_ & _ & st & brs & e & x & -> & _)|
                      (_ & _ & st & brs & rb & fa & w3 & w4 & tl & x & st' & ab1
                       & Hev & Hloop & -> & _)]]].
  - eapply Forall_impl; [exact Hsq|]. apply statusQuery_repoSync.
  - by repeat constructor.
  - by repeat constructor.
  - apply Forall_app. split; [by repeat constructor|].
    apply Forall_app. split; [|by repeat constructor].
    eapply Forall_impl; [exact Hev|]. apply loopEvent_repoSync.
Qed.

(** *** A failing [git status] *)

(** X9: When [git status --short] cannot be run, syncRepoFull takes the
    working tree for clean: the result is not dirty and not skipped, the
    status is not asked for again, and the run goes on to pull or to
    rebase. *)
Theorem syncRepoFull_status_error_goes_on (fl : flags) (wsPath : string)
    (ws : Workspace) (nm : string) (repo : RepoDef) (dir : string) (w : W)
    (e : error) (rest : list output) :
  let res := run h (syncRepoFull fl wsPath ws nm repo dir) w in
  omap statusOf (trace_of res) = OutErr e :: rest →
  rest = []
  ∧ dirty (result_of res) = false
  ∧ status (result_of res) ≠ "skipped"
  ∧ existsb changesBranches (trace_of res) = true.
Proof.
  destruct (syncRepoFull_cases fl wsPath ws nm repo dir w)
    as (ttb & ab & out & r & w' & t & Hq & -> & Hcases).
  unfold trace_of, result_of. cbn [fst snd]. intros Hst.
  cbn [omap list_omap statusOf] in Hst. rewrite omap_app in Hst.
  rewrite (omap_none statusOf isRefQuery ttb) in Hst; [| |done].
  2:{ intros en Hen. apply (refQuery_quiet en Hen). }
  cbn [omap list_omap statusOf app] in Hst. injection Hst as -> Hrest.
  assert (∀ en, In en t → changesBranches en = true →
            existsb changesBranches
              (Entry (CallGetCurrentBranch dir) (currentBranch h dir w)
                 :: ttb ++ Entry (CallAheadBehind dir (currentBranch h dir w)
                                    ("origin/" +:+ targetBranch h fl ws repo dir w)) ab
                 :: Entry (GitStatus dir) (OutErr e) :: t) = true) as Hex.
  { intros en Hin Hen. apply existsb_exists. exists en. split; [|done].
    right. apply in_or_app. right. right. by right. }
  destruct Hcases as [(Hdirty & _)|[(_ & _ & e1 & -> & ->)|
                     [(_ & _ & st & brs & e1 & x & -> & ->)|
                      (_ & _ & st & brs & rb & fa & w3 & w4 & tl & x & st' & ab1
                       & Hev & Hloop & -> & ->)]]].
  - done.
  - cbn in Hrest. subst rest. cbn [dirty status].
    split; [done|]. split; [done|]. split; [by destruct e1|].
    apply (Hex (Entry (GitPull dir) e1)); [by left|done].
  - cbn in Hrest. subst rest. cbn [dirty status].
    split; [done|]. split; [done|]. split; [done|].
    eapply Hex; [right; right; left; reflexivity|done].
  - cbn [dirty status]. split.
    + rewrite <- Hrest. cbn [omap list_omap statusOf app]. rewrite omap_app.
      rewrite (omap_none statusOf isLoopEvent tl); [done| |done].
      intros en Hen. apply (loopEvent_quiet en Hen).
    + split; [done|]. split; [done|].
      eapply Hex; [right; right; left; reflexivity|done].
Qed.

(** *** [--no-rebase] *)

Lemma syncRepo_no_shell fl wsPath ws nm w :
  (∀ repo dir w1,
     lockfileChanged (result_of (run h (syncRepoFull fl wsPath ws nm repo dir) w1))
     = false) →
  omap shellOf (trace_of (run h (syncRepo fl wsPath ws nm) w)) = [].
Proof.
  intros Hlock. unfold syncRepo.
  destruct (Repos ws !! nm) as [repo|]; [|by rewrite run_ret].
  rewrite run_trigger_bind.
  destruct (h _ (OsStat _) w) as [st w1]. cbn [fst snd].
  destruct (IsNotExist st); [by rewrite run_ret|].
  rewrite run_bind.
  pose proof (syncRepoFull_no_shell h fl wsPath ws nm repo
                (filepath_Join [wsPath; Path repo]) w1) as Hsh.
  specialize (Hlock repo (filepath_Join [wsPath; Path repo]) w1).
  destruct (run h (syncRepoFull _ _ _ _ _ _) w1) as [[r w2] t].
  unfold trace_of, result_of in *. cbn [fst snd] in *.
  rewrite Hlock, andb_false_r. rewrite run_bind, run_ret. rewrite run_bind.
  destruct (existsb _ cdkLambdaMappings).
  - rewrite run_trigger, run_ret.
    cbn [fst snd omap list_omap shellOf app]. rewrite omap_app, Hsh. done.
  - rewrite !run_ret.
    cbn [fst snd omap list_omap shellOf app]. rewrite omap_app, Hsh. done.
Qed.

(** X10: Under [--no-rebase] the lockfile is not looked at: syncRepoFull runs
    git commands only, none of them a rebase or a checkout, and reports
    the lockfile as unchanged whatever the pull brought; so the sync of
    one repo runs no [npm install], with [--install] or without. *)
Theorem syncRepoFull_no_rebase_ignores_lockfile (fl : flags) (wsPath : string)
    (ws : Workspace) (nm : string) (repo : RepoDef) (dir : string) (w w0 : W) :
  syncNoRebase fl = true →
  let res := run h (syncRepoFull fl wsPath ws nm repo dir) w in
  lockfileChanged (result_of res) = false
  ∧ Forall (λ en, isGit en = true) (trace_of res)
  ∧ omap rebaseOf (trace_of res) = []
  ∧ omap checkoutOf (trace_of res) = []
  ∧ omap shellOf (trace_of (run h (syncRepo fl wsPath ws nm) w0)) = [].
Proof.
  intros Hmode.
  assert (∀ repo dir w,
            let res := run h (syncRepoFull fl wsPath ws nm repo dir) w in
            lockfileChanged (result_of res) = false
            ∧ Forall (λ en, isGit en = true) (trace_of res)
            ∧ omap rebaseOf (trace_of res) = []
            ∧ omap checkoutOf (trace_of res) = []) as Hall.
  { clear repo dir w. intros repo dir w.
    destruct (syncRepoFull_cases fl wsPath ws nm repo dir w)
      as (ttb & ab & out & r & w' & t & Hq & -> & Hcases).
    cbn zeta. unfold trace_of, result_of. cbn [fst snd].
    assert (lockfileChanged r = false ∧ Forall (λ en, isStatusQuery en = true
                                                      ∨ changesBranches en = true
                                                        ∧ rebaseOf en = None
                                                        ∧ checkoutOf en = None) t)
      as [Hl Ht].
    { destruct Hcases as [(_ & Hsq & txt & ->)|[(_ & _ & e1 & -> & ->)|
                         [(_ & Hm & _)|(_ & Hm & _)]]]; try congruence.
      - split; [done|]. eapply Forall_impl; [exact Hsq|]. intros en Hen. by left.
      - split; [done|]. apply Forall_cons. split; [by right|constructor]. }
    split; [done|].
    assert (Forall (λ en, isGit en = true) t) as Hgit.
    { eapply Forall_impl; [exact Ht|]. intros [X e x]. by destruct e; intros [?|[? ?]]. }
    assert (omap rebaseOf t = [] ∧ omap checkoutOf t = []) as [Hr Hc].
    { clear -Ht. induction Ht as [|en t Hen _ [IH1 IH2]]; [done|].
      cbn [omap list_omap]. rewrite IH1, IH2.
      destruct Hen as [Hen|(_ & -> & ->)]; [|done].
      destruct (statusQuery_quiet en Hen) as (-> & -> & _). done. }
    split.
    { apply Forall_cons. split; [done|]. apply Forall_app. split.
      - eapply Forall_impl; [exact Hq|]. intros [X e x]. by destruct e.
      - by repeat (apply Forall_cons; split; [done|]). }
    cbn [omap list_omap rebaseOf checkoutOf]. rewrite !omap_app.
    rewrite (omap_none rebaseOf isRefQuery ttb); [| |done].
    2:{ intros en Hen. apply (refQuery_quiet en Hen). }
    rewrite (omap_none checkoutOf isRefQuery ttb); [| |done].
    2:{ intros en Hen. apply (refQuery_quiet en Hen). }
    cbn [omap list_omap rebaseOf checkoutOf app]. by rewrite Hr, Hc. }
  cbn zeta. destruct (Hall repo dir w) as (H1 & H2 & H3 & H4).
  repeat split; try done.
  apply syncRepo_no_shell. intros repo' dir' w1. apply (Hall repo' dir' w1).
Qed.

(** *** The order of the checkouts *)

(** X11: A run of syncRepoFull that rebases and ends [synced] asks for the
    local branches once, and checks out every one of them that is
    neither the current nor the target branch, once, in the order in
    which git lists them and whether or not an earlier one failed; the
    last checkout is that of the branch the run started on. *)
Theorem syncRepoFull_checkout_order (fl : flags) (wsPath : string)
    (ws : Workspace) (nm : string) (repo : RepoDef) (dir : string) (w : W) :
  let res := run h (syncRepoFull fl wsPath ws nm repo dir) w in
  let cur := currentBranch h dir w in
  let tb := targetBranch h fl ws repo dir w in
  syncNoRebase fl = false →
  status (result_of res) = "synced" →
  ∃ brs,
    omap branchesOf (trace_of res) = [brs]
    ∧ map fst (omap checkoutOf (trace_of res))
      = map (pair dir) (otherBranches cur tb brs ++ [cur]).
Proof.
  destruct (syncRepoFull_cases fl wsPath ws nm repo dir w)
    as (ttb & ab & out & r & w' & t & Hq & -> & Hcases).
  cbn zeta. unfold trace_of, result_of. cbn [fst snd]. intros Hmode Hst.
  destruct Hcases as [(_ & _ & txt & ->)|[(_ & Hm & _)|
                     [(_ & _ & st & brs & e1 & x & _ & ->)|
                      (_ & _ & st & brs & rb & fa & w3 & w4 & tl & x & st' & ab1
                       & Hev & Hloop & -> & ->)]]]; try done; try congruence.
  exists brs.
  destruct (rebaseOthers_run dir ("origin/" +:+ targetBranch h fl ws repo dir w)
              (currentBranch h dir w) (targetBranch h fl ws repo dir w) brs [] [] w3)
    as (rb1 & fa1 & dr & w5 & t5 & Hrun & _ & Hco & _).
  rewrite Hloop in Hrun. injection Hrun as _ _ _ <-.
  cbn [omap list_omap branchesOf checkoutOf]. rewrite !omap_app.
  rewrite (omap_none branchesOf isRefQuery ttb); [| |done].
  2:{ intros [X e y]. by destruct e. }
  rewrite (omap_none checkoutOf isRefQuery ttb); [| |done].
  2:{ intros en Hen. apply (refQuery_quiet en Hen). }
  cbn [omap list_omap branchesOf checkoutOf app]. rewrite !omap_app.
  rewrite (omap_none branchesOf isLoopEvent tl); [| |done].
  2:{ intros [X e y]. by destruct e. }
  split; [done|].
  cbn [omap list_omap checkoutOf app]. by rewrite !map_app, Hco.
Qed.

(** *** The other branches *)


(** *** The sync of one repo *)

(** X13: syncRepo returns an error exactly when the repo is not in the
    workspace or its directory does not exist, and then no git command
    has been run; a sync that was skipped or that failed is not an
    error. *)
Theorem syncRepo_error_iff (fl : flags) (wsPath : string) (ws : Workspace)
    (nm : string) (w : W) :
  let res := run h (syncRepo fl wsPath ws nm) w in
  (is_Some (result_of res)
   ↔ match Repos ws !! nm with
     | None => True
     | Some repo =>
         (h _ (OsStat (filepath_Join [wsPath; Path repo])) w).1 = StatNotExist
     end)
  ∧ (is_Some (result_of res) → Forall (λ en, isGit en = false) (trace_of res)).
Proof.
  cbn zeta. unfold syncRepo.
  destruct (Repos ws !! nm) as [repo|].
  2:{ rewrite run_ret. unfold result_of, trace_of. cbn. by split. }
  rewrite run_trigger_bind.
  destruct (h _ (OsStat _) w) as [st w1]. cbn [fst snd].
  destruct st as [info| |err]; cbn [IsNotExist].
  2:{ rewrite run_ret. unfold result_of, trace_of. cbn. split; [done|].
      intros _. by repeat constructor. }
  all: rewrite run_bind;
    destruct (run h (syncRepoFull _ _ _ _ _ _) w1) as [[r w2] t];
    rewrite run_bind;
    destruct (run h (if syncInstall fl && lockfileChanged r then _ else _) w2)
      as [[u w3] t3];
    rewrite run_bind;
    destruct (run h (if existsb _ cdkLambdaMappings then _ else _) w3)
      as [[u' w4] t4];
    rewrite run_ret; unfold result_of, trace_of; cbn [fst snd];
    split; [split; [by intros [? [=]]|done]|by intros [? [=]]].
Qed.

(** *** The phases of the sync of all repos *)

Lemma joinFetches_run pending w :
  let t := trace_of (run h (joinFetches pending) w) in
  Forall (λ en, isFetchPhase en = true) t
  ∧ omap lookedAt t = []
  ∧ omap foundDir t = []
  ∧ omap fetchOf t = map (λ d, (d, "origin")) pending.
Proof.
  cbn zeta. revert w. induction pending as [|d pending IH]; intros w; cbn [joinFetches].
  { by rewrite run_ret. }
  unfold FetchQuiet. rewrite decide_False by done. rewrite run_trigger_bind.
  destruct (h _ (GitFetch _ _) w) as [x w1]. cbn [fst snd].
  destruct (IH w1) as (IH1 & IH2 & IH3 & IH4).
  destruct (run h (joinFetches pending) w1) as [[u w2] t].
  unfold trace_of in *. cbn [snd] in *.
  split; [by constructor|]. cbn [omap list_omap lookedAt foundDir fetchOf map].
  by rewrite IH2, IH3, IH4.
Qed.

Lemma startFetches_run wsPath ws names pending w :
  let res := run h (startFetches wsPath ws names pending) w in
  Forall (λ en, isFetchPhase en = true) (trace_of res)
  ∧ omap lookedAt (trace_of res) = map (repoDirOf wsPath ws) names
  ∧ omap fetchOf (trace_of res) = []
  ∧ result_of res = pending ++ omap foundDir (trace_of res).
Proof.
  cbn zeta. revert pending w.
  induction names as [|n names IH]; intros pending w; cbn [startFetches].
  { rewrite run_ret. unfold result_of, trace_of. cbn [fst snd omap list_omap].
    by rewrite app_nil_r. }
  fold (repoDirOf wsPath ws n). rewrite run_trigger_bind.
  destruct (h _ (OsStat (repoDirOf wsPath ws n)) w) as [st w1]. cbn [fst snd].
  destruct (IsNotExist st) eqn:Hst.
  - destruct (IH pending w1) as (IH1 & IH2 & IH3 & IH4).
    destruct (run h (startFetches wsPath ws names pending) w1) as [[u w2] t].
    unfold trace_of, result_of in *. cbn [fst snd] in *.
    split; [by constructor|].
    cbn [omap list_omap lookedAt foundDir fetchOf map]. rewrite Hst, IH2.
    by split; [|split].
  - destruct (IH (pending ++ [repoDirOf wsPath ws n]) w1) as (IH1 & IH2 & IH3 & IH4).
    destruct (run h (startFetches wsPath ws names _) w1) as [[u w2] t].
    unfold trace_of, result_of in *. cbn [fst snd] in *.
    split; [by constructor|].
    cbn [omap list_omap lookedAt foundDir fetchOf map]. rewrite Hst, IH2.
    split; [done|]. split; [done|]. by rewrite IH4, <- app_assoc.
Qed.

(** The fetch phase under any schedule: the loop looks at the directories
    in the order of the names, and the fetches that complete are those
    that were running at the start and those of the directories found,
    each once. *)
Lemma fetchAll_run wsPath ws sched names pending w :
  let t := trace_of (run h (fetchAll wsPath ws sched names pending) w) in
  Forall (λ en, isFetchPhase en = true) t
  ∧ omap lookedAt t = map (repoDirOf wsPath ws) names
  ∧ omap fetchOf t ≡ₚ map (λ d, (d, "origin")) (pending ++ omap foundDir t).
Proof.
  cbn zeta. revert names pending w.
  induction sched as [|c sched IH]; intros names pending w; cbn [fetchAll].
  { rewrite run_bind.
    destruct (startFetches_run wsPath ws names pending w) as (S1 & S2 & S3 & S4).
    destruct (run h (startFetches wsPath ws names pending) w) as [[p1 w1] t1].
    unfold trace_of, result_of in S1, S2, S3, S4. cbn [fst snd] in S1, S2, S3, S4.
    destruct (joinFetches_run p1 w1) as (J1 & J2 & J3 & J4).
    destruct (run h (joinFetches p1) w1) as [[u w2] t2].
    unfold trace_of in *. cbn [fst snd] in *.
    split; [by apply Forall_app|]. rewrite !omap_app, J2, J3, J4, S2, S3, !app_nil_r.
    split; [done|]. cbn [app]. by rewrite S4. }
  destruct c as [|k].
  - destruct names as [|n names]; [apply IH|].
    fold (repoDirOf wsPath ws n). rewrite run_trigger_bind.
    destruct (h _ (OsStat (repoDirOf wsPath ws n)) w) as [st w1]. cbn [fst snd].
    destruct (IsNotExist st) eqn:Hst.
    + destruct (IH names pending w1) as (IH1 & IH2 & IH3).
      destruct (run h (fetchAll wsPath ws sched names pending) w1) as [[u w2] t].
      unfold trace_of in *. cbn [snd] in *. split; [by constructor|].
      cbn [omap list_omap lookedAt foundDir fetchOf map]. rewrite Hst, IH2.
      by split.
    + destruct (IH names (pending ++ [repoDirOf wsPath ws n]) w1) as (IH1 & IH2 & IH3).
      destruct (run h (fetchAll wsPath ws sched names _) w1) as [[u w2] t].
      unfold trace_of in *. cbn [snd] in *. split; [by constructor|].
      cbn [omap list_omap lookedAt foundDir fetchOf map]. rewrite Hst, IH2.
      split; [done|]. by rewrite IH3, <- app_assoc.
  - destruct (pending !! k) as [d|] eqn:Hk; [|apply IH].
    unfold FetchQuiet. rewrite decide_False by done. rewrite run_trigger_bind.
    destruct (h _ (GitFetch _ _) w) as [x w1]. cbn [fst snd].
    destruct (IH names (delete k pending) w1) as (IH1 & IH2 & IH3).
    destruct (run h (fetchAll wsPath ws sched names _) w1) as [[u w2] t].
    unfold trace_of in *. cbn [snd] in *. split; [by constructor|].
    cbn [omap list_omap lookedAt foundDir fetchOf map]. split; [done|].
    rewrite IH3.
    change ((d, "origin") :: map ?f ?l) with (map f (d :: l)).
    apply Permutation_map. rewrite app_comm_cons. apply Permutation_app_tail.
    symmetry. by apply delete_Permutation.
Qed.

Lemma rebaseAll_run fl wsPath ws names acc w :
  let res := run h (rebaseAll fl wsPath ws names acc) w in
  Forall (λ en, isRepoSyncEvent en = true) (trace_of res)
  ∧ ∃ rs, result_of res = acc ++ rs
          ∧ map name rs = names
          ∧ Forall (λ r, status r = "synced" ∨ status r = "skipped"
                         ∨ status r = "failed") rs
          ∧ Forall (λ r, lockfileChanged r = true →
                         status r = "synced" ∧ syncNoRebase fl = false) rs.
Proof.
  cbn zeta. revert acc w. induction names as [|n names IH]; intros acc w;
    cbn [rebaseAll].
  { rewrite run_ret. split; [constructor|]. exists []. by rewrite app_nil_r. }
  rewrite run_trigger_bind.
  destruct (h _ (OsStat _) w) as [st w1]. cbn [fst snd].
  destruct (IsNotExist st).
  - destruct (IH (acc ++ [ {| name := n; branch := ""; status := "skipped";
                              message := "not cloned"; ahead := 0; behind := 0;
                              dirty := false; dirtyStatus := "";
                              lockfileChanged := false |} ]) w1)
      as (IH1 & rs & Hrs & Hn & Hst & Hl).
    destruct (run h (rebaseAll _ _ _ _ _) w1) as [[rs' w2] t].
    unfold trace_of, result_of in *. cbn [fst snd] in *.
    split; [by constructor|]. eexists (_ :: rs).
    split; [by rewrite Hrs, <- app_assoc|]. split; [cbn; by rewrite Hn|].
    split; constructor; cbn; auto; done.
  - rewrite run_bind.
    pose proof (syncRepoFull_events fl wsPath ws n
                  (default zeroRepoDef (Repos ws !! n))
                  (filepath_Join [wsPath; Path (default zeroRepoDef (Repos ws !! n))])
                  w1) as Hev.
    pose proof (syncRepoFull_cases fl wsPath ws n
                  (default zeroRepoDef (Repos ws !! n))
                  (filepath_Join [wsPath; Path (default zeroRepoDef (Repos ws !! n))])
                  w1) as (ttb & ab & out & r0 & w0 & t0 & _ & Heq & Hcases).
    rewrite Heq in Hev |- *. clear Heq.
    assert (name r0 = n
            ∧ (status r0 = "synced" ∨ status r0 = "skipped" ∨ status r0 = "failed")
            ∧ (lockfileChanged r0 = true →
               status r0 = "synced" ∧ syncNoRebase fl = false)) as (Hr1 & Hr2 & Hr3).
    { destruct Hcases as [(_ & _ & txt & ->)|[(_ & Hm & e & _ & ->)|
                         [(_ & Hm & st1 & brs & e & x & _ & ->)|
                          (_ & Hm & st1 & brs & rb & fa & w3 & w4 & tl & x & st' & ab1
                           & _ & _ & _ & ->)]]];
        cbn [name status lockfileChanged]; [|destruct e|..]; repeat split; auto; done. }
    destruct (IH (acc ++ [r0]) w0) as (IH1 & rs & Hrs & Hn & Hst & Hl).
    destruct (run h (rebaseAll _ _ _ _ _) w0) as [[rs' w2] t].
    unfold trace_of, result_of in *. cbn [fst snd] in *.
    split; [constructor; [done|by apply Forall_app]|]. exists (r0 :: rs).
    split; [by rewrite Hrs, <- app_assoc|]. split; [cbn; by rewrite Hr1, Hn|].
    split; by constructor.
Qed.

Lemma installChanged_run wsPath ws wsEnv rs w :
  let t := trace_of (run h (installChanged wsPath ws wsEnv rs) w) in
  Forall (λ en, match en with
                | Entry e _ =>
                    match e with
                    | OsStat _ => True
                    | RunSyncCmd _ c env => c = "npm install" ∧ env = wsEnv
                    | _ => False
                    end
                end) t
  ∧ sublist (omap shellOf t)
      (map (λ r, (installDir wsPath ws r, "npm install"))
           (List.filter lockfileChanged rs)).
Proof.
  cbn zeta. revert w. induction rs as [|r rs IH]; intros w; cbn [installChanged].
  { rewrite run_ret. by split. }
  cbn [List.filter]. destruct (lockfileChanged r); cbn [negb]; [|apply IH].
  fold (installDir wsPath ws r). rewrite run_trigger_bind.
  destruct (h _ (OsStat _) w) as [st w1]. cbn [fst snd].
  destruct (IsNotExist st).
  - destruct (IH w1) as [IH1 IH2].
    destruct (run h (installChanged _ _ _ _) w1) as [[u w2] t].
    unfold trace_of in *. cbn [snd] in *. split; [by constructor|].
    cbn [omap list_omap shellOf map]. by apply sublist_cons.
  - rewrite run_trigger_bind.
    destruct (h _ (RunSyncCmd _ _ _) w1) as [x w2]. cbn [fst snd].
    destruct (IH w2) as [IH1 IH2].
    destruct (run h (installChanged _ _ _ _) w2) as [[u w3] t].
    unfold trace_of in *. cbn [snd] in *. split; [by repeat constructor|].
    cbn [omap list_omap shellOf map]. by apply sublist_skip.
Qed.

Lemma updateAll_run wsPath ws wsEnv names w :
  Forall (λ en, match en with
                | Entry e _ =>
                    match e with
                    | OsStat _ | CallFindSparkPackages _ => True
                    | RunSyncCmd _ c _ =>
                        ∃ pkg, c = "npm install " +:+ pkg +:+ "@latest --save"
                    | _ => False
                    end
                end)
    (trace_of (run h (updateAll wsPath ws wsEnv names) w)).
Proof.
  revert w. induction names as [|n names IH]; intros w; cbn [updateAll].
  { apply trace_ret_all. }
  apply trace_trigger_bind_all; [done|]. intros st w1.
  destruct (IsNotExist st); [apply IH|].
  apply trace_trigger_bind_all; [done|]. intros pkgs w2.
  apply trace_bind_all; [|intros _ w3; apply IH].
  clear. revert w2. induction pkgs as [|pkg pkgs IH]; intros w2; cbn [updatePackages].
  { apply trace_ret_all. }
  apply trace_trigger_bind_all; [|intros _ w3; apply IH].
  intros _. by exists pkg.
Qed.

Lemma allNames_empty ws : size (Repos ws) = 0%nat → allNames ws = [].
Proof.
  intros Hs. apply map_size_empty_inv in Hs. unfold allNames.
  by rewrite Hs, map_to_list_empty.
Qed.

Lemma fetchAll_nothing wsPath ws sched w :
  run h (fetchAll wsPath ws sched [] []) w = ((), w, []).
Proof.
  induction sched as [|[|k] sched IH]; cbn [fetchAll startFetches joinFetches].
  - by rewrite run_bind, !run_ret.
  - done.
  - by rewrite lookup_nil.
Qed.

(** The run of syncAllRepos: the fetches, the rebases, and then the
    install, update and link phases. *)
Lemma syncAllRepos_run fl wsPath ws sched w :
  ∃ w1 rs w2 t2 t3,
    result_of (run h (syncAllRepos fl wsPath ws sched) w) = None
    ∧ run h (rebaseAll fl wsPath ws (allNames ws) []) w1 = (rs, w2, t2)
    ∧ trace_of (run h (syncAllRepos fl wsPath ws sched) w)
      = trace_of (run h (fetchAll wsPath ws sched (allNames ws) []) w)
        ++ (if decide (size (Repos ws) = 0%nat) then [] else t2 ++ t3)
    ∧ Forall (λ en, match en with
                    | Entry e _ =>
                        match e with
                        | OsStat _ => syncInstall fl = true ∨ syncUpdate fl = true
                        | CallBuildSyncEnv _ =>
                            syncInstall fl = true ∨ syncUpdate fl = true
                        | CallFindSparkPackages _ => syncUpdate fl = true
                        | RunSyncCmd _ c _ =>
                            (syncInstall fl = true ∧ c = "npm install")
                            ∨ (syncUpdate fl = true
                               ∧ ∃ pkg, c = "npm install " +:+ pkg +:+ "@latest --save")
                        | CallLinkCDKDependencies _ => True
                        | _ => False
                        end
                    end) t3.
Proof.
  unfold syncAllRepos. fold (allNames ws).
  destruct (decide (size (Repos ws) = 0%nat)) as [Hz|Hz].
  { rewrite (allNames_empty ws Hz), fetchAll_nothing. cbn [rebaseAll].
    rewrite !run_ret. by exists w, [], w, [], []. }
  rewrite run_bind.
  destruct (run h (fetchAll wsPath ws sched (allNames ws) []) w) as [[u w1] t1].
  rewrite run_bind.
  destruct (run h (rebaseAll fl wsPath ws (allNames ws) []) w1) as [[rs w2] t2] eqn:Hrs.
  exists w1, rs, w2, t2.
  set (P := λ en : entry, match en with Entry e _ => _ end).
  assert (∀ w2, Forall P
            (trace_of (run h
               (if syncInstall fl then
                  wsEnv ← trigger (CallBuildSyncEnv wsPath);
                  installChanged wsPath ws wsEnv rs
                else mret ()) w2))) as Hinst.
  { intros wa. destruct (syncInstall fl) eqn:Hi; [|apply trace_ret_all].
    apply trace_trigger_bind_all; [intros ?; by left|]. intros wsEnv wb.
    eapply Forall_impl; [apply (installChanged_run wsPath ws wsEnv rs wb)|].
    intros [X e x]. destruct e; try done; cbn; [by left|]. intros [-> _]. by left. }
  assert (∀ w2, Forall P
            (trace_of (run h
               (if syncUpdate fl then
                  wsEnv ← trigger (CallBuildSyncEnv wsPath);
                  updateAll wsPath ws wsEnv (allNames ws)
                else mret ()) w2))) as Hupd.
  { intros wa. destruct (syncUpdate fl) eqn:Hu; [|apply trace_ret_all].
    apply trace_trigger_bind_all; [intros ?; by right|]. intros wsEnv wb.
    eapply Forall_impl; [apply (updateAll_run wsPath ws wsEnv (allNames ws) wb)|].
    intros [X e x]. destruct e; try done; cbn; [by right|]. intros [pkg ->].
    right. split; [done|]. by exists pkg. }
  assert (∀ w2, Forall P
            (trace_of (run h
               (_ ← (if syncInstall fl then
                       wsEnv ← trigger (CallBuildSyncEnv wsPath);
                       installChanged wsPath ws wsEnv rs
                     else mret ());
                _ ← (if syncUpdate fl then
                       wsEnv ← trigger (CallBuildSyncEnv wsPath);
                       updateAll wsPath ws wsEnv (allNames ws)
                     else mret ());
                _ ← trigger (CallLinkCDKDependencies wsPath);
                mret (None : option error)) w2))) as Htail.
  { intros wa. apply trace_bind_all; [apply Hinst|]. intros _ wb.
    apply trace_bind_all; [apply Hupd|]. intros _ wc.
    apply trace_trigger_bind_all; [done|]. intros _ wd. apply trace_ret_all. }
  clearbody P. clear Hinst Hupd. specialize (Htail w2).
  destruct (run h _ w2) as [[r w3] t3] eqn:Htl.
  exists t3. unfold result_of, trace_of in *. cbn [fst snd] in *.
  split; [|by split].
  clear -Htl. revert Htl. rewrite run_bind.
  destruct (run h (if syncInstall fl then _ else _) w2) as [[u1 w4] t4].
  rewrite run_bind.
  destruct (run h (if syncUpdate fl then _ else _) w4) as [[u2 w5] t5].
  rewrite run_trigger_bind. destruct (h _ _ w5) as [u3 w6]. cbn [fst snd].
  rewrite run_ret. by intros [= <- _ _].
Qed.

(** X14: The sync of one repo never fetches: it rebases onto whatever
    [origin/<target>] was when the remote was last fetched. *)
Theorem syncRepo_never_fetches (fl : flags) (wsPath : string) (ws : Workspace)
    (nm : string) (w : W) :
  Forall (λ en, isFetch en = false) (trace_of (run h (syncRepo fl wsPath ws nm) w)).
Proof.
  unfold syncRepo. destruct (Repos ws !! nm) as [repo|]; [|apply trace_ret_all].
  apply trace_trigger_bind_all; [done|]. intros st w1.
  destruct (IsNotExist st); [apply trace_ret_all|].
  apply trace_bind_all.
  { eapply Forall_impl; [apply syncRepoFull_events|].
    intros [X e x]. by destruct e. }
  intros r w2. apply trace_bind_all.
  { destruct (syncInstall fl && lockfileChanged r); [|apply trace_ret_all].
    unfold installRepo. apply trace_trigger_bind_all; [done|]. intros st2 w3.
    destruct (IsNotExist st2); [apply trace_ret_all|].
    apply trace_trigger_bind_all; [done|]. intros env w4.
    apply trace_trigger_bind_all; [done|]. intros x w5. apply trace_ret_all. }
  intros _ w3. apply trace_bind_all; [|intros; apply trace_ret_all].
  destruct (existsb _ cdkLambdaMappings); [|apply trace_ret_all].
  by apply trace_trigger_all.
Qed.

(** *** The sync of all repos *)

(** X15: syncAllRepos never returns an error, and every fetch comes before
    anything else, whatever the schedule of the fetch goroutines: its
    run is the fetch phase followed by events none of which is a fetch.
    The fetch phase only looks at directories and fetches; the
    directories of the repos are looked at in the sorted order of the
    names, and [origin] is fetched once for each directory that was not
    found missing, in an order that the schedule decides. *)
Theorem syncAllRepos_fetch_first (fl : flags) (wsPath : string) (ws : Workspace)
    (sched : list nat) (w : W) :
  let res := run h (syncAllRepos fl wsPath ws sched) w in
  let t1 := trace_of (run h (fetchAll wsPath ws sched (allNames ws) []) w) in
  result_of res = None
  ∧ Forall (λ en, isFetchPhase en = true) t1
  ∧ omap lookedAt t1 = map (repoDirOf wsPath ws) (allNames ws)
  ∧ omap fetchOf t1 ≡ₚ map (λ d, (d, "origin")) (omap foundDir t1)
  ∧ ∃ t2, trace_of res = t1 ++ t2 ∧ Forall (λ en, isFetch en = false) t2.
Proof.
  cbn zeta.
  destruct (syncAllRepos_run fl wsPath ws sched w)
    as (w1 & rs & w2 & t2 & t3 & Hres & Hrs & Htr & Ht3).
  destruct (fetchAll_run wsPath ws sched (allNames ws) [] w) as (Hf1 & Hf2 & Hf3).
  split; [done|]. split; [done|]. split; [done|]. split; [done|].
  eexists. split; [exact Htr|].
  destruct (decide _); [constructor|]. apply Forall_app. split.
  - destruct (rebaseAll_run fl wsPath ws (allNames ws) [] w1) as [Hev _].
    rewrite Hrs in Hev. unfold trace_of in Hev. cbn [snd] in Hev.
    eapply Forall_impl; [exact Hev|]. intros [X e x]. by destruct e.
  - eapply Forall_impl; [exact Ht3|]. intros [X e x]. by destruct e.
Qed.

(** X16: The rebase phase gives one result per repo of the workspace, in the
    sorted order of the names and under the repo's name, whether the
    repo was synced, skipped, not cloned or failed. *)
Theorem rebaseAll_one_result_per_repo (fl : flags) (wsPath : string)
    (ws : Workspace) (w : W) :
  let rs := result_of (run h (rebaseAll fl wsPath ws (allNames ws) []) w) in
  map name rs = allNames ws
  ∧ NoDup (map name rs)
  ∧ StronglySorted String.le (map name rs)
  ∧ (∀ n, n ∈ map name rs ↔ is_Some (Repos ws !! n))
  ∧ Forall (λ r, status r = "synced" ∨ status r = "skipped" ∨ status r = "failed") rs.
Proof.
  cbn zeta.
  destruct (rebaseAll_run fl wsPath ws (allNames ws) [] w)
    as (_ & rs & -> & Hn & Hst & _).
  cbn [app]. rewrite Hn. split; [done|]. unfold allNames.
  split; [|split; [|split; [|done]]].
  - rewrite merge_sort_Permutation. apply NoDup_fst_map_to_list.
  - apply StronglySorted_merge_sort; apply _.
  - intros n. rewrite merge_sort_Permutation, list_elem_of_fmap. split.
    + intros ([k v] & -> & Hkv). apply elem_of_map_to_list in Hkv. by exists v.
    + intros [v Hv]. exists (n, v). split; [done|]. by apply elem_of_map_to_list.
Qed.

(** X17: Whatever syncAllRepos runs through the login shell is [npm install],
    and only under [--install], or [npm install <pkg>@latest --save], and
    only under [--update]; without the two flags it runs no shell
    command. *)
Theorem syncAllRepos_shell_commands (fl : flags) (wsPath : string)
    (ws : Workspace) (sched : list nat) (w : W) :
  Forall (λ c, (syncInstall fl = true ∧ c.2 = "npm install")
               ∨ (syncUpdate fl = true
                  ∧ ∃ pkg, c.2 = "npm install " +:+ pkg +:+ "@latest --save"))
    (omap shellOf (trace_of (run h (syncAllRepos fl wsPath ws sched) w))).
Proof.
  destruct (syncAllRepos_run fl wsPath ws sched w)
    as (w1 & rs & w2 & t2 & t3 & _ & Hrs & -> & Ht3).
  destruct (fetchAll_run wsPath ws sched (allNames ws) [] w) as [Hf1 _].
  rewrite omap_app.
  rewrite (omap_none shellOf isFetchPhase _ (λ en, ltac:(by destruct en as [X [] x])) Hf1).
  cbn [app]. destruct (decide _); [constructor|]. rewrite omap_app.
  destruct (rebaseAll_run fl wsPath ws (allNames ws) [] w1) as [Hev _].
  rewrite Hrs in Hev. unfold trace_of in Hev. cbn [snd] in Hev.
  rewrite (omap_none shellOf isRepoSyncEvent _
             (λ en, ltac:(by destruct en as [X [] x])) Hev).
  cbn [app]. clear -Ht3. induction Ht3 as [|[X e x] t3 He _ IH]; [constructor|].
  cbn [omap list_omap]. destruct e; try done. cbn [shellOf]. by constructor.
Qed.

(** The install phase runs [npm install] and nothing else, at most once
    for each result whose lockfile changed, in the order of the results
    and in the directory of the repo of that name. *)
Theorem installChanged_only_changed (wsPath : string) (ws : Workspace)
    (wsEnv : list (string * string)) (rs : list repoSyncResult) (w : W) :
  sublist (omap shellOf (trace_of (run h (installChanged wsPath ws wsEnv rs) w)))
    (map (λ r, (installDir wsPath ws r, "npm install"))
         (List.filter lockfileChanged rs)).
Proof. apply installChanged_run. Qed.

(** *** The message of a synced result *)

(** X18: The message is empty exactly when no other branch was rebased and
    none failed. *)
Theorem finalMessage_empty_iff (rebased failed : list string) :
  finalMessage rebased failed = "" ↔ rebased = [] ∧ failed = [].
Proof.
  unfold finalMessage. split; [|by intros [-> ->]].
  destruct rebased as [|b bs], failed as [|c cs]; [done|..];
    cbn [length Nat.ltb Nat.leb]; intros Heq; exfalso.
  - rewrite decide_False in Heq by (by intros ?).
    apply (f_equal String.length) in Heq. rewrite !length_app in Heq.
    cbn [String.length] in Heq. lia.
  - apply (f_equal String.length) in Heq. rewrite !length_app in Heq.
    cbn [String.length] in Heq. lia.
  - destruct (decide _); apply (f_equal String.length) in Heq;
      rewrite !length_app in Heq; cbn [String.length] in Heq; lia.
Qed.

End SyncMoreFacts.

(* ===================================================================== *)
(** ** More on the resolver                                               *)
(* ===================================================================== *)

Section ResolverMore.
Import workspace Resolver ResolverSpec ResolverGraph ResolverInputs.

(** X3: The walk of getDepsForRun returns on every workspace, cyclic or not:
    a recursion depth of two more than the number of repos is never
    exceeded, and every larger bound gives the same sequence. *)
Theorem getDepsForRun_returns (ws : Workspace) (name : string) (fuel : nat) :
  (S (S (size (Repos ws))) ≤ fuel)%nat →
  getDepsForRun_fuel fuel ws name = Some (getDepsForRun ws name).
Proof.
  intros Hle. pose proof (getDepsForRun_terminates ws name) as Ht.
  unfold getDepsForRun_fuel in *.
  destruct (collect ws (S (S (size (Repos ws)))) name _) as [st|] eqn:Hc;
    simpl in Ht; [|done].
  by rewrite (collect_fuel_mono ws _ _ _ _ _ Hle Hc).
Qed.

Lemma getDepsForRun_returns_cycle :
  getDepsForRun_fuel 10 wsCycle "AppAPI" = Some (getDepsForRun wsCycle "AppAPI").
Proof. apply getDepsForRun_returns. vm_compute. lia. Defined.

Lemma apiToModel_values n m :
  apiToModel !! n = Some m → m = "AppModel" ∨ m = "BusinessModel".
Proof.
  unfold apiToModel. rewrite lookup_insert_Some.
  intros [[_ <-]|[_ Hm]]; [by left|].
  apply lookup_singleton_Some in Hm as [_ <-]. by right.
Qed.

(** X4: In a workspace where no API repo has its model present, the
    sequence that getDepsForRun returns has no duplicates. *)
Theorem getDepsForRun_NoDup_without_models (ws : Workspace) (name : string) :
  Repos ws !! "AppModel" = None →
  Repos ws !! "BusinessModel" = None →
  NoDup (getDepsForRun ws name).
Proof.
  intros Ha Hb. apply getDepsForRun_NoDup_declared.
  intros n m Hm. by destruct (apiToModel_values n m Hm) as [-> | ->].
Qed.

Lemma getDepsForRun_NoDup_without_models_XYZ : NoDup (getDepsForRun wsXYZ "X").
Proof. apply getDepsForRun_NoDup_without_models; reflexivity. Defined.

Lemma edge_targets ws n m :
  edge ws n m →
  apiToModel !! n = Some m ∨ m ∈ Dependencies (default zeroRepoDef (Repos ws !! n)).
Proof.
  intros [[Hm _]|(repo & Hn & Hin & _)]; [by left|]. right. by rewrite Hn.
Qed.

Lemma wsXYZ_Y_acyclic : ¬ onCycle wsXYZ "Y".
Proof.
  assert (∀ m, ¬ edge wsXYZ "Z" m) as HZ.
  { intros m [Hm|Hm]%edge_targets; [done|]. by apply elem_of_nil in Hm. }
  assert (∀ m, edge wsXYZ "Y" m → m = "Z") as HY.
  { intros m [Hm|Hm]%edge_targets; [done|]. by apply list_elem_of_singleton in Hm. }
  unfold onCycle. intros Hc. inversion Hc as [? ? He|? z ? He Hr]; subst.
  - by apply HY in He.
  - apply HY in He as ->. inversion Hr as [? ? He|? z ? He _]; subst;
      by apply HZ in He.
Qed.

Lemma getDepsForRun_build_order_XYZ :
  getDepsForRun wsXYZ "X" = ["Z"; "Y"] ∧ edge wsXYZ "Y" "Z" ∧ "Z" ∈ ["Z"].
Proof.
  assert (edge wsXYZ "Y" "Z") as He.
  { right. exists (repoWith ["Z"]). split; [reflexivity|].
    split; [by apply list_elem_of_singleton|]. by eexists. }
  split; [reflexivity|]. split; [exact He|].
  apply (getDepsForRun_build_order wsXYZ "X" ["Z"] [] "Y" "Z").
  - reflexivity.
  - intros Hin. by apply list_elem_of_singleton in Hin.
  - exact wsXYZ_Y_acyclic.
  - exact He.
Defined.

End ResolverMore.

(* ===================================================================== *)
(** ** More on the run command                                            *)
(* ===================================================================== *)

Section FallbackCommand.
Import workspace Resolver GoStrings Effects runmore RunSpec.
Context `{GoLib} {W : Type} (h : handler W).

Lemma run_fileExistsRun p w :
  run h (fileExistsRun p) w
  = (if (h _ (OsStat p) w).1 is StatOk _ then true else false,
     (h _ (OsStat p) w).2, [Entry (OsStat p) (h _ (OsStat p) w).1]).
Proof.
  unfold fileExistsRun. rewrite run_trigger_bind.
  by destruct (h _ (OsStat p) w) as [[info| |e] w1].
Qed.

Lemma getFallbackCommand_looks repoDir script w :
  let res := run h (getFallbackCommand repoDir script) w in
  let looks := omap statSeen (trace_of res) in
  length looks = length (trace_of res)
  ∧ firstMarker (markers repoDir script) (map snd looks) = (result_of res, looks).
Proof.
  cbn zeta. unfold getFallbackCommand, markers.
  destruct (decide (script = "build")) as [_|_];
    [|destruct (decide (script = "test")) as [_|_]; [|by rewrite run_ret]].
  all: rewrite run_bind, run_fileExistsRun;
    destruct (h _ (OsStat _) w) as [[i1| |e1] w1]; cbn [fst snd];
    rewrite run_bind; rewrite ?run_ret, ?run_fileExistsRun;
    try destruct (h _ (OsStat _) w1) as [[i2| |e2] w2]; cbn [fst snd];
    rewrite ?run_ret; try done.
  all: rewrite run_bind, run_fileExistsRun;
    destruct (h _ (OsStat _) w2) as [[i3| |e3] w3]; cbn [fst snd];
    rewrite ?run_ret; try done.
  all: rewrite run_bind, run_fileExistsRun;
    destruct (h _ (OsStat _) w3) as [[i4| |e4] w4]; cbn [fst snd];
    rewrite ?run_ret; try done.
Qed.

Lemma omap_length_le {A B} (f : A → option B) l :
  (length (omap f l) ≤ length l)%nat.
Proof.
  induction l as [|a l IH]; [done|]. cbn [omap list_omap].
  destruct (f a); cbn [length]; lia.
Qed.

Lemma omap_length_all {A B} (f : A → option B) l :
  length (omap f l) = length l → Forall (λ a, is_Some (f a)) l.
Proof.
  induction l as [|a l IH]; [constructor|]. cbn [omap list_omap].
  pose proof (omap_length_le f l).
  destruct (f a) eqn:Hfa; cbn [length]; intros Hl; [|lia].
  constructor; [by rewrite Hfa|]. apply IH. lia.
Qed.

(** getFallbackCommand only looks at files. *)
Lemma getFallbackCommand_stats repoDir script w :
  Forall (λ en, is_Some (statSeen en))
    (trace_of (run h (getFallbackCommand repoDir script) w)).
Proof. apply omap_length_all, getFallbackCommand_looks. Qed.

Lemma firstMarker_result ms found :
  (firstMarker ms found).1 = "" ∨ (firstMarker ms found).1 ∈ map snd ms.
Proof.
  revert found. induction ms as [|[p c] ms IH]; intros found; [by left|].
  destruct found as [|b found]; [by left|]. cbn [firstMarker].
  destruct b; [right; cbn; set_solver|].
  specialize (IH found). destruct (firstMarker ms found) as [r looks].
  cbn [fst] in *. destruct IH as [->|Hin]; [by left|right]. cbn. set_solver.
Qed.


End FallbackCommand.

(* ===================================================================== *)
(** ** Linking a model into its consumer                                  *)
(* ===================================================================== *)

Section AutoLinkConsumers.
Import workspace Resolver GoStrings Effects npm runcmd runmore SyncSpec RunSpec.
Context `{GoLib} {W : Type} (h : handler W).

Lemma modelToAPI_inverse name mapping :
  modelToAPI !! name = Some mapping →
  apiToModel !! api mapping = Some name ∧ apiToModel !! name = None.
Proof.
  unfold modelToAPI. rewrite lookup_insert_Some.
  intros [[<- <-]|[_ Hm]]; [done|].
  by apply lookup_singleton_Some in Hm as [<- <-].
Qed.

Lemma apiToModel_inverse name modelName :
  apiToModel !! name = Some modelName →
  ∃ mapping, modelToAPI !! modelName = Some mapping ∧ api mapping = name
             ∧ modelToAPI !! name = None.
Proof.
  unfold apiToModel. rewrite lookup_insert_Some.
  intros [[<- <-]|[_ Hm]]; [by eexists|].
  apply lookup_singleton_Some in Hm as [<- <-]. by eexists.
Qed.

(** X20: For every repo name at most one of the two link steps of a build
    does anything: a model repo has no model of its own to link, and an
    API repo has no consumer. *)
Theorem autoLink_exclusive (wsPath : string) (ws : Workspace) (name : string) (w : W) :
  run h (autoLinkDeps wsPath ws name) w = (None, w, [])
  ∨ run h (autoLinkConsumers wsPath ws name) w = (None, w, []).
Proof.
  unfold autoLinkDeps, autoLinkConsumers.
  destruct (apiToModel !! name) as [modelName|] eqn:Ha; [|by left].
  right. destruct (apiToModel_inverse name modelName Ha) as (m & _ & _ & ->).
  by rewrite run_ret.
Qed.

Context (modelDir apiDir pkgName : string).
Hypothesis laws : npmLaws h modelDir apiDir pkgName.

Lemma autoLinkConsumers_links wsPath ws name mapping w w1 tr1 :
  modelToAPI !! name = Some mapping →
  linkTarget wsPath ws (api mapping) = Some (modelDir, apiDir, pkgName) →
  run h (autoLinkConsumers wsPath ws name) w = (None, w1, tr1) →
  existsb isLinkOp tr1 = true →
  linkedIn h modelDir apiDir pkgName w1.
Proof.
  intros Hmap Htarget Hrun Hlinked. unfold autoLinkConsumers, linkTarget in *.
  destruct (modelToAPI_inverse name mapping Hmap) as [Hinv _].
  rewrite Hinv in Htarget. cbn [mbind option_bind] in Htarget.
  rewrite Hmap in Hrun, Htarget.
  destruct (Repos ws !! name) as [modelRepo|] eqn:Hrepo; [|by cbn in Htarget].
  cbn [mbind option_bind default] in Htarget. injection Htarget as Hm Ha Hp.
  destruct (Repos ws !! api mapping) as [apiRepo|].
  2:{ rewrite run_ret in Hrun. by simplify_eq. }
  cbn [from_option id] in *. rewrite Hm, Ha, Hp in *. clear Hm Ha Hp.
  set (pj := filepath_Join [filepath_Join [modelDir; SmithyBuildPath]; "package.json"]) in *.
  set (dt := filepath_Join [filepath_Join [modelDir; SmithyBuildPath]; "dist-types"]) in *.
  assert (pj ∈ artifacts modelDir) as Hpj_art by (unfold artifacts; set_solver).
  assert (dt ∈ artifacts modelDir) as Hdt_art by (unfold artifacts; set_solver).
  rewrite run_trigger_bind in Hrun.
  pose proof (stat_pure h _ _ _ laws apiDir w) as Hpure.
  destruct (h _ (OsStat apiDir) w) as [st w0]. cbn [fst snd] in *. subst w0.
  destruct (synccmd.IsNotExist st).
  { rewrite run_ret in Hrun. by simplify_eq. }
  rewrite run_bind in Hrun.
  destruct (run_IsBuilt h modelDir apiDir pkgName laws modelDir w) as (tb1 & Hb1 & Hq1).
  rewrite Hb1 in Hrun. fold pj dt in Hrun.
  destruct ((h _ (OsStat pj) w).1) as [i1| |] eqn:Hpj.
  2,3: cbn [negb] in Hrun; rewrite run_ret in Hrun; simplify_eq;
       cbn [existsb isLinkOp orb] in Hlinked; rewrite app_nil_r, Hq1 in Hlinked; done.
  destruct ((h _ (OsStat dt) w).1) as [i2| |] eqn:Hdt.
  2,3: cbn [negb] in Hrun; rewrite run_ret in Hrun; simplify_eq;
       cbn [existsb isLinkOp orb] in Hlinked; rewrite app_nil_r, Hq1 in Hlinked; done.
  cbn [negb] in Hrun.
  rewrite run_bind, (run_IsLinked h modelDir apiDir pkgName laws) in Hrun.
  destruct (match (h _ (OsLstat _) w).1 with
            | StatOk info => IsSymlink info
            | _ => false
            end).
  { rewrite run_ret in Hrun. simplify_eq.
    cbn [existsb isLinkOp orb app] in Hlinked.
    rewrite existsb_app, Hq1 in Hlinked. done. }
  rewrite (run_Print h modelDir apiDir pkgName laws) in Hrun.
  unfold Link, LinkPackage in Hrun. rewrite run_trigger_bind in Hrun.
  pose proof (link_keeps_artifacts h _ _ _ laws (BuildOutputDir modelDir) pj w Hpj_art)
    as Hk1p.
  pose proof (link_keeps_artifacts h _ _ _ laws (BuildOutputDir modelDir) dt w Hdt_art)
    as Hk1d.
  destruct (h _ (NpmLink (BuildOutputDir modelDir)) w) as [[e1|] wa];
    cbn [fst snd] in *.
  { rewrite run_ret in Hrun. by injection Hrun. }
  rewrite run_trigger_bind in Hrun.
  pose proof (linkPackage_keeps_artifacts h _ _ _ laws pj wa Hpj_art) as Hk2p.
  pose proof (linkPackage_keeps_artifacts h _ _ _ laws dt wa Hdt_art) as Hk2d.
  pose proof (linkPackage_links h _ _ _ laws wa) as Hl.
  destruct (h _ (NpmLinkPackage apiDir pkgName) wa) as [[e2|] wb];
    cbn [fst snd] in *.
  { rewrite run_ret in Hrun. by injection Hrun. }
  rewrite (run_Print h modelDir apiDir pkgName laws), run_ret in Hrun.
  injection Hrun as <- _.
  destruct (Hl wb eq_refl) as (info & Hinfo & Hsym).
  unfold linkedIn. fold pj dt. split; [|split].
  - exists i1. by rewrite Hk2p, Hk1p.
  - exists i2. by rewrite Hk2d, Hk1d.
  - by exists info.
Qed.

Lemma autoLinkDeps_linked wsPath ws nm w :
  linkTarget wsPath ws nm = Some (modelDir, apiDir, pkgName) →
  linkedIn h modelDir apiDir pkgName w →
  ∃ tr, run h (autoLinkDeps wsPath ws nm) w = (None, w, tr)
        ∧ existsb isLinkOp tr = false.
Proof.
  intros Htarget ((i1 & Hpj) & (i2 & Hdt) & (info & Hinfo & Hsym)).
  unfold autoLinkDeps, linkTarget in *.
  destruct (apiToModel !! nm) as [modelName|]; [|by cbn in Htarget].
  cbn [mbind option_bind] in Htarget.
  destruct (Repos ws !! modelName) as [modelRepo|]; [|by cbn in Htarget].
  cbn [mbind option_bind] in Htarget. injection Htarget as Hm Ha Hp.
  rewrite Hm, Ha, Hp in *. clear Hm Ha Hp.
  rewrite run_bind.
  destruct (run_IsBuilt h modelDir apiDir pkgName laws modelDir w) as (tb & Hb & Hq).
  rewrite Hb, Hpj, Hdt. cbn [negb].
  rewrite run_bind, (run_IsLinked h modelDir apiDir pkgName laws). rewrite Hinfo, Hsym.
  rewrite (run_Print h modelDir apiDir pkgName laws), run_ret.
  eexists. split; [reflexivity|]. rewrite existsb_app, Hq. done.
Qed.

Lemma autoLinkConsumers_linked wsPath ws name mapping w :
  modelToAPI !! name = Some mapping →
  linkTarget wsPath ws (api mapping) = Some (modelDir, apiDir, pkgName) →
  linkedIn h modelDir apiDir pkgName w →
  ∃ tr, run h (autoLinkConsumers wsPath ws name) w = (None, w, tr)
        ∧ existsb isLinkOp tr = false.
Proof.
  intros Hmap Htarget ((i1 & Hpj) & (i2 & Hdt) & (info & Hinfo & Hsym)).
  unfold autoLinkConsumers, linkTarget in *.
  destruct (modelToAPI_inverse name mapping Hmap) as [Hinv _].
  rewrite Hinv in Htarget. cbn [mbind option_bind] in Htarget.
  rewrite Hmap in Htarget |- *.
  destruct (Repos ws !! name) as [modelRepo|] eqn:Hrepo; [|by cbn in Htarget].
  cbn [mbind option_bind default] in Htarget. injection Htarget as Hm Ha Hp.
  destruct (Repos ws !! api mapping) as [apiRepo|]; [|rewrite run_ret; by eexists].
  cbn [from_option id] in *. rewrite Hm, Ha, Hp in *. clear Hm Ha Hp.
  rewrite run_trigger_bind.
  pose proof (stat_pure h _ _ _ laws apiDir w) as Hpure.
  destruct (h _ (OsStat apiDir) w) as [st w0]. cbn [fst snd] in *. subst w0.
  destruct (synccmd.IsNotExist st); [rewrite run_ret; by eexists|].
  rewrite run_bind.
  destruct (run_IsBuilt h modelDir apiDir pkgName laws modelDir w) as (tb & Hb & Hq).
  rewrite Hb, Hpj, Hdt. cbn [negb].
  rewrite run_bind, (run_IsLinked h modelDir apiDir pkgName laws). rewrite Hinfo, Hsym.
  rewrite run_ret.
  eexists. split; [reflexivity|].
  cbn [existsb isLinkOp orb app]. rewrite existsb_app, Hq. done.
Qed.

(** X21: A model is linked into its API once: if autoLinkConsumers for a
    model performs the link and returns without error, then in the world
    left behind neither autoLinkDeps for the API of that model (the
    build of the API that follows) nor a second autoLinkConsumers for the
    model performs a link operation; both return without error and
    change nothing. *)
Theorem autoLinkConsumers_links_once (wsPath : string) (ws : Workspace)
    (name : string) (mapping : depMapping) (w w1 : W) (tr1 : list entry) :
  modelToAPI !! name = Some mapping →
  linkTarget wsPath ws (api mapping) = Some (modelDir, apiDir, pkgName) →
  run h (autoLinkConsumers wsPath ws name) w = (None, w1, tr1) →
  existsb isLinkOp tr1 = true →
  (∃ tr2,
     run h (autoLinkDeps wsPath ws (api mapping)) w1 = (None, w1, tr2)
     ∧ existsb isLinkOp tr2 = false)
  ∧ (∃ tr3,
       run h (autoLinkConsumers wsPath ws name) w1 = (None, w1, tr3)
       ∧ existsb isLinkOp tr3 = false).
Proof.
  intros Hmap Htarget Hrun Hlinked.
  pose proof (autoLinkConsumers_links wsPath ws name mapping w w1 tr1
                Hmap Htarget Hrun Hlinked) as Hin.
  split.
  - by apply autoLinkDeps_linked.
  - by apply (autoLinkConsumers_linked wsPath ws name mapping).
Qed.

End AutoLinkConsumers.

(* ===================================================================== *)
(** ** The cdk command: the profile flag                                  *)
(* ===================================================================== *)

Section CdkProfile.
Import GoStrings cdkcmd CdkSpec.

Lemma parseProfile_spec n args p0 acc :
  (length args ≤ n)%nat →
  ∃ sub, (parseProfile args p0 acc).2 = acc ++ sub
         ∧ sublist sub args
         ∧ Forall (λ a, isProfileFlag a = false) sub
         ∧ (Forall (λ a, isProfileFlag a = false) args →
            parseProfile args p0 acc = (p0, acc ++ args)).
Proof.
  revert args p0 acc. induction n as [|n IH]; intros args p0 acc Hlen.
  { destruct args; [|cbn in Hlen; lia]. exists []. by rewrite app_nil_r. }
  destruct args as [|arg rest].
  { exists []. by rewrite app_nil_r. }
  cbn [length] in Hlen. cbn [parseProfile]. unfold isProfileFlag.
  destruct (bool_decide (arg = "--profile") || bool_decide (arg = "-p")) eqn:Hflag.
  { destruct rest as [|value rest].
    - exists []. rewrite app_nil_r. repeat split; [apply sublist_nil_l|constructor|].
      intros Hno. apply Forall_cons in Hno as [Hno _]. by rewrite Hflag in Hno.
    - cbn [length] in Hlen.
      destruct (IH rest value acc) as (sub & Heq & Hsub & Hall & _); [lia|].
      exists sub. repeat split; [done|by do 2 apply sublist_cons|done|].
      intros Hno. apply Forall_cons in Hno as [Hno _]. by rewrite Hflag in Hno. }
  cbn [orb].
  destruct (HasPrefix arg "--profile=") eqn:Hlong.
  { destruct (IH rest (TrimPrefix arg "--profile=") acc)
      as (sub & Heq & Hsub & Hall & _); [lia|].
    exists sub. repeat split; [done|by apply sublist_cons|done|].
    intros Hno. apply Forall_cons in Hno as [Hno _]. by rewrite Hflag, Hlong in Hno. }
  destruct (HasPrefix arg "-p=") eqn:Hshort.
  { destruct (IH rest (TrimPrefix arg "-p=") acc)
      as (sub & Heq & Hsub & Hall & _); [lia|].
    exists sub. repeat split; [done|by apply sublist_cons|done|].
    intros Hno. apply Forall_cons in Hno as [Hno _].
    by rewrite Hflag, Hlong, Hshort in Hno. }
  destruct (IH rest p0 (acc ++ [arg])) as (sub & Heq & Hsub & Hall & Hid); [lia|].
  exists (arg :: sub). repeat split.
  - by rewrite Heq, <- app_assoc.
  - by apply sublist_skip.
  - constructor; [|done]. unfold isProfileFlag. by rewrite Hflag, Hlong, Hshort.
  - intros Hno. apply Forall_cons in Hno as [_ Hno].
    by rewrite (Hid Hno), <- app_assoc.
Qed.

(** X22: What cdkCmd forwards to cdk is its arguments, in order, with some of
    them taken out; nothing that has one of the four forms of the profile
    flag in flag position is forwarded, and arguments without any such
    form are forwarded unchanged, with no profile chosen. *)
Theorem parseProfile_forwards (args : list string) :
  sublist (parseProfile args "" []).2 args
  ∧ Forall (λ a, isProfileFlag a = false) (parseProfile args "" []).2
  ∧ (Forall (λ a, isProfileFlag a = false) args →
     parseProfile args "" [] = ("", args)).
Proof.
  destruct (parseProfile_spec (length args) args "" []) as (sub & Heq & Hsub & Hall & Hid);
    [done|].
  rewrite Heq. cbn [app]. by repeat split.
Qed.

(** X23: The AWS profile that cdkCmd resolves: a short name given on the
    command line must be one of [pipeline], [beta] and [prod], stands for
    [openclaw-<name>] and beats the workspace default; the workspace
    default is used when no short name, or an empty one, is given. *)
Theorem resolveProfile_cases (profileShort AWSProfile : string) :
  match resolveProfile profileShort AWSProfile with
  | None => profileShort ≠ "" ∧ profileShort ∉ ["pipeline"; "beta"; "prod"]
  | Some v =>
      (profileShort = "" ∧ v = AWSProfile)
      ∨ (profileShort ∈ ["pipeline"; "beta"; "prod"]
         ∧ v = "openclaw-" +:+ profileShort)
  end.
Proof.
  unfold resolveProfile.
  destruct (decide (profileShort ≠ "")) as [Hne|Heq].
  - destruct (profileMap !! profileShort) as [v|] eqn:Hv.
    + right. unfold profileMap in Hv.
      apply lookup_insert_Some in Hv as [[<- <-]|[_ Hv]]; [set_solver|].
      apply lookup_insert_Some in Hv as [[<- <-]|[_ Hv]]; [set_solver|].
      apply lookup_singleton_Some in Hv as [<- <-]. set_solver.
    + split; [done|]. intros Hin. unfold profileMap in Hv.
      repeat (apply elem_of_cons in Hin as [->|Hin]; [done|]).
      by apply elem_of_nil in Hin.
  - apply dec_stable in Heq.
    destruct (decide (AWSProfile ≠ "")) as [|Hw]; left; [done|].
    by apply dec_stable in Hw.
Qed.

End CdkProfile.

(* ===================================================================== *)
(** ** The workspace environment built from SSM                           *)
(* ===================================================================== *)

Section MapSSMToEnv.
Import envcmd.

Lemma storeAll_snoc f entries kv m :
  storeAll f (entries ++ [kv]) m = <[f kv.1 := kv.2]> (storeAll f entries m).
Proof. unfold storeAll. by rewrite foldl_app. Qed.

Lemma storeAll_lookup_notin f entries m k :
  k ∉ map (λ kv, f kv.1) entries → storeAll f entries m !! k = m !! k.
Proof.
  induction entries as [|kv entries IH] using rev_ind; [done|].
  rewrite map_app, not_elem_of_app. cbn [map]. intros [Hin Hk].
  rewrite storeAll_snoc, lookup_insert_ne; [by apply IH|]. set_solver.
Qed.

Lemma storeAll_lookup_in f entries m kv :
  NoDup (map (λ kv, f kv.1) entries) → kv ∈ entries →
  storeAll f entries m !! f kv.1 = Some kv.2.
Proof.
  induction entries as [|kv' entries IH] using rev_ind.
  { intros _ Hin. by apply elem_of_nil in Hin. }
  rewrite map_app. cbn [map]. intros Hnd Hin.
  apply NoDup_app in Hnd as (Hnd & Hdis & _).
  rewrite storeAll_snoc. apply elem_of_app in Hin as [Hin|Hin].
  - rewrite lookup_insert_ne; [by apply IH|].
    intros Heq. apply (Hdis (f kv.1)); [|rewrite Heq; set_solver].
    apply list_elem_of_fmap. by exists kv.
  - apply list_elem_of_singleton in Hin as ->. by rewrite lookup_insert_eq.
Qed.

Lemma storeAll_Permutation f e1 e2 m :
  NoDup (map (λ kv, f kv.1) e1) → e1 ≡ₚ e2 → storeAll f e1 m = storeAll f e2 m.
Proof.
  intros Hnd Hperm. apply map_eq. intros k.
  assert (NoDup (map (λ kv, f kv.1) e2)) as Hnd2.
  { by rewrite <- Hperm. }
  destruct (decide (k ∈ map (λ kv, f kv.1) e1)) as [Hin|Hnin].
  - apply list_elem_of_fmap in Hin as (kv & -> & Hkv).
    rewrite (storeAll_lookup_in f e1 m kv Hnd Hkv).
    rewrite (storeAll_lookup_in f e2 m kv Hnd2); [done|]. by rewrite <- Hperm.
  - rewrite (storeAll_lookup_notin f e1 m k Hnin).
    rewrite (storeAll_lookup_notin f e2 m k); [done|].
    by rewrite <- Hperm.
Qed.

Lemma copyIfSet_lookup_ne src dst m k :
  k ≠ dst → copyIfSet src dst m !! k = m !! k.
Proof.
  intros Hk. unfold copyIfSet. destruct (m !! src) as [v|]; [|done].
  destruct (decide (v ≠ "")); [|done]. by rewrite lookup_insert_ne.
Qed.

Lemma copyIfMissing_lookup_ne src dst m k :
  k ≠ dst → copyIfMissing src dst m !! k = m !! k.
Proof.
  intros Hk. unfold copyIfMissing. destruct (decide _); [|done].
  by apply copyIfSet_lookup_ne.
Qed.

(** X24: Who has the last word on a key: the [Env] map of the workspace,
    whose entries are in the result as they are; and for keys that the
    workspace does not set, the region and the environment name given
    to mapSSMToEnv, which replace whatever SSM holds under [AWS_REGION],
    [NEXT_PUBLIC_AWS_REGION] and [APP_ENV], and under
    [NEXT_PUBLIC_APP_ENV] when the name is not empty. *)
Theorem mapSSMToEnv_precedence (ssmVars : list (string * string))
    (region env : string) (wsEnv : list (string * string)) (k : string) :
  (NoDup (map fst wsEnv) →
   ∀ v, (k, v) ∈ wsEnv → mapSSMToEnv ssmVars region env wsEnv !! k = Some v)
  ∧ (k ∉ map fst wsEnv →
     (k = "AWS_REGION" ∨ k = "NEXT_PUBLIC_AWS_REGION" →
      mapSSMToEnv ssmVars region env wsEnv !! k = Some region)
     ∧ (k = "APP_ENV" ∨ (k = "NEXT_PUBLIC_APP_ENV" ∧ env ≠ "") →
        mapSSMToEnv ssmVars region env wsEnv !! k = Some env)).
Proof.
  unfold mapSSMToEnv. split.
  - intros Hnd v Hin. by apply (storeAll_lookup_in id wsEnv _ (k, v)).
  - intros Hk. rewrite (storeAll_lookup_notin id wsEnv _ k Hk). split.
    + intros [-> | ->]; destruct (decide (env ≠ ""));
        rewrite ?lookup_insert_ne by done; by rewrite lookup_insert_eq.
    + intros [-> | [-> Hne]]; destruct (decide (env ≠ "")); try done;
        rewrite ?lookup_insert_ne by done; by rewrite lookup_insert_eq.
Qed.

Example mapSSMToEnv_precedence_ex :
  mapSSMToEnv [("AWS_REGION", "eu-west-1"); ("githubToken", "t")] "us-east-1" "beta"
    [("GITHUB_TOKEN", "mine")]
  = {[ "AWS_REGION" := "us-east-1"; "NEXT_PUBLIC_AWS_REGION" := "us-east-1";
       "APP_ENV" := "beta"; "NEXT_PUBLIC_APP_ENV" := "beta";
       "GITHUB_TOKEN" := "mine" ]}.
Proof. by vm_compute. Qed.

(** X25: Go ranges over the map of SSM parameters in an order that it leaves
    open.  When no two parameters are stored under the same key, the
    result of mapSSMToEnv does not depend on that order. *)
Theorem mapSSMToEnv_order_independent (ssmVars1 ssmVars2 : list (string * string))
    (region env : string) (wsEnv : list (string * string)) :
  NoDup (map (λ kv, envKey kv.1) ssmVars1) →
  ssmVars1 ≡ₚ ssmVars2 →
  mapSSMToEnv ssmVars1 region env wsEnv = mapSSMToEnv ssmVars2 region env wsEnv.
Proof.
  intros Hnd Hperm. unfold mapSSMToEnv.
  by rewrite (storeAll_Permutation envKey ssmVars1 ssmVars2 ∅ Hnd Hperm).
Qed.

(** The hypothesis is needed: a parameter that is stored under the key of
    another one makes the result depend on the order. *)
Example mapSSMToEnv_order_matters :
  mapSSMToEnv [("customerUserPoolId", "a"); ("USERPOOL_ID", "b")] "r" "e" []
    !! "USERPOOL_ID" = Some "b"
  ∧ mapSSMToEnv [("USERPOOL_ID", "b"); ("customerUserPoolId", "a")] "r" "e" []
      !! "USERPOOL_ID" = Some "a".
Proof. by vm_compute. Qed.

(** The value under a key is that of an entry stored under it, when all
    entries stored under it agree. *)
Lemma storeAll_lookup_agree f entries m kv :
  kv ∈ entries →
  (∀ kv', kv' ∈ entries → f kv'.1 = f kv.1 → kv'.2 = kv.2) →
  storeAll f entries m !! f kv.1 = Some kv.2.
Proof.
  induction entries as [|kv' entries IH] using rev_ind.
  { intros Hin. by apply elem_of_nil in Hin. }
  intros Hin Hall. rewrite storeAll_snoc.
  destruct (decide (f kv'.1 = f kv.1)) as [Heq|Hne].
  - rewrite Heq, lookup_insert_eq. f_equal. apply Hall; [|done].
    apply elem_of_app. right. by apply list_elem_of_singleton.
  - rewrite lookup_insert_ne by done. apply IH.
    + apply elem_of_app in Hin as [Hin|Hin]; [done|].
      apply list_elem_of_singleton in Hin. by subst.
    + intros kv'' Hin'. apply Hall, elem_of_app. by left.
Qed.

(** The two names under which a parameter is stored as
    [BUSINESS_USERPOOL_ID]. *)
Lemma envKey_business_pool k :
  envKey k = "BUSINESS_USERPOOL_ID" →
  k = "businessUserPoolId" ∨ k = "BUSINESS_USERPOOL_ID".
Proof.
  unfold envKey. destruct (ssmToEnvKey !! k) as [k'|] eqn:Hk; cbn [from_option id].
  - intros ->. unfold ssmToEnvKey in Hk. apply elem_of_list_to_map_2 in Hk.
    rewrite !elem_of_cons, elem_of_nil in Hk. left.
    repeat (destruct Hk as [Hk|Hk]; [by injection Hk|]). done.
  - intros ->. by right.
Qed.

Lemma lookup_entries (entries : list (string * string)) k v1 v2 :
  NoDup (map fst entries) → (k, v1) ∈ entries → (k, v2) ∈ entries → v1 = v2.
Proof.
  induction entries as [|[k' v'] entries IH]; cbn [map fst].
  { intros _ Hin. by apply elem_of_nil in Hin. }
  rewrite NoDup_cons, !elem_of_cons. intros [Hk Hnd] [H1|H1] [H2|H2].
  - congruence.
  - injection H1 as -> ->. destruct Hk. apply list_elem_of_fmap. by exists (k', v2).
  - injection H2 as -> ->. destruct Hk. apply list_elem_of_fmap. by exists (k', v1).
  - by apply IH.
Qed.

(** X26: The business user pool wins over the customer one.  When the map of
    SSM parameters holds a non-empty [businessUserPoolId] and no
    parameter named [BUSINESS_USERPOOL_ID] itself, that value is the
    value of [NEXT_PUBLIC_USERPOOL_ID], whatever [customerUserPoolId]
    is and in whatever order the parameters are ranged over, unless the
    workspace sets the key itself.  The keys of [ssmVars] are distinct,
    as those of the Go map are. *)
Theorem mapSSMToEnv_business_pool_first (ssmVars : list (string * string))
    (region env : string) (wsEnv : list (string * string)) (v : string) :
  NoDup (map fst ssmVars) →
  ("businessUserPoolId", v) ∈ ssmVars →
  "BUSINESS_USERPOOL_ID" ∉ map fst ssmVars →
  v ≠ "" →
  "NEXT_PUBLIC_USERPOOL_ID" ∉ map fst wsEnv →
  mapSSMToEnv ssmVars region env wsEnv !! "NEXT_PUBLIC_USERPOOL_ID" = Some v.
Proof.
  intros Hnd Hin Hnot Hv Hk. unfold mapSSMToEnv.
  rewrite (storeAll_lookup_notin id wsEnv _ _ Hk).
  assert (storeAll envKey ssmVars ∅ !! "BUSINESS_USERPOOL_ID" = Some v) as Hb.
  { apply (storeAll_lookup_agree envKey ssmVars ∅ ("businessUserPoolId", v) Hin).
    intros [k' v'] Hin' Hkey. cbn [fst snd] in *.
    apply envKey_business_pool in Hkey as [->| ->].
    - by apply (lookup_entries ssmVars "businessUserPoolId").
    - destruct Hnot. apply list_elem_of_fmap. by exists ("BUSINESS_USERPOOL_ID", v'). }
  set (m0 := storeAll envKey ssmVars ∅) in *.
  assert (copyIfSet "BUSINESS_USERPOOL_ID" "NEXT_PUBLIC_USERPOOL_ID" m0
            !! "NEXT_PUBLIC_USERPOOL_ID" = Some v) as H1.
  { unfold copyIfSet. rewrite Hb. rewrite decide_True by done.
    by rewrite lookup_insert_eq. }
  set (m1 := copyIfSet "BUSINESS_USERPOOL_ID" "NEXT_PUBLIC_USERPOOL_ID" m0) in *.
  destruct (decide (env ≠ "")); rewrite ?lookup_insert_ne by done;
    rewrite !copyIfSet_lookup_ne, !copyIfMissing_lookup_ne by done;
    unfold copyIfMissing at 1;
    rewrite !copyIfSet_lookup_ne by done; rewrite H1; cbn [default from_option id];
    rewrite decide_False by done;
    rewrite !copyIfSet_lookup_ne by done; exact H1.
Qed.

(** A parameter named [BUSINESS_USERPOOL_ID] is stored under the same key
    as [businessUserPoolId]; the one that the range loop meets last
    wins. *)
Example mapSSMToEnv_business_pool_shadowed :
  mapSSMToEnv [("businessUserPoolId", "b"); ("BUSINESS_USERPOOL_ID", "x")] "r" "e" []
    !! "NEXT_PUBLIC_USERPOOL_ID" = Some "x"
  ∧ mapSSMToEnv [("BUSINESS_USERPOOL_ID", "x"); ("businessUserPoolId", "b")] "r" "e" []
      !! "NEXT_PUBLIC_USERPOOL_ID" = Some "b".
Proof. by vm_compute. Qed.

End MapSSMToEnv.

(* ===================================================================== *)
(** ** The batches of FetchMultipleFromSSM                                *)
(* ===================================================================== *)

Section FetchSSM.
Import GoStrings Effects github GithubSpec.
Context `{GoLib} {W : Type}.
Variable awsOutput : list string → W → output * W.
Variable unmarshal : string → list ssmParameter + error.

Lemma batched_cons {A} n (b : list A) batches :
  (0 < length b ≤ n)%nat → (batches ≠ [] → length b = n) →
  batched n batches → batched n (b :: batches).
Proof.
  intros Hb Hfull [Hall Hlast]. split; [by constructor|].
  intros pre b' post Heq Hpost. destruct pre as [|b0 pre]; cbn [app] in Heq.
  - injection Heq as <- <-. by apply Hfull.
  - injection Heq as _ Heq. by apply (Hlast pre b' post).
Qed.

Lemma storeParams_app prefix ps1 ps2 (result : gmap string string) :
  storeParams prefix (ps1 ++ ps2) result
  = storeParams prefix ps2 (storeParams prefix ps1 result).
Proof. unfold storeParams. by rewrite foldl_app. Qed.

Lemma fetchBatches_spec fuel profile env region paramSuffixes i result w calls :
  (length paramSuffixes - i < fuel)%nat →
  ∃ r w' batches rest made,
    fetchBatches awsOutput unmarshal fuel profile env region paramSuffixes i result w calls
    = Some (r, w', calls ++ made)
    ∧ map fst made
      = map (λ b, ssmArgs profile region
                    (map (λ s, "/app/" +:+ env +:+ "/" +:+ s) b)) batches
    ∧ batched maxSSMParamsPerRequest batches
    ∧ drop i paramSuffixes = concat batches ++ rest
    ∧ (batches ≠ [] → (i < length paramSuffixes)%nat)
    ∧ match r with
      | inr m =>
          rest = []
          ∧ ∃ answers, map (paramsOf unmarshal) made = map Some answers
              ∧ m = storeParams ("/app/" +:+ env +:+ "/") (concat answers) result
      | inl e =>
          ∃ before call,
            made = before ++ [call]
            ∧ Forall (λ c, is_Some (paramsOf unmarshal c)) before
            ∧ paramsOf unmarshal call = None
            ∧ ((∃ err, call.2 = OutErr err ∧ e = "failed to fetch parameters: " +:+ err)
               ∨ (∃ out err, call.2 = Out out ∧ unmarshal out = inr err
                    ∧ e = "failed to parse SSM response: " +:+ err))
      end.
Proof.
  revert i result w calls. induction fuel as [|fuel IH]; intros i result w calls Hfuel;
    [lia|].
  cbn [fetchBatches]. destruct (decide (i < length paramSuffixes)%nat) as [Hi|Hi].
  2:{ exists (inr result), w, [], [], []. rewrite app_nil_r.
      split; [done|]. split; [done|].
      split; [by split; [constructor|intros [|??] ???]|].
      split; [by rewrite drop_ge by lia|]. split; [done|]. split; [done|].
      by exists []. }
  set (end_ := if decide (length paramSuffixes < i + maxSSMParamsPerRequest)%nat
               then length paramSuffixes else (i + maxSSMParamsPerRequest)%nat).
  set (batch := take (end_ - i) (drop i paramSuffixes)).
  assert (batch = take maxSSMParamsPerRequest (drop i paramSuffixes)) as Hbatch.
  { unfold batch, end_. destruct (decide _) as [Hlt|Hge].
    - rewrite !take_ge; [done|rewrite length_drop; lia|rewrite length_drop; lia].
    - f_equal. lia. }
  assert (0 < length batch ≤ maxSSMParamsPerRequest)%nat as Hlen.
  { rewrite Hbatch, length_take, length_drop. unfold maxSSMParamsPerRequest. lia. }
  assert (drop i paramSuffixes
          = batch ++ drop (i + maxSSMParamsPerRequest) paramSuffixes) as Hdrop.
  { rewrite Hbatch.
    etrans; [symmetry; apply (take_drop maxSSMParamsPerRequest)|].
    by rewrite drop_drop. }
  set (args := ssmArgs profile region (map (λ s, "/app/" +:+ env +:+ "/" +:+ s) batch)).
  destruct (awsOutput args w) as [[out|err] w1].
  2:{ exists (inl ("failed to fetch parameters: " +:+ err)), w1, [batch],
        (drop (i + maxSSMParamsPerRequest) paramSuffixes), [(args, OutErr err)].
      split; [done|]. split; [done|].
      split; [by apply batched_cons; [|done|split; [constructor|intros [|??] ???]]|].
      split; [by rewrite Hdrop; cbn; rewrite app_nil_r|]. split; [done|].
      exists [], (args, OutErr err). split; [done|]. split; [constructor|].
      split; [done|]. left. by exists err. }
  destruct (unmarshal out) as [params|err] eqn:Hparse.
  2:{ exists (inl ("failed to parse SSM response: " +:+ err)), w1, [batch],
        (drop (i + maxSSMParamsPerRequest) paramSuffixes), [(args, Out out)].
      split; [done|]. split; [done|].
      split; [by apply batched_cons; [|done|split; [constructor|intros [|??] ???]]|].
      split; [by rewrite Hdrop; cbn; rewrite app_nil_r|]. split; [done|].
      exists [], (args, Out out). split; [done|]. split; [constructor|].
      split; [by unfold paramsOf; cbn [snd]; rewrite Hparse|]. right. by exists out, err. }
  assert (paramsOf unmarshal (args, Out out) = Some params) as Hans.
  { unfold paramsOf. cbn [snd]. by rewrite Hparse. }
  destruct (IH (i + maxSSMParamsPerRequest)%nat
              (storeParams ("/app/" +:+ env +:+ "/") params result) w1
              (calls ++ [(args, Out out)]))
    as (r & w' & batches & rest & made & Heq & Hargs & Hb & Hd & Hne & Hr).
  { unfold maxSSMParamsPerRequest. lia. }
  exists r, w', (batch :: batches), rest, ((args, Out out) :: made).
  split; [by rewrite Heq, <- app_assoc|].
  split; [by cbn [map fst]; rewrite Hargs|]. split.
  { apply batched_cons; [done| |done]. intros Hnil. specialize (Hne Hnil).
    rewrite Hbatch, length_take, length_drop. unfold maxSSMParamsPerRequest in *. lia. }
  split; [by rewrite Hdrop, Hd; cbn; rewrite app_assoc|].
  split; [done|]. destruct r as [e|m].
  - destruct Hr as (before & call & -> & Hbefore & Hcall & He).
    exists ((args, Out out) :: before), call. split; [done|].
    split; [constructor; [by rewrite Hans|done]|]. by split.
  - destruct Hr as (-> & answers & Hanswers & ->). split; [done|].
    exists (params :: answers). cbn [map concat]. rewrite Hans, Hanswers.
    split; [done|]. by rewrite storeParams_app.
Qed.

(** The calls made are what the environment was asked, in order: the
    answers in the list are those of [awsOutput] from the world as the
    calls before left it. *)
Lemma fetchBatches_answers fuel profile env region paramSuffixes i result w calls r w' calls' :
  fetchBatches awsOutput unmarshal fuel profile env region paramSuffixes i result w calls
  = Some (r, w', calls') →
  ∃ made, calls' = calls ++ made
    ∧ foldl (λ w c, (awsOutput c.1 w).2) w made = w'
    ∧ ∀ before c after, made = before ++ c :: after →
        c.2 = (awsOutput c.1 (foldl (λ w c, (awsOutput c.1 w).2) w before)).1.
Proof.
  revert i result w calls. induction fuel as [|fuel IH]; intros i result w calls;
    [done|].
  cbn [fetchBatches]. destruct (decide (i < length paramSuffixes)%nat) as [Hi|Hi].
  2:{ intros [= <- <- <-]. exists []. rewrite app_nil_r. split; [done|].
      split; [done|]. by intros [|??] ???. }
  set (end_ := if decide (length paramSuffixes < i + maxSSMParamsPerRequest)%nat
               then length paramSuffixes else (i + maxSSMParamsPerRequest)%nat).
  set (args := ssmArgs profile region _).
  destruct (awsOutput args w) as [o w1] eqn:Haws.
  assert (∀ before c after, [(args, o)] = before ++ c :: after →
            c.2 = (awsOutput c.1 (foldl (λ w c, (awsOutput c.1 w).2) w before)).1)
    as Hone.
  { intros [|? [|??]] c after [=]; subst. cbn [foldl fst snd]. by rewrite Haws. }
  destruct o as [out|err].
  2:{ intros [= <- <- <-]. exists [(args, OutErr err)]. split; [done|].
      split; [|done]. cbn [foldl fst snd]. by rewrite Haws. }
  destruct (unmarshal out) as [params|err].
  2:{ intros [= <- <- <-]. exists [(args, Out out)]. split; [done|].
      split; [|done]. cbn [foldl fst snd]. by rewrite Haws. }
  intros Heq. apply IH in Heq as (made & -> & Hw & Hans).
  exists ((args, Out out) :: made). split; [by rewrite <- app_assoc|].
  split; [cbn [foldl fst snd]; by rewrite Haws|].
  intros [|c0 before] c after Hmade; cbn [app] in Hmade.
  - injection Hmade as <- _. cbn [foldl fst snd]. by rewrite Haws.
  - injection Hmade as <- Hmade. cbn [foldl fst snd]. rewrite Haws. cbn [snd].
    by apply (Hans before c after).
Qed.

(** X27: FetchMultipleFromSSM returns, and the calls of [aws ssm
    get-parameters] that it has made by then ask for the suffixes in the
    order given, each once, in batches of at most ten names that are all
    full except possibly the last one.  When it returns an error, the
    last call made is one that failed or whose answer could not be
    parsed, the error says which, and all calls before it succeeded and
    parsed: no call follows a failed one.  When it returns a map, every
    call succeeded and parsed, every suffix has been asked for, and the
    map holds the parameters of the answers, the names without the
    prefix and the values trimmed, a later parameter replacing an
    earlier one of the same name.  The answer listed with a call is
    the one that the environment gave to it after the calls before. *)
Theorem FetchMultipleFromSSM_batches (profile env region : string)
    (paramSuffixes : list string) (w : W) :
  let res := FetchMultipleFromSSM awsOutput unmarshal profile env region
               paramSuffixes w in
  let region' := if decide (region = "") then "us-east-1" else region in
  FetchMultipleFromSSM_fuel awsOutput unmarshal (S (length paramSuffixes))
    profile env region paramSuffixes w = Some res
  ∧ (∃ batches rest,
      map fst res.2
      = map (λ b, ssmArgs profile region'
                    (map (λ s, "/app/" +:+ env +:+ "/" +:+ s) b)) batches
      ∧ batched maxSSMParamsPerRequest batches
      ∧ paramSuffixes = concat batches ++ rest
      ∧ match res.1.1 with
        | inr m =>
            rest = []
            ∧ ∃ answers, map (paramsOf unmarshal) res.2 = map Some answers
                ∧ m = storeParams ("/app/" +:+ env +:+ "/") (concat answers) ∅
        | inl e =>
            ∃ before call,
              res.2 = before ++ [call]
              ∧ Forall (λ c, is_Some (paramsOf unmarshal c)) before
              ∧ paramsOf unmarshal call = None
              ∧ ((∃ err, call.2 = OutErr err
                    ∧ e = "failed to fetch parameters: " +:+ err)
                 ∨ (∃ out err, call.2 = Out out ∧ unmarshal out = inr err
                      ∧ e = "failed to parse SSM response: " +:+ err))
        end)
  ∧ res.1.2 = foldl (λ w c, (awsOutput c.1 w).2) w res.2
  ∧ ∀ before c after, res.2 = before ++ c :: after →
      c.2 = (awsOutput c.1 (foldl (λ w c, (awsOutput c.1 w).2) w before)).1.
Proof.
  cbn zeta. unfold FetchMultipleFromSSM, FetchMultipleFromSSM_fuel.
  destruct (fetchBatches_spec (S (length paramSuffixes)) profile env
              (if decide (region = "") then "us-east-1" else region)
              paramSuffixes 0 ∅ w [])
    as (r & w' & batches & rest & made & Heq & Hargs & Hb & Hd & _ & Hr); [lia|].
  rewrite Heq. apply fetchBatches_answers in Heq as (made' & Hmade & Hw & Hans).
  cbn [app] in Hmade. subst made'.
  cbn [default from_option id fst snd app]. split; [done|].
  split; [|by split]. exists batches, rest. by rewrite drop_0 in Hd.
Qed.

End FetchSSM.

(* ===================================================================== *)
(** ** Running a script                                                   *)
(* ===================================================================== *)

Section ScriptRuns.
Import workspace Resolver GoStrings Effects RunEffects.
Context {W : Type} (h : rhandler W).

Lemma rrun_ret {A} (a : A) w : rrun h (mret a) w = (a, w, []).
Proof. reflexivity. Qed.

Lemma rrun_bind {A B} (p : RProg A) (f : A → RProg B) w :
  rrun h (p ≫= f) w
  = let '(a, w1, t1) := rrun h p w in
    let '(b, w2, t2) := rrun h (f a) w1 in
    (b, w2, t1 ++ t2).
Proof.
  unfold mbind, RProg_bind. revert w.
  induction p as [a|X e k IH]; intros w; simpl.
  - by destruct (rrun h (f a) w) as [[b w2] t2].
  - destruct (h X e w) as [x w1]. rewrite IH.
    destruct (rrun h (k x) w1) as [[a w2] t1].
    by destruct (rrun h (f a) w2) as [[b w3] t2].
Qed.

Lemma rrun_trigger {X} (e : revent X) w :
  rrun h (rtrigger e) w = ((h _ e w).1, (h _ e w).2, [REntry e (h _ e w).1]).
Proof. simpl. by destruct (h X e w). Qed.

(** A program of the lower layer runs as it does below. *)
Lemma rrun_lift {A} (p : Prog A) w :
  rrun h (lift p) w
  = let '(a, w1, t) := run (lower h) p w in (a, w1, map liftEntry t).
Proof.
  revert w. induction p as [a|X e k IH]; intros w; simpl; [done|].
  unfold lower at 1. destruct (h X (Base e) w) as [x w1]. rewrite IH.
  by destruct (run (lower h) (k x) w1) as [[a w2] t].
Qed.

Lemma shellRun_lift t : omap shellRun (map liftEntry t) = [].
Proof. induction t as [|[X e x] t IH]; [done|]. by cbn. Qed.

(** *** Programs that run no command through the shell *)




Lemma quiet_readFile path : quiet h (rtrigger (OsReadFile path)).
Proof. intros w. by rewrite rrun_trigger. Qed.

(** *** Properties of all events of a script run *)





End ScriptRuns.

Section LinkSteps.
Import workspace Resolver GoStrings Effects npm runcmd runmore RunScriptSpec.
Context `{GoLib} {W : Type} (h : handler W).











End LinkSteps.

Section RunScript.
Import workspace Resolver GoStrings Effects RunEffects runcmd runmore runscript.
Import RunSpec RunScriptSpec.
Context `{GoLib} {W : Type} (h : rhandler W).
Variable unmarshalScripts : string → option (gmap string string).

(** *** The command of a script *)

Lemma getScriptCommand_run fl name repo repoDir script w :
  let res := rrun h (getScriptCommand unmarshalScripts fl name repo repoDir script) w in
  ∃ st,
    hd_error res.2
    = Some (REntry (Base (OsStat (filepath_Join [repoDir; "package.json"]))) st)
    ∧ omap shellRun res.2 = []
    ∧ Forall (λ en, match en with
                    | REntry e _ =>
                        match e with
                        | Base e => if e is OsStat _ then True else False
                        | OsReadFile _ => True
                        | RunShellCmd _ _ => False
                        end
                    end) res.2
    ∧ match st with
      | StatOk _ =>
          res.1.1 = ""
          ∨ ∃ s, res.1.1 = npmCommand s
                 ∧ (s = script
                    ∨ (s = "test:watch" ∧ script = "test" ∧ runWatch fl = true)
                    ∨ (s = "build:all" ∧ script = "build"
                       ∧ (name = "AppModel" ∨ name = "BusinessModel")))
      | _ => res.1.1 = "" ∨ res.1.1 ∈ map snd (markers repoDir script)
      end.
Proof.
  cbn zeta. unfold getScriptCommand.
  rewrite rrun_bind, rrun_lift, run_fileExistsRun.
  set (pkgPath := filepath_Join [repoDir; "package.json"]).
  destruct (lower h _ (OsStat pkgPath) w) as [st w1] eqn:Hst. cbn [fst snd].
  exists st.
  assert (∀ (r : string) (w' : W) t,
            hd_error ((r, w', map liftEntry [Entry (OsStat pkgPath) st] ++ t)).2
            = Some (REntry (Base (OsStat pkgPath)) st)) as Hhd by done.
  destruct st as [info| |err]; cbn [negb].
  2,3: rewrite rrun_lift;
    pose proof (getFallbackCommand_looks (lower h) repoDir script w1) as [_ Hres];
    pose proof (getFallbackCommand_stats (lower h) repoDir script w1) as Hstats;
    pose proof (firstMarker_result (markers repoDir script)
                  (map snd (omap statSeen
                     (trace_of (run (lower h) (getFallbackCommand repoDir script) w1)))))
      as Hfm;
    rewrite Hres in Hfm; cbn [fst] in Hfm;
    destruct (run (lower h) (getFallbackCommand repoDir script) w1) as [[r w2] t];
    unfold trace_of, result_of in *; cbn [fst snd] in *;
    (split; [done|]); (split; [by rewrite omap_app, !shellRun_lift|]);
    (split; [|done]); apply Forall_cons; (split; [done|]);
    apply Forall_fmap; (eapply Forall_impl; [exact Hstats|]);
    intros [X e x]; destruct e; by intros [? [=]].
  rewrite rrun_bind, rrun_trigger.
  destruct (h _ (OsReadFile pkgPath) w1) as [[data|err] w2]; cbn [fst snd].
  2:{ rewrite rrun_ret. cbn. split; [done|]. split; [done|].
      split; [by repeat constructor|by left]. }
  destruct (unmarshalScripts data) as [scripts|].
  2:{ rewrite rrun_ret. cbn. split; [done|]. split; [done|].
      split; [by repeat constructor|by left]. }
  destruct (bool_decide (script = "test")) eqn:Htest;
    destruct (runWatch fl) eqn:Hwatch;
    destruct (bool_decide (is_Some (scripts !! "test:watch"))); cbn [andb];
    try (rewrite rrun_ret; cbn; split; [done|]; split; [done|];
         split; [by repeat constructor|];
         right; exists "test:watch"; split; [done|]; right; left;
         by apply bool_decide_eq_true in Htest).
  all: destruct (bool_decide (script = "build")) eqn:Hbuild;
    destruct (bool_decide (is_Some (scripts !! "build:all")));
    destruct (bool_decide (name = "AppModel")) eqn:Hm1;
    destruct (bool_decide (name = "BusinessModel")) eqn:Hm2; cbn [andb orb];
    match goal with
    | |- context [bool_decide (is_Some (?m !! ?s))] =>
        destruct (bool_decide (is_Some (m !! s)))
    end;
    rewrite rrun_ret; cbn; (split; [done|]); (split; [done|]);
    (split; [by repeat constructor|]);
    try (by left);
    right; eexists; (split; [reflexivity|]);
    try (by left);
    right; right; (split; [done|]);
    apply bool_decide_eq_true in Hbuild; (split; [done|]);
    try (apply bool_decide_eq_true in Hm1; by left);
    try (apply bool_decide_eq_true in Hm2; by right).
Qed.

(** X28: getScriptCommand only looks at files and reads package.json: every
    event of its run is an [os.Stat] or an [os.ReadFile], the first one
    the stat of package.json.  When that file is not found, the rest of
    the run is the run of getFallbackCommand in the world after the stat,
    with its events, its world and its result.  When it is found, the
    only other event is the read of package.json, and the result is
    empty or [npm test] or [npm run <s>] for a script [s] that the file
    holds: the script asked for, or [test:watch] for [test] under
    [--watch], or [build:all] for [build] in one of the two model
    repos. *)
Theorem getScriptCommand_result (fl : flags) (name : string) (repo : RepoDef)
    (repoDir script : string) (w : W) :
  let pkgPath := filepath_Join [repoDir; "package.json"] in
  let res := rrun h (getScriptCommand unmarshalScripts fl name repo repoDir script) w in
  let st := (h _ (Base (OsStat pkgPath)) w).1 in
  let w1 := (h _ (Base (OsStat pkgPath)) w).2 in
  Forall (λ en, match en with
                | REntry e _ =>
                    match e with
                    | Base e => if e is OsStat _ then True else False
                    | OsReadFile _ => True
                    | RunShellCmd _ _ => False
                    end
                end) res.2
  ∧ match st with
    | StatOk _ =>
        let data := (h _ (OsReadFile pkgPath) w1).1 in
        res.2 = [REntry (Base (OsStat pkgPath)) st; REntry (OsReadFile pkgPath) data]
        ∧ res.1.2 = (h _ (OsReadFile pkgPath) w1).2
        ∧ (res.1.1 = ""
           ∨ ∃ s content scripts,
               data = Out content
               ∧ unmarshalScripts content = Some scripts
               ∧ is_Some (scripts !! s)
               ∧ res.1.1 = npmCommand s
               ∧ (s = script
                  ∨ (s = "test:watch" ∧ script = "test" ∧ runWatch fl = true)
                  ∨ (s = "build:all" ∧ script = "build"
                     ∧ (name = "AppModel" ∨ name = "BusinessModel"))))
    | _ =>
        let fb := run (lower h) (getFallbackCommand repoDir script) w1 in
        res = (result_of fb, world_of fb,
               REntry (Base (OsStat pkgPath)) st :: map liftEntry (trace_of fb))
    end.
Proof.
  cbn zeta. split.
  { destruct (getScriptCommand_run fl name repo repoDir script w)
      as (st & _ & _ & Hev & _). exact Hev. }
  unfold getScriptCommand.
  rewrite rrun_bind, rrun_lift, run_fileExistsRun.
  set (pkgPath := filepath_Join [repoDir; "package.json"]).
  change (lower h _ (OsStat pkgPath) w) with (h _ (Base (OsStat pkgPath)) w).
  destruct (h _ (Base (OsStat pkgPath)) w) as [st w1]. cbn [fst snd].
  destruct st as [info| |err]; cbn [negb].
  2,3: rewrite rrun_lift;
    by destruct (run (lower h) (getFallbackCommand repoDir script) w1) as [[r w2] t].
  rewrite rrun_bind, rrun_trigger.
  destruct (h _ (OsReadFile pkgPath) w1) as [[data|err] w2]; cbn [fst snd].
  2:{ rewrite rrun_ret. cbn. split; [done|]. split; [done|]. by left. }
  destruct (unmarshalScripts data) as [scripts|] eqn:Hparse.
  2:{ rewrite rrun_ret. cbn. split; [done|]. split; [done|]. by left. }
  destruct (bool_decide (script = "test")) eqn:Htest;
    destruct (runWatch fl) eqn:Hwatch;
    destruct (bool_decide (is_Some (scripts !! "test:watch"))) eqn:Htw; cbn [andb];
    try (rewrite rrun_ret; cbn; split; [done|]; split; [done|];
         right; exists "test:watch", data, scripts;
         split; [done|]; split; [done|];
         split; [by apply bool_decide_eq_true in Htw|];
         split; [done|]; right; left;
         by apply bool_decide_eq_true in Htest).
  all: destruct (bool_decide (script = "build")) eqn:Hbuild;
    destruct (bool_decide (is_Some (scripts !! "build:all")));
    destruct (bool_decide (name = "AppModel")) eqn:Hm1;
    destruct (bool_decide (name = "BusinessModel")) eqn:Hm2; cbn [andb orb];
    match goal with
    | |- context [bool_decide (is_Some (?m !! ?s))] =>
        destruct (bool_decide (is_Some (m !! s))) eqn:Hin
    end;
    rewrite rrun_ret; cbn; (split; [done|]); (split; [done|]);
    try (by left);
    right; eexists _, data, scripts; (split; [done|]); (split; [done|]);
    (split; [by apply bool_decide_eq_true in Hin|]); (split; [reflexivity|]);
    try (by left);
    right; right; (split; [done|]);
    apply bool_decide_eq_true in Hbuild; (split; [done|]);
    try (apply bool_decide_eq_true in Hm1; by left);
    try (apply bool_decide_eq_true in Hm2; by right).
Qed.

(** *** One script in one repo *)




(** *** What a script run consists of *)










(** *** A build with its dependencies *)






End RunScript.

(* ===================================================================== *)
(** ** More runs in the simulated environment                             *)
(* ===================================================================== *)

Section SimulatedMore.
Import workspace Effects synccmd SyncSpec SyncMore.

(** With [git status] broken, a tree with local changes is rebased. *)
Lemma syncRepoFull_status_error_goes_on_sim :
  Sim.porcelain Sim.dirtyTree = " M src/index.ts"
  ∧ dirty (result_of (run SimMore.brokenStatus
                        (syncRepoFull (H := Sim.lib) Sim.rebaseFlags "/ws" Sim.ws
                           "AppAPI" Sim.apiRepo "/ws/AppAPI") Sim.dirtyTree)) = false
  ∧ existsb changesBranches
      (trace_of (run SimMore.brokenStatus
                   (syncRepoFull (H := Sim.lib) Sim.rebaseFlags "/ws" Sim.ws
                      "AppAPI" Sim.apiRepo "/ws/AppAPI") Sim.dirtyTree)) = true.
Proof.
  destruct (syncRepoFull_status_error_goes_on (H := Sim.lib) SimMore.brokenStatus
              Sim.rebaseFlags "/ws" Sim.ws "AppAPI" Sim.apiRepo "/ws/AppAPI"
              Sim.dirtyTree "exit status 128" [])
    as (_ & H2 & _ & H4); [vm_compute; reflexivity|].
  split; [reflexivity|]. split; [exact H2|exact H4].
Defined.

(** [--no-rebase --install] where a rebase would have brought a new
    lockfile: nothing is installed. *)
Lemma syncRepoFull_no_rebase_ignores_lockfile_sim :
  lockfileChanged
    (result_of (run Sim.handle
                  (syncRepoFull (H := Sim.lib) SimMore.pullFlags "/ws" Sim.ws
                     "AppAPI" Sim.apiRepo "/ws/AppAPI") Sim.lockfileBumped)) = false
  ∧ omap shellOf
      (trace_of (run Sim.handle
                   (syncRepo (H := Sim.lib) SimMore.pullFlags "/ws" Sim.ws "AppAPI")
                   Sim.lockfileBumped)) = [].
Proof.
  destruct (syncRepoFull_no_rebase_ignores_lockfile (H := Sim.lib) Sim.handle
              SimMore.pullFlags "/ws" Sim.ws "AppAPI" Sim.apiRepo "/ws/AppAPI"
              Sim.lockfileBumped Sim.lockfileBumped)
    as (H1 & _ & _ & _ & H5); [reflexivity|].
  split; [exact H1|exact H5].
Defined.

(** On [topic], with [feature] in conflict: [feature] and [wip] are
    checked out in turn, then [topic] again. *)
Lemma syncRepoFull_checkout_order_sim :
  map fst (omap checkoutOf
             (trace_of (run Sim.handle
                          (syncRepoFull (H := Sim.lib) SimMore.plainFlags "/ws" Sim.ws
                             "AppAPI" Sim.apiRepo "/ws/AppAPI") SimMore.onTopic)))
  = [("/ws/AppAPI", "feature"); ("/ws/AppAPI", "wip"); ("/ws/AppAPI", "topic")].
Proof.
  destruct (syncRepoFull_checkout_order (H := Sim.lib) Sim.handle
              SimMore.plainFlags "/ws" Sim.ws "AppAPI" Sim.apiRepo "/ws/AppAPI"
              SimMore.onTopic)
    as (brs & Hbrs & Hco); [reflexivity|vm_compute; reflexivity|].
  assert (brs = ["main"; "feature"; "topic"; "wip"]) as ->.
  { assert (omap branchesOf
              (trace_of (run Sim.handle
                           (syncRepoFull (H := Sim.lib) SimMore.plainFlags "/ws" Sim.ws
                              "AppAPI" Sim.apiRepo "/ws/AppAPI") SimMore.onTopic))
            = [["main"; "feature"; "topic"; "wip"]]) as Hb by (vm_compute; reflexivity).
    rewrite Hbrs in Hb. by injection Hb. }
  rewrite Hco. vm_compute. reflexivity.
Defined.

(** Two schedules of the fetch phase: the fetches complete in the order
    of their start, or the fetch of AppModel completes first. *)
Example syncAll_fetches_first :
  omap fetchOf (trace_of (Sim.syncAll [] Sim.clean))
  = [("/ws/AppAPI", "origin"); ("/ws/AppModel", "origin")]
  ∧ omap fetchOf (trace_of (Sim.syncAll [0; 0; 2; 1]%nat Sim.clean))
    = [("/ws/AppModel", "origin"); ("/ws/AppAPI", "origin")]
  ∧ omap fetchOf (trace_of (Sim.syncAll [0; 1; 0; 1]%nat Sim.clean))
    = [("/ws/AppAPI", "origin"); ("/ws/AppModel", "origin")]
  ∧ map isFetch (take 4 (trace_of (Sim.syncAll [0; 0; 2; 1]%nat Sim.clean)))
    = [false; false; true; true]
  ∧ map isFetch (take 4 (trace_of (Sim.syncAll [0; 1; 0; 1]%nat Sim.clean)))
    = [false; true; false; true].
Proof. by vm_compute. Qed.

(** The build of AppModel links it into AppAPI; the build of AppAPI that
    follows links nothing. *)
Lemma autoLinkConsumers_links_once_sim :
  existsb isLinkOp
    (trace_of (run Sim.handle (runmore.autoLinkConsumers (H := Sim.lib) "/ws" Sim.ws
                                 "AppModel") Sim.builtModel)) = true
  ∧ existsb isLinkOp
      (trace_of (Sim.linkAppAPI
                   (world_of (run Sim.handle
                                (runmore.autoLinkConsumers (H := Sim.lib) "/ws" Sim.ws
                                   "AppModel") Sim.builtModel)))) = false.
Proof.
  destruct (autoLinkConsumers_links_once (H := Sim.lib) Sim.handle
              "/ws/AppModel" "/ws/AppAPI" "@spark-rewards/sra-sdk" Sim_npmLaws
              "/ws" Sim.ws "AppModel"
              {| Resolver.api := "AppAPI"; Resolver.pkg := "@spark-rewards/sra-sdk" |}
              Sim.builtModel
              (world_of (run Sim.handle
                           (runmore.autoLinkConsumers (H := Sim.lib) "/ws" Sim.ws
                              "AppModel") Sim.builtModel))
              (trace_of (run Sim.handle
                           (runmore.autoLinkConsumers (H := Sim.lib) "/ws" Sim.ws
                              "AppModel") Sim.builtModel)))
    as [(tr2 & Hrun & Hq) _]; [vm_compute; reflexivity..|].
  split; [vm_compute; reflexivity|].
  unfold Sim.linkAppAPI. cbn [Resolver.api] in Hrun. by rewrite Hrun.
Defined.

Lemma mapSSMToEnv_order_independent_ex :
  envcmd.mapSSMToEnv [("businessUserPoolId", "b"); ("customerUserPoolId", "c")]
    "us-east-1" "beta" []
  = envcmd.mapSSMToEnv [("customerUserPoolId", "c"); ("businessUserPoolId", "b")]
      "us-east-1" "beta" [].
Proof.
  apply mapSSMToEnv_order_independent.
  - apply (bool_decide_unpack _). by vm_compute.
  - apply perm_swap.
Defined.

Lemma mapSSMToEnv_business_pool_first_ex :
  envcmd.mapSSMToEnv [("customerUserPoolId", "c"); ("businessUserPoolId", "b")]
    "us-east-1" "beta" [("GITHUB_TOKEN", "mine")] !! "NEXT_PUBLIC_USERPOOL_ID"
  = Some "b".
Proof.
  apply mapSSMToEnv_business_pool_first.
  - apply (bool_decide_unpack _). by vm_compute.
  - apply (bool_decide_unpack _). by vm_compute.
  - apply (bool_decide_unpack _). by vm_compute.
  - done.
  - apply (bool_decide_unpack _). by vm_compute.
Defined.

Example fallback_gradle_kts :
  result_of (run Sim.handle (runmore.getFallbackCommand (H := Sim.lib) "/ws/Svc" "build")
               (Sim.addFiles [("/ws/Svc/build.gradle.kts", Sim.regular 10 1);
                              ("/ws/Svc/Makefile", Sim.regular 10 1)] Sim.clean))
  = "./gradlew build".
Proof. by vm_compute. Qed.

(** The model is listed twice for the site (once through the declared
    edge and once through the implicit edge of the API), and so it is
    built twice. *)
Example buildSite_builds_model_twice :
  Resolver.getDepsForRun SimRun.ws "Site" = ["AppModel"; "AppModel"; "AppAPI"]
  ∧ (SimRun.buildSite []).1.1 = None
  ∧ map fst (omap RunEffects.shellRun (SimRun.buildSite []).2)
    = [("/ws/AppModel", "npm run build"); ("/ws/AppModel", "npm run build");
       ("/ws/AppAPI", "npm run build"); ("/ws/Site", "npm run build")].
Proof. by vm_compute. Qed.

(** A failing build of the API stops the run before the site is built. *)
Example buildSite_stops_at_failure :
  is_Some (SimRun.buildSite ["/ws/AppAPI"]).1.1
  ∧ map (λ s, s.1.1) (omap RunEffects.shellRun (SimRun.buildSite ["/ws/AppAPI"]).2)
    = ["/ws/AppModel"; "/ws/AppModel"; "/ws/AppAPI"].
Proof. split; [by eexists|by vm_compute]. Qed.

End SimulatedMore.
